(** * Video-Merger: the merge-plan compiler

    A shallow embedding of the filter-graph construction of the
    repository's three FFmpeg helpers:

    - [NClip]   : the n-clip helper ([mergeVideos] / [buildFilterGraph],
                  trims, audio policy, none / fade / crossfade, watermark);
    - [TwoClip] : the two-clip helper with [sanitizeTrim] and the shared
                  [AUDIO_NORM] chain;
    - [Legacy]  : backend/utils/ffmpegHelper.js, the first two-clip helper.

    The helpers build an FFmpeg filter graph as a string, by template
    literals.  Here a filter graph is the list of its filter chains
    ([node]: input pads, filters, output pads), every constructor standing
    for one template of the source; [render] gives back the source's text
    (module [Rendering] has examples).

    Around the helpers, the code that feeds them and reports on them:

    - [Encoding]      : [parseResolution], the bitrate and codec tables and
                        the progress handler of the n-clip helper;
    - [Routes]        : [parseMaxFileSize] and [fileFilter];
    - [Controller]    : the upload check, the [jobs] map and its handlers;
    - [Sse]           : the controller that streams its progress;
    - [Streaming]     : its [startMerge] and [mergeVideosRest];
    - [LegacyCommand] : the options of the first helper's command;
    - [Frontend]      : the drop zone, the merge request, the reader of the
                        stream and [formatTime].

    Conventions.
    - A JavaScript string is the list of its UTF-16 code units ([jsstring]).
    - A JavaScript number is an exact rational, an infinity or NaN
      ([number]).  In the helpers a number is exact: [parseFloat] gives
      the rational that the text denotes, and sums, differences and
      comparisons are those of the rationals.  In the code around them
      [Number], [parseInt] and the arithmetic on what they return
      ([parseMaxFileSize], the seconds of a time mark) are rounded to the
      nearest IEEE double, with overflow to infinity ([Lib.to_double]);
      the percentages and the clock of the front end are computed
      exactly.
    - [Number::toString], which the template literals apply to numbers, is
      a parameter of [render] and of nothing else.
    - A function that may throw returns a [result].
    - The [jobs] map is a [gmap]; the disk is a [gmap] from paths to what
      is there.

    Layout: the embedding ([JS], [FilterGraph], [Overlay], [NClip],
    [TwoClip], [Legacy]); the wording of the specification that the code is
    compared with ([Spec]); closed forms of the loops ([Shape]); the code
    around the helpers ([Lib], [Encoding], [Routes], [Wiring],
    [Controller], [Sse], [LegacyCommand], [Frontend], [Streaming]) and
    what its theorems compare it with ([Expect]); lemmas ([Loops],
    [OverlayFacts], [Escaping], [Closedness], [Rendering]); the properties
    of the specification ([Claims]); lemmas on the code around the helpers
    and its properties ([Further]).  Properties stated for any number of
    clips are settled on [NClip], the only helper that takes a list of
    clips; where the specification speaks of the first two-clip helper
    too, the theorem has a part on [Legacy]. *)
From Stdlib Require Import QArith Qround Qreduction Qabs Qpower Lqa Ascii
  String DecimalString DecimalNat.
From stdpp Require Import base decidable list gmap.

Open Scope nat_scope.

(** ** JavaScript values *)

Module JS.

Definition jsstring := list N.

(** A string literal of the source, as code units. *)
Definition lit (s : string) : jsstring :=
  map N_of_ascii (list_ascii_of_string s).

Inductive number :=
| Fin (q : Q)
| PInf
| NInf
| NaN.

(** What a request field can hold: absent, null, a string or a number. *)
Inductive jsval :=
| JUndefined
| JNull
| JStr (s : jsstring)
| JNum (x : number).

Definition zero : number := Fin 0.

(** ToBoolean on numbers: 0 and NaN are falsy. *)
Definition truthy (x : number) : bool :=
  match x with
  | Fin q => negb (Qeq_bool q 0)
  | PInf | NInf => true
  | NaN => false
  end.

(** [a || b] on numbers. *)
Definition or_else (a b : number) : number :=
  if truthy a then a else b.

Definition isNaN (x : number) : bool :=
  match x with NaN => true | _ => false end.

Definition neg (x : number) : number :=
  match x with
  | Fin q => Fin (- q)
  | PInf => NInf
  | NInf => PInf
  | NaN => NaN
  end.

Definition add (a b : number) : number :=
  match a, b with
  | NaN, _ => NaN
  | _, NaN => NaN
  | Fin x, Fin y => Fin (x + y)
  | PInf, NInf => NaN
  | NInf, PInf => NaN
  | PInf, _ => PInf
  | _, PInf => PInf
  | NInf, _ => NInf
  | _, NInf => NInf
  end.

Definition sub (a b : number) : number :=
  match a, b with
  | Fin x, Fin y => Fin (x - y)
  | _, _ => add a (neg b)
  end.

(** [a < b]; false as soon as one side is NaN. *)
Definition lt (a b : number) : bool :=
  match a, b with
  | NaN, _ => false
  | _, NaN => false
  | Fin x, Fin y => negb (Qle_bool y x)
  | PInf, _ => false
  | _, NInf => false
  | NInf, _ => true
  | _, PInf => true
  end.

Definition gt (a b : number) : bool := lt b a.

(** [a <= b] *)
Definition le (a b : number) : bool :=
  match a, b with
  | NaN, _ => false
  | _, NaN => false
  | Fin x, Fin y => Qle_bool x y
  | NInf, _ => true
  | _, PInf => true
  | _, _ => false
  end.

(** [Math.max(a, b)] and [Math.min(a, b)]. *)
Definition max (a b : number) : number :=
  match a, b with
  | NaN, _ => NaN
  | _, NaN => NaN
  | _, _ => if lt a b then b else a
  end.

Definition min (a b : number) : number :=
  match a, b with
  | NaN, _ => NaN
  | _, NaN => NaN
  | _, _ => if lt b a then b else a
  end.

(** ToNumber of an array element that may be missing ([undefined]). *)
Definition toNumber (o : option number) : number :=
  match o with Some x => x | None => NaN end.

(** *** Strings *)

(** WhiteSpace and LineTerminator code units of ECMAScript. *)
Definition is_ws (c : N) : bool :=
  ((9 <=? c) && (c <=? 13) || (c =? 32) || (c =? 160) || (c =? 5760)
   || (8192 <=? c) && (c <=? 8202) || (c =? 8232) || (c =? 8233)
   || (c =? 8239) || (c =? 8287) || (c =? 12288) || (c =? 65279))%N.

Fixpoint skip_ws (s : jsstring) : jsstring :=
  match s with
  | c :: r => if is_ws c then skip_ws r else s
  | [] => []
  end.

(** [s.trim()] *)
Definition trim (s : jsstring) : jsstring :=
  rev (skip_ws (rev (skip_ws s))).

(** [s.replace(/c/g, by)] for a single code unit [c]. *)
Fixpoint replace_all (c : N) (by_ : jsstring) (s : jsstring) : jsstring :=
  match s with
  | [] => []
  | x :: r => (if (x =? c)%N then by_ else [x]) ++ replace_all c by_ r
  end.

Fixpoint starts_with (p s : jsstring) : bool :=
  match p, s with
  | [], _ => true
  | a :: p', b :: s' => (a =? b)%N && starts_with p' s'
  | _ :: _, [] => false
  end.

(** *** parseFloat *)

Definition is_digit (c : N) : bool := ((48 <=? c) && (c <=? 57))%N.

(** The leading decimal digits of [s], as a value and a count, and the rest. *)
Fixpoint digits (acc : Z) (k : nat) (s : jsstring) : Z * nat * jsstring :=
  match s with
  | c :: r =>
      if is_digit c then digits (10 * acc + Z.of_N (c - 48)) (S k) r
      else (acc, k, s)
  | [] => (acc, k, [])
  end.

Definition sign (s : jsstring) : bool * jsstring :=
  match s with
  | 43%N :: r => (false, r)
  | 45%N :: r => (true, r)
  | _ => (false, s)
  end.

(** The exponent part [e[+-]ddd]; 0 when there is none. *)
Definition exponent (s : jsstring) : Z :=
  match s with
  | c :: r =>
      if ((c =? 101) || (c =? 69))%N then
        let '(eneg, r1) := sign r in
        let '(e, k, _) := digits 0 0 r1 in
        match k with
        | O => 0%Z
        | S _ => if eneg then (- e)%Z else e
        end
      else 0%Z
  | [] => 0%Z
  end.

(** [parseFloat] on a string: leading white space is skipped and the
    longest prefix that is a decimal literal is read; NaN when there is
    none. *)
Definition parseFloat_string (s : jsstring) : number :=
  let '(sneg, s1) := sign (skip_ws s) in
  if starts_with (lit "Infinity") s1 then (if sneg then NInf else PInf)
  else
    let '(ip, ki, s2) := digits 0 0 s1 in
    let '(m, kf, s3) :=
      match s2 with
      | 46%N :: r => digits ip 0 r
      | _ => (ip, O, s2)
      end in
    match (ki + kf)%nat with
    | O => NaN
    | S _ =>
        let e := (exponent s3 - Z.of_nat kf)%Z in
        let v := (inject_Z m * Qpower 10 e)%Q in
        Fin (if sneg then (- v)%Q else v)
    end.

(** [parseFloat(val)]: the argument is first converted to a string;
    "undefined" and "null" have no numeric prefix, and a number reads back
    as itself. *)
Definition parseFloat (v : jsval) : number :=
  match v with
  | JUndefined | JNull => NaN
  | JStr s => parseFloat_string s
  | JNum x => x
  end.

(** ToBoolean on strings: only the empty string is falsy. *)
Definition nonempty (s : jsstring) : bool :=
  match s with [] => false | _ :: _ => true end.

(** [s === 'literal'] *)
Definition is_lit (s : jsstring) (l : string) : bool :=
  bool_decide (s = lit l).

(** What a function of the source returns when it may throw. *)
Inductive result (A : Type) :=
| Ok (a : A)
| TypeError.
Arguments Ok {A} a.
Arguments TypeError {A}.

(** [arr.forEach((x, i) => ...)] over a state the callback updates. *)
Fixpoint forEach_from {A St : Type} (body : St -> A -> nat -> St)
    (i : nat) (arr : list A) (s : St) : St :=
  match arr with
  | [] => s
  | x :: rest => forEach_from body (S i) rest (body s x i)
  end.

Definition forEach {A St : Type} (body : St -> A -> nat -> St)
    (arr : list A) (s : St) : St :=
  forEach_from body 0 arr s.

(** The same when the callback may throw: the loop stops there. *)
Fixpoint forEach_throw_from {A St : Type} (body : St -> A -> nat -> result St)
    (i : nat) (arr : list A) (s : St) : result St :=
  match arr with
  | [] => Ok s
  | x :: rest =>
      match body s x i with
      | Ok s' => forEach_throw_from body (S i) rest s'
      | TypeError => TypeError
      end
  end.

Definition forEach_throw {A St : Type} (body : St -> A -> nat -> result St)
    (arr : list A) (s : St) : result St :=
  forEach_throw_from body 0 arr s.

(** [for (let i = from; i < to; i++) ...] *)
Definition for_range {St : Type} (from to : nat) (body : St -> nat -> St)
    (s : St) : St :=
  foldl body s (seq from (to - from)).

End JS.

(** ** Filter graphs *)

Module FilterGraph.
Import JS.

(** Link labels.  [in_v i] and [in_a i] are the streams [[i:v]] and
    [[i:a]] of input file [i]; the others are the labels the helpers
    invent: [[v3]], [[afout2]], [[outv]] and so on. *)
Inductive label :=
| in_v (i : nat)
| in_a (i : nat)
| v_ (i : nat)
| a_ (i : nat)
| vfin (i : nat)
| afin (i : nat)
| vfout (i : nat)
| afout (i : nat)
| xv (i : nat)
| xa (i : nat)
| outv
| outa
| watermarked
| outv2.

Inductive fade_type := fade_in | fade_out.

(** One constructor per filter template of the source. *)
Inductive filter :=
| trim (start end_ : number)
| setpts
| scale (w h : jsval)
| pad (w h : jsval) (color : option string)
| setsar
| fps (rate : N)
| format (pix_fmt : string)
| atrim (start end_ : number)
| asetpts
| aevalsrc (d : option number)
| aevalsrc_stereo (sample_rate : N) (duration : number)
| aresample (rate : N)
| aformat (sample_fmts channel_layouts : string)
| fade (t : fade_type) (st d : number)
| afade (t : fade_type) (st d : number)
| xfade (duration offset : number)
| xfade_auto (duration : number)
| acrossfade (d : number)
| concat (n v a : nat)
| drawtext (text : jsstring).

(** A filter chain with its input and output pads: one element of the
    source's [filters] array. *)
Record node := Node {
  inputs : list label;
  chain : list filter;
  outputs : list label
}.

(** What a helper hands to FFmpeg: the chains in the order they were
    pushed, and the two labels mapped to the output file. *)
Record plan := Plan {
  filterGraph : list node;
  finalVideoLabel : label;
  finalAudioLabel : label
}.

#[global] Instance label_eq_dec : EqDecision label.
Proof. solve_decision. Defined.

Definition is_raw (l : label) : bool :=
  match l with in_v _ | in_a _ => true | _ => false end.

(** Labels that carry audio. *)
Definition is_audio_label (l : label) : bool :=
  match l with
  | in_a _ | a_ _ | afin _ | afout _ | xa _ | outa => true
  | _ => false
  end.

(** A node is on the audio path when it consumes or produces audio. *)
Definition on_audio_path (x : node) : bool :=
  existsb is_audio_label (inputs x) || existsb is_audio_label (outputs x).

Definition is_join (f : filter) : bool :=
  match f with
  | concat _ _ _ | xfade _ _ | xfade_auto _ | acrossfade _ => true
  | _ => false
  end.

(** A join node combines the streams of several clips. *)
Definition is_join_node (x : node) : bool := existsb is_join (chain x).

Definition is_drawtext (f : filter) : bool :=
  match f with drawtext _ => true | _ => false end.

Definition is_overlay_node (x : node) : bool := existsb is_drawtext (chain x).

(** All labels produced by a list of nodes, in order. *)
Definition produced (g : list node) : list label :=
  flat_map outputs g.

(** [closed n g]: the graph over [n] input files is a closed program in
    topological order.  Every label consumed by the node at position [k]
    is a stream of an input file [i < n] or is produced by a node at a
    position [j < k]. *)
Definition raw_input (n : nat) (l : label) : Prop :=
  match l with
  | in_v i | in_a i => i < n
  | _ => False
  end.

Definition closed (n : nat) (g : list node) : Prop :=
  forall k x l, g !! k = Some x -> l ∈ inputs x ->
    raw_input n l \/
    exists j y, j < k /\ g !! j = Some y /\ l ∈ outputs y.

(** Every output label is produced once, and none is a raw input. *)
Definition unique_outputs (g : list node) : Prop :=
  NoDup (produced g) /\ forall l, l ∈ produced g -> is_raw l = false.

(** [feeds n avail g]: walking [g] in order, every input of a node is a
    stream of an input file or is among [avail] and the labels produced
    so far. *)
Fixpoint feeds (n : nat) (avail : list label) (g : list node) : Prop :=
  match g with
  | [] => True
  | x :: rest =>
      (forall l, l ∈ inputs x -> raw_input n l \/ l ∈ avail)
      /\ feeds n (avail ++ outputs x) rest
  end.

(** *** The text of a graph *)

Section Render.

(** [Number::toString]. *)
Variable show : number -> jsstring.

Definition show_nat (n : nat) : jsstring :=
  lit (NilZero.string_of_uint (Nat.to_uint n)).

Definition show_N (n : N) : jsstring :=
  lit (NilZero.string_of_uint (N.to_uint n)).

Definition show_val (v : jsval) : jsstring :=
  match v with
  | JUndefined => lit "undefined"
  | JNull => lit "null"
  | JStr s => s
  | JNum x => show x
  end.

Definition show_opt (o : option number) : jsstring :=
  match o with Some x => show x | None => lit "undefined" end.

Definition label_name (l : label) : jsstring :=
  match l with
  | in_v i => show_nat i ++ lit ":v"
  | in_a i => show_nat i ++ lit ":a"
  | v_ i => lit "v" ++ show_nat i
  | a_ i => lit "a" ++ show_nat i
  | vfin i => lit "vfin" ++ show_nat i
  | afin i => lit "afin" ++ show_nat i
  | vfout i => lit "vfout" ++ show_nat i
  | afout i => lit "afout" ++ show_nat i
  | xv i => lit "xv" ++ show_nat i
  | xa i => lit "xa" ++ show_nat i
  | outv => lit "outv"
  | outa => lit "outa"
  | watermarked => lit "watermarked"
  | outv2 => lit "outv2"
  end.

Definition render_label (l : label) : jsstring :=
  lit "[" ++ label_name l ++ lit "]".

Definition fade_type_name (t : fade_type) : jsstring :=
  match t with fade_in => lit "in" | fade_out => lit "out" end.

Definition render_filter (f : filter) : jsstring :=
  match f with
  | trim s e => lit "trim=start=" ++ show s ++ lit ":end=" ++ show e
  | setpts => lit "setpts=PTS-STARTPTS"
  | scale w h =>
      lit "scale=" ++ show_val w ++ lit ":" ++ show_val h
      ++ lit ":force_original_aspect_ratio=decrease"
  | pad w h c =>
      lit "pad=" ++ show_val w ++ lit ":" ++ show_val h
      ++ lit ":(ow-iw)/2:(oh-ih)/2"
      ++ match c with Some c => lit ":color=" ++ lit c | None => [] end
  | setsar => lit "setsar=1"
  | fps r => lit "fps=" ++ show_N r
  | format p => lit "format=" ++ lit p
  | atrim s e => lit "atrim=start=" ++ show s ++ lit ":end=" ++ show e
  | asetpts => lit "asetpts=PTS-STARTPTS"
  | aevalsrc d => lit "aevalsrc=0:d=" ++ show_opt d
  | aevalsrc_stereo r d =>
      lit "aevalsrc=0:channel_layout=stereo:sample_rate=" ++ show_N r
      ++ lit ":duration=" ++ show d
  | aresample r => lit "aresample=" ++ show_N r
  | aformat f c =>
      lit "aformat=sample_fmts=" ++ lit f ++ lit ":channel_layouts=" ++ lit c
  | fade t st d =>
      lit "fade=t=" ++ fade_type_name t ++ lit ":st=" ++ show st
      ++ lit ":d=" ++ show d
  | afade t st d =>
      lit "afade=t=" ++ fade_type_name t ++ lit ":st=" ++ show st
      ++ lit ":d=" ++ show d
  | xfade d o =>
      lit "xfade=transition=fade:duration=" ++ show d
      ++ lit ":offset=" ++ show o
  | xfade_auto d =>
      lit "xfade=transition=fade:duration=" ++ show d ++ lit ":offset=auto"
  | acrossfade d => lit "acrossfade=d=" ++ show d
  | concat n v a =>
      lit "concat=n=" ++ show_nat n ++ lit ":v=" ++ show_nat v
      ++ lit ":a=" ++ show_nat a
  | drawtext t =>
      lit "drawtext=text='" ++ t
      ++ lit "':fontsize=24:fontcolor=white@0.7:x=w-tw-20:y=h-th-20:shadowcolor=black@0.5:shadowx=2:shadowy=2"
  end.

(** [pieces.join(sep)] *)
Fixpoint join (sep : jsstring) (pieces : list jsstring) : jsstring :=
  match pieces with
  | [] => []
  | [p] => p
  | p :: rest => p ++ sep ++ join sep rest
  end.

Definition render_node (x : node) : jsstring :=
  flat_map render_label (inputs x)
  ++ join (lit ",") (map render_filter (chain x))
  ++ flat_map render_label (outputs x).

(** [filters.join(';')] *)
Definition render (g : list node) : jsstring :=
  join (lit ";") (map render_node g).

End Render.

End FilterGraph.

(** ** The watermark lines, the same in the three helpers *)

Module Overlay.
Import JS FilterGraph.

(** [watermark && watermark.trim()]; [None] is an absent watermark. *)
Definition has_watermark (watermark : option jsstring) : bool :=
  match watermark with
  | None => false
  | Some w => nonempty w && nonempty (JS.trim w)
  end.

Definition quote : N := 39.
Definition colon : N := 58.
Definition backslash : N := 92.

(** [watermark.replace(/'/g, "\\'").replace(/:/g, '\\:')] *)
Definition safeText (w : jsstring) : jsstring :=
  replace_all colon [backslash; colon] (replace_all quote [backslash; quote] w).

(** [[from]drawtext=text='${safeText}':...[to]] *)
Definition drawtext_node (from : label) (w : jsstring) (to : label) : node :=
  Node [from] [drawtext (safeText w)] [to].

End Overlay.

(** ** The n-clip helper: [mergeVideos] and [buildFilterGraph] *)

Module NClip.
Import JS FilterGraph Overlay.

(** An element of [options.videos]. *)
Record video := Video {
  path : jsstring;
  trimStart : jsval;
  trimEnd : jsval
}.

(** What [probeVideo] resolves to; the graph reads these two fields. *)
Record probe := Probe {
  duration : number;
  hasAudio : bool
}.

(** [parseFloat(v.trimStart) || 0] *)
Definition start_of (v : video) : number :=
  or_else (parseFloat (trimStart v)) zero.

(** [parseFloat(v.trimEnd) || full] *)
Definition end_of (v : video) (full : number) : number :=
  or_else (parseFloat (trimEnd v)) full.

(** One element of [effectiveDurations] in [mergeVideos]. *)
Definition effectiveDuration (v : video) (p : probe) : number :=
  let full := duration p in
  let start := start_of v in
  let end_ := end_of v full in
  sub (min end_ full) start.

(** [probes] is [videos.map(probeVideo)], so the two arrays are read
    index by index. *)
Definition effectiveDurations_of (videos : list video) (probes : list probe)
    : list number :=
  zip_with effectiveDuration videos probes.

(** [effectiveDurations.reduce((a, b) => a + b, 0)] *)
Definition totalDuration (effectiveDurations : list number) : number :=
  foldl add zero effectiveDurations.

(** The argument object of [buildFilterGraph]. *)
Record options := Options {
  videos : list video;
  probes : list probe;
  effectiveDurations : list number;
  width : number;
  height : number;
  audioOption : jsstring;
  transition : jsstring;
  watermark : option jsstring
}.

(** The arrays [filters], [videoLabels] and [audioLabels]. *)
Record state := State {
  filters : list node;
  videoLabels : list label;
  audioLabels : list label
}.

(** [aevalsrc=0:d=${effectiveDurations[i]}[a${i}]] *)
Definition silence (o : options) (i : nat) : node :=
  Node [] [aevalsrc (effectiveDurations o !! i)] [a_ i].

(** The audio filter of clip [i]. *)
Definition audioFilter (o : options) (p : probe) (start end_ : number)
    (i : nat) : node :=
  if hasAudio p then
    if is_lit (audioOption o) "muteAll" then silence o i
    else if is_lit (audioOption o) "keepFirst" && (0 <? i) then silence o i
    else Node [in_a i] [atrim start end_; asetpts] [a_ i]
  else silence o i.

(** Step 1, the body of the first [videos.forEach]: it throws when
    [probes[i]] is missing. *)
Definition step1 (o : options) (s : state) (v : video) (i : nat)
    : result state :=
  match probes o !! i with
  | None => TypeError
  | Some p =>
      let start := start_of v in
      let end_ := end_of v (duration p) in
      let videoFilter :=
        Node [in_v i]
             [trim start end_; setpts;
              scale (JNum (width o)) (JNum (height o));
              pad (JNum (width o)) (JNum (height o)) (Some "black"%string);
              setsar]
             [v_ i] in
      Ok {| filters := filters s ++ [videoFilter; audioFilter o p start end_ i];
            videoLabels := videoLabels s ++ [v_ i];
            audioLabels := audioLabels s ++ [a_ i] |}
  end.

(** [videoLabels.map((v, i) => `${v}${audioLabels[i]}`).join('')]: the
    two arrays always have one entry per clip. *)
Definition concatInput (vs as_ : list label) : list label :=
  flat_map (fun va : label * label => [fst va; snd va]) (zip vs as_).

Definition concat_node (n : nat) (vs as_ : list label) : node :=
  Node (concatInput vs as_) [concat n 1 1] [outv; outa].

(** *** Fade *)

Definition fadeDuration : number := Fin (1 # 2).

(** [filters], [fadedVideoLabels] and [fadedAudioLabels]. *)
Record fade_state := FadeState {
  fade_filters : list node;
  fadedVideoLabels : list label;
  fadedAudioLabels : list label
}.

(** The fade-in pair of clip [i]. *)
Definition fade_in_nodes (i : nat) (vf af : label) : list node :=
  [Node [vf] [fade fade_in zero fadeDuration] [vfin i];
   Node [af] [afade fade_in zero fadeDuration] [afin i]].

(** [Math.max(0, dur - fadeDuration)] *)
Definition fadeStart (dur : option number) : number :=
  max zero (sub (toNumber dur) fadeDuration).

(** The fade-out pair of clip [i]. *)
Definition fade_out_nodes (i : nat) (dur : option number) (vf af : label)
    : list node :=
  [Node [vf] [fade fade_out (fadeStart dur) fadeDuration] [vfout i];
   Node [af] [afade fade_out (fadeStart dur) fadeDuration] [afout i]].

(** The body of the second [videos.forEach]. *)
Definition fade_step (o : options) (n : nat) (s : fade_state) (v : video)
    (i : nat) : fade_state :=
  let dur := effectiveDurations o !! i in
  let vf := v_ i in
  let af := a_ i in
  let '(pushed_in, vf, af) :=
    if 0 <? i then (fade_in_nodes i vf af, vfin i, afin i)
    else ([], vf, af) in
  let '(pushed_out, vf, af) :=
    if i <? n - 1 then (fade_out_nodes i dur vf af, vfout i, afout i)
    else ([], vf, af) in
  {| fade_filters := fade_filters s ++ pushed_in ++ pushed_out;
     fadedVideoLabels := fadedVideoLabels s ++ [vf];
     fadedAudioLabels := fadedAudioLabels s ++ [af] |}.

(** *** Crossfade *)

Definition xfadeDuration : number := Fin 1.

(** [filters] and the three variables the loop rebinds. *)
Record xfade_state := XfadeState {
  xfade_filters : list node;
  currentVideoLabel : label;
  currentAudioLabel : label;
  cumulativeOffset : number
}.

(** The body of the [for] loop. *)
Definition xfade_step (o : options) (n : nat) (s : xfade_state) (i : nat)
    : xfade_state :=
  let offset := max zero (sub (cumulativeOffset s) xfadeDuration) in
  let nextV := v_ i in
  let nextA := a_ i in
  let outV := if i =? n - 1 then outv else xv i in
  let outA := if i =? n - 1 then outa else xa i in
  {| xfade_filters :=
       xfade_filters s ++
       [Node [currentVideoLabel s; nextV] [xfade xfadeDuration offset] [outV];
        Node [currentAudioLabel s; nextA] [acrossfade xfadeDuration] [outA]];
     currentVideoLabel := outV;
     currentAudioLabel := outA;
     cumulativeOffset := add offset (toNumber (effectiveDurations o !! i)) |}.

Definition xfade_init (o : options) (fs : list node) : xfade_state :=
  {| xfade_filters := fs;
     currentVideoLabel := v_ 0;
     currentAudioLabel := a_ 0;
     cumulativeOffset := toNumber (effectiveDurations o !! 0) |}.

Definition xfade_loop (o : options) (n : nat) (fs : list node) : xfade_state :=
  for_range 1 n (xfade_step o n) (xfade_init o fs).

(** *** Step 2: concatenate or add transitions *)

Definition fade_loop (o : options) (n : nat) (fs : list node) : fade_state :=
  forEach (fade_step o n) (videos o) (FadeState fs [] []).

Definition step2 (o : options) (s : state) : list node :=
  let n := length (videos o) in
  if is_lit (transition o) "fade" && (1 <? n) then
    let f := fade_loop o n (filters s) in
    fade_filters f
    ++ [concat_node n (fadedVideoLabels f) (fadedAudioLabels f)]
  else if is_lit (transition o) "crossfade" && (1 <? n) then
    xfade_filters (xfade_loop o n (filters s))
  else
    filters s ++ [concat_node n (videoLabels s) (audioLabels s)].

(** *** Step 3: optional watermark *)

Definition step3 (o : options) (fs : list node) : list node * label :=
  let finalVideoLabel := outv in
  match watermark o with
  | Some w =>
      if has_watermark (watermark o) then
        (fs ++ [drawtext_node finalVideoLabel w watermarked], watermarked)
      else (fs, finalVideoLabel)
  | None => (fs, finalVideoLabel)
  end.

(** [buildFilterGraph]; [outputs] is the pair of the final labels, of
    which the source lists the names without brackets. *)
Definition buildFilterGraph (o : options) : result plan :=
  match forEach_throw (step1 o) (videos o) (State [] [] []) with
  | TypeError => TypeError
  | Ok s =>
      let '(fs, finalVideoLabel) := step3 o (step2 o s) in
      Ok (Plan fs finalVideoLabel outa)
  end.

(** The part of [mergeVideos] that decides the graph: the effective
    durations, their sum and the call of [buildFilterGraph].  [width] and
    [height] come from [parseResolution]. *)
Definition mergeVideos (videos : list video) (probes : list probe)
    (width height : number) (audioOption transition : jsstring)
    (watermark : option jsstring) : number * result plan :=
  let effectiveDurations := effectiveDurations_of videos probes in
  (totalDuration effectiveDurations,
   buildFilterGraph
     (Options videos probes effectiveDurations width height
              audioOption transition watermark)).

End NClip.

(** ** The two-clip helper with [sanitizeTrim] and [AUDIO_NORM] *)

Module TwoClip.
Import JS FilterGraph Overlay.

(** [aresample=44100,aformat=sample_fmts=fltp:channel_layouts=stereo] *)
Definition AUDIO_NORM : list filter :=
  [aresample 44100; aformat "fltp" "stereo"].

(** The tail of both video templates:
    [scale=w:h:...,pad=w:h:...,fps=30,format=yuv420p]. *)
Definition VIDEO_NORM (w h : jsval) : list filter :=
  [scale w h; pad w h None; fps 30; format "yuv420p"].

(** What [probeVideo] resolves to. *)
Record probe := Probe {
  duration : number;
  hasAudio : bool
}.

(** [sanitizeTrim]: a valid float or null ([None]). *)
Definition sanitizeTrim (val : jsval) : option number :=
  match val with
  | JUndefined | JNull | JStr [] => None
  | _ =>
      let num := parseFloat val in
      if isNaN num then None else Some num
  end.

(** [sanitizeTrim(x) || 0] *)
Definition or_zero (t : option number) : number :=
  match t with
  | Some x => or_else x zero
  | None => zero
  end.

(** The fields of [settings] the graph reads. *)
Record settings := Settings {
  resolution : option jsstring;
  watermark : option jsstring;
  trimStart0 : jsval;
  trimEnd0 : jsval;
  trimStart1 : jsval;
  trimEnd1 : jsval
}.

(** [s.split('x')] *)
Fixpoint split_x (s : jsstring) : list jsstring :=
  match s with
  | [] => [[]]
  | c :: r =>
      if (c =? 120)%N then [] :: split_x r
      else
        match split_x r with
        | p :: ps => (c :: p) :: ps
        | [] => [[c]]
        end
  end.

(** [const [w, h] = resolution.split('x')], with the default
    ['1280x720']. *)
Definition w_h (st : settings) : jsval * jsval :=
  let pieces := split_x (default (lit "1280x720") (resolution st)) in
  let piece i := match pieces !! i with Some p => JStr p | None => JUndefined end in
  (piece 0, piece 1).

(** The effective trim of one clip; the source computes it twice, as
    [eff0Start], [eff0End], [needTrim0] and [eff1Start], [eff1End],
    [needTrim1]. *)
Record effective_trim := EffectiveTrim {
  effStart : number;
  effEnd : number;
  needTrim : bool
}.

Definition resolve (trimStartRaw trimEndRaw : jsval) (p : probe)
    : effective_trim :=
  let trimStart := or_zero (sanitizeTrim trimStartRaw) in
  let trimEnd := sanitizeTrim trimEndRaw in
  {| effStart := trimStart;
     effEnd := match trimEnd with Some e => e | None => duration p end;
     needTrim :=
       gt trimStart zero
       || match trimEnd with Some e => lt e (duration p) | None => false end |}.

(** The video filter of clip [i]. *)
Definition videoFilter (i : nat) (w h : jsval) (t : effective_trim) : node :=
  if needTrim t then
    Node [in_v i] ([trim (effStart t) (effEnd t); setpts] ++ VIDEO_NORM w h)
         [v_ i]
  else
    Node [in_v i] (VIDEO_NORM w h) [v_ i].

(** The audio filter of clip [i]. *)
Definition audioFilter (i : nat) (p : probe) (t : effective_trim) : node :=
  if hasAudio p then
    if needTrim t then
      Node [in_a i] ([atrim (effStart t) (effEnd t); asetpts] ++ AUDIO_NORM)
           [a_ i]
    else Node [in_a i] AUDIO_NORM [a_ i]
  else
    let dur := if needTrim t then sub (effEnd t) (effStart t) else duration p in
    Node [] (aevalsrc_stereo 44100 dur :: AUDIO_NORM) [a_ i].

(** The four per-clip filters, in the order they are pushed. *)
Definition normalized (st : settings) (probe0 probe1 : probe) : list node :=
  let '(w, h) := w_h st in
  let t0 := resolve (trimStart0 st) (trimEnd0 st) probe0 in
  let t1 := resolve (trimStart1 st) (trimEnd1 st) probe1 in
  [videoFilter 0 w h t0; audioFilter 0 probe0 t0;
   videoFilter 1 w h t1; audioFilter 1 probe1 t1].

(** [[v0][a0][v1][a1]concat=n=2:v=1:a=1[outv][outa]] *)
Definition concat_node : node :=
  Node [v_ 0; a_ 0; v_ 1; a_ 1] [concat 2 1 1] [outv; outa].

(** The graph [mergeVideos] builds, with the labels it maps. *)
Definition mergeVideos (st : settings) (probe0 probe1 : probe) : plan :=
  let fs := normalized st probe0 probe1 ++ [concat_node] in
  let finalVideoLabel := outv in
  match watermark st with
  | Some w =>
      if has_watermark (watermark st) then
        Plan (fs ++ [drawtext_node outv w outv2]) outv2 outa
      else Plan fs finalVideoLabel outa
  | None => Plan fs finalVideoLabel outa
  end.

End TwoClip.

(** ** backend/utils/ffmpegHelper.js *)

Module Legacy.
Import JS FilterGraph Overlay.

(** The fields of [settings] the filter graph reads, after the defaults
    of the destructuring. *)
Record settings := Settings {
  resolution : jsstring;
  audioOption : jsstring;
  transition : jsstring;
  watermark : option jsstring
}.

Definition w_h (st : settings) : jsval * jsval :=
  let pieces := TwoClip.split_x (resolution st) in
  let piece i := match pieces !! i with Some p => JStr p | None => JUndefined end in
  (piece 0, piece 1).

(** [scale=w:h:...,pad=w:h:...,setsar=1] followed by [extra]. *)
Definition scaled (i : nat) (w h : jsval) (extra : list filter) : node :=
  Node [in_v i] ([scale w h; pad w h None; setsar] ++ extra) [v_ i].

Definition half : number := Fin (1 # 2).

(** [filterGraph] *)
Definition videoGraph (st : settings) : list node :=
  let '(w, h) := w_h st in
  if is_lit (transition st) "fade" then
    [scaled 0 w h [fade fade_out zero half];
     scaled 1 w h [fade fade_in zero half];
     Node [v_ 0; v_ 1] [concat 2 1 0] [outv]]
  else if is_lit (transition st) "crossfade" then
    [scaled 0 w h []; scaled 1 w h [];
     Node [v_ 0; v_ 1] [xfade_auto (Fin 1)] [outv]]
  else
    [scaled 0 w h []; scaled 1 w h [];
     Node [v_ 0; v_ 1] [concat 2 1 0] [outv]].

(** [audioFilter] *)
Definition audioGraph (st : settings) : list node :=
  if is_lit (audioOption st) "muteAll" then []
  else if is_lit (audioOption st) "keepFirst" then
    [Node [in_a 0] [aresample 44100] [outa]]
  else [Node [in_a 0; in_a 1] [concat 2 0 1] [outa]].

(** [watermarkFilter] *)
Definition watermarkGraph (st : settings) : list node :=
  match watermark st with
  | Some w =>
      if has_watermark (watermark st) then [drawtext_node outv w outv2]
      else []
  | None => []
  end.

(** [fullFilter], [finalVideoLabel] and the mapped audio label, absent
    under [muteAll] ([-an]). *)
Definition mergeVideos (st : settings) : list node * label * option label :=
  let fullFilter := videoGraph st ++ audioGraph st ++ watermarkGraph st in
  let finalVideoLabel :=
    match watermarkGraph st with [] => outv | _ :: _ => outv2 end in
  (fullFilter, finalVideoLabel,
   if is_lit (audioOption st) "muteAll" then None else Some outa).

End Legacy.

(** ** The specification's own wording, for comparison with the code *)

Module Spec.
Import JS FilterGraph Overlay.

(** Trim Resolver of the specification: [start = max(0, requestedStart or
    0)], [end = requestedEnd if present and > 0 else duration], then
    [end = min(end, duration)]; [None] is [InvalidRangeError], raised when
    [end <= start]. *)
Record effective_trim := EffectiveTrim {
  start : number;
  end_ : number;
  needsTrim : bool
}.

Definition resolve (duration : number) (requestedStart requestedEnd : option number)
    : option effective_trim :=
  let start :=
    max zero (match requestedStart with Some s => s | None => zero end) in
  let end0 :=
    match requestedEnd with
    | Some e => if gt e zero then e else duration
    | None => duration
    end in
  let end_ := min end0 duration in
  if le end_ start then None
  else Some (EffectiveTrim start end_ (gt start zero || lt end_ duration)).

(** Crossfade of the specification, as a fold over the clips after the
    first: the offsets of the blends, then the final cumulative offset. *)
Fixpoint crossfade (X cumulativeOffset : number) (ds : list number)
    : list number * number :=
  match ds with
  | [] => ([], cumulativeOffset)
  | d :: rest =>
      let offset := max zero (sub cumulativeOffset X) in
      let '(offsets, total) := crossfade X (add offset d) rest in
      (offset :: offsets, total)
  end.

(** Sum of a list of rationals. *)
Definition Qsum (ds : list Q) : Q := foldr Qplus 0%Q ds.

(** No offset of the fold clamps to 0: every partial sum of the durations
    reaches the overlap accumulated so far. *)
Fixpoint no_clamp (X cum : Q) (ds : list Q) : Prop :=
  match ds with
  | [] => True
  | d :: rest => (X <= cum)%Q /\ no_clamp X (cum - X + d)%Q rest
  end.

(** Every quote and every colon of [s] comes right after a backslash;
    [prev] is the code unit before [s]. *)
Fixpoint reserved_escaped (prev : option N) (s : jsstring) : Prop :=
  match s with
  | [] => True
  | c :: rest =>
      (c = quote \/ c = colon -> prev = Some backslash)
      /\ reserved_escaped (Some c) rest
  end.

Definition is_reserved (c : N) : bool := ((c =? quote) || (c =? colon))%N.

(** Number of quotes and colons. *)
Definition reserved_count (s : jsstring) : nat :=
  length (List.filter is_reserved s).

(** The text parameters of the overlay nodes of a graph. *)
Definition overlay_texts (g : list node) : list jsstring :=
  flat_map (fun x : node =>
    flat_map (fun f : filter =>
      match f with drawtext t => [t] | _ => [] end) (chain x)) g.

(** A chain ends with the given filters. *)
Definition ends_with (tail : list filter) (x : node) : Prop :=
  exists front, chain x = front ++ tail.

(** A filter of one of the normalization kinds: frame rate, pixel
    format, resampling, sample format and channel layout. *)
Definition is_norm (f : filter) : bool :=
  match f with
  | fps _ | format _ | aresample _ | aformat _ _ => true
  | _ => false
  end.

(** A request is in range when, with an absent start read as 0 and an
    absent end as the duration [d], [0 <= start < end <= d]. *)
Definition requested_start (rs : option number) : option Q :=
  match rs with
  | None => Some 0%Q
  | Some (Fin x) => Some x
  | Some _ => None
  end.

Definition requested_end (d : Q) (re : option number) : option Q :=
  match re with
  | None => Some d
  | Some (Fin y) => Some y
  | Some _ => None
  end.

Definition in_range (d : Q) (rs re : option number) : Prop :=
  match requested_start rs, requested_end d re with
  | Some x, Some y => (0 <= x)%Q /\ (x < y)%Q /\ (y <= d)%Q
  | _, _ => False
  end.

(** The offsets that the filters of a node carry: of the templates of the
    source only the video blend has one. *)
Definition has_offset (f : filter) : bool :=
  match f with xfade _ _ => true | _ => false end.

Definition offsets (x : node) : list number :=
  flat_map (fun f : filter =>
    match f with xfade _ offset => [offset] | _ => [] end) (chain x).

(** A node that synthesizes silence, and a filter that fades audio. *)
Definition is_silence_source (f : filter) : bool :=
  match f with aevalsrc _ | aevalsrc_stereo _ _ => true | _ => false end.

Definition is_silence (x : node) : bool :=
  existsb is_silence_source (chain x).

Definition is_afade (f : filter) : bool :=
  match f with afade _ _ _ => true | _ => false end.

End Spec.

(** ** Closed forms of the loops of [buildFilterGraph] *)

Module Shape.
Import JS FilterGraph Overlay NClip.

(** What step 1 pushes for clip [i]. *)
Definition clip_filters (o : options) (i : nat) : list node :=
  match videos o !! i, probes o !! i with
  | Some v, Some p =>
      let start := start_of v in
      let end_ := end_of v (duration p) in
      [Node [in_v i]
            [trim start end_; setpts;
             scale (JNum (width o)) (JNum (height o));
             pad (JNum (width o)) (JNum (height o)) (Some "black"%string);
             setsar]
            [v_ i];
       audioFilter o p start end_ i]
  | _, _ => []
  end.

Definition step1_filters (o : options) : list node :=
  flat_map (clip_filters o) (seq 0 (length (videos o))).

Definition step1_state (o : options) : state :=
  let n := length (videos o) in
  State (step1_filters o) (map v_ (seq 0 n)) (map a_ (seq 0 n)).

(** The labels of clip [i] after its fade-in. *)
Definition fin_v (i : nat) : label := if 0 <? i then vfin i else v_ i.
Definition fin_a (i : nat) : label := if 0 <? i then afin i else a_ i.

(** The labels of clip [i] that reach the concatenation. *)
Definition faded_v (n i : nat) : label :=
  if i <? n - 1 then vfout i else fin_v i.
Definition faded_a (n i : nat) : label :=
  if i <? n - 1 then afout i else fin_a i.

(** What the fade loop pushes for clip [i]. *)
Definition clip_fades (o : options) (n i : nat) : list node :=
  (if 0 <? i then fade_in_nodes i (v_ i) (a_ i) else [])
  ++ (if i <? n - 1
      then fade_out_nodes i (effectiveDurations o !! i) (fin_v i) (fin_a i)
      else []).

(** The cumulative offset after the crossfade step of clip [k]. *)
Fixpoint cum_at (o : options) (k : nat) : number :=
  match k with
  | O => toNumber (effectiveDurations o !! 0)
  | S k' =>
      add (max zero (sub (cum_at o k') xfadeDuration))
          (toNumber (effectiveDurations o !! k))
  end.

(** The offset of the blend of clip [i >= 1]. *)
Definition offset_at (o : options) (i : nat) : number :=
  max zero (sub (cum_at o (i - 1)) xfadeDuration).

(** The labels entering and leaving the crossfade step of clip [i]. *)
Definition cur_v (i : nat) : label := if i =? 0 then v_ 0 else xv i.
Definition cur_a (i : nat) : label := if i =? 0 then a_ 0 else xa i.
Definition out_v (n i : nat) : label := if i =? n - 1 then outv else xv i.
Definition out_a (n i : nat) : label := if i =? n - 1 then outa else xa i.

(** What the crossfade loop pushes for clip [i >= 1]. *)
Definition clip_xfade (o : options) (n i : nat) : list node :=
  [Node [cur_v (i - 1); v_ i] [xfade xfadeDuration (offset_at o i)] [out_v n i];
   Node [cur_a (i - 1); a_ i] [acrossfade xfadeDuration] [out_a n i]].

(** The overlay step, as the nodes it appends. *)
Definition overlay_nodes (watermark : option jsstring) (to : label) : list node :=
  match watermark with
  | Some w => if has_watermark watermark then [drawtext_node outv w to] else []
  | None => []
  end.

(** [o] with another watermark. *)
Definition with_watermark (o : options) (w : option jsstring) : options :=
  Options (videos o) (probes o) (effectiveDurations o) (width o) (height o)
          (audioOption o) (transition o) w.

(** What step 2 pushes. *)
Definition join_filters (o : options) : list node :=
  let n := length (videos o) in
  if is_lit (transition o) "fade" && (1 <? n) then
    flat_map (clip_fades o n) (seq 0 n)
    ++ [concat_node n (map (faded_v n) (seq 0 n)) (map (faded_a n) (seq 0 n))]
  else if is_lit (transition o) "crossfade" && (1 <? n) then
    flat_map (clip_xfade o n) (seq 1 (n - 1))
  else
    [concat_node n (map v_ (seq 0 n)) (map a_ (seq 0 n))].

(** The whole graph and the plan, when no probe is missing. *)
Definition all_filters (o : options) : list node :=
  step1_filters o ++ join_filters o ++ overlay_nodes (watermark o) watermarked.

Definition the_plan (o : options) : plan :=
  Plan (all_filters o)
       (if has_watermark (watermark o) then watermarked else outv)
       outa.

(** The real-audio filter of clip [i]:
    [[i:a]atrim=start=S:end=E,asetpts=PTS-STARTPTS[a i]]. *)
Definition real_audio (v : video) (p : probe) (i : nat) : node :=
  Node [in_a i] [atrim (start_of v) (end_of v (duration p)); asetpts] [a_ i].

(** The nodes of a graph that are on the audio path. *)
Definition audio_path (g : list node) : list node :=
  List.filter on_audio_path g.

(** The join nodes of a graph. *)
Definition join_nodes (g : list node) : list node :=
  List.filter is_join_node g.

(** The watermark that is drawn, if any. *)
Definition shown_watermark (watermark : option jsstring) : list jsstring :=
  match watermark with
  | Some w => if has_watermark watermark then [w] else []
  | None => []
  end.

(** No filter of the node is of the given kind. *)
Definition free_of (kind : filter -> bool) (x : node) : Prop :=
  Forall (fun f => kind f = false) (chain x).

(** The labels produced for clip [i] by step 1, by the fade loop and by
    the crossfade loop, and those produced by step 2 as a whole. *)
Definition clip_labels (i : nat) : list label := [v_ i; a_ i].

Definition fade_labels (n i : nat) : list label :=
  (if 0 <? i then [vfin i; afin i] else [])
  ++ (if i <? n - 1 then [vfout i; afout i] else []).

Definition xfade_labels (n i : nat) : list label := [out_v n i; out_a n i].

Definition join_labels (o : options) : list label :=
  let n := length (videos o) in
  if is_lit (transition o) "fade" && (1 <? n) then
    flat_map (fade_labels n) (seq 0 n) ++ [outv; outa]
  else if is_lit (transition o) "crossfade" && (1 <? n) then
    flat_map (xfade_labels n) (seq 1 (n - 1))
  else [outv; outa].

(** Labels invented by step 2. *)
Definition is_join_label (l : label) : bool :=
  match l with
  | vfin _ | afin _ | vfout _ | afout _ | xv _ | xa _ | outv | outa => true
  | _ => false
  end.

End Shape.

(** ** More of the JavaScript library *)

Module Lib.
Import JS.

Definition signed_inf (negative : bool) : number :=
  if negative then NInf else PInf.

Definition Qis_zero (q : Q) : bool := Qeq_bool q 0.
Definition Qis_neg (q : Q) : bool := negb (Qle_bool 0 q).

(** [a * b] *)
Definition mul (a b : number) : number :=
  match a, b with
  | NaN, _ => NaN
  | _, NaN => NaN
  | Fin x, Fin y => Fin (x * y)
  | Fin x, PInf => if Qis_zero x then NaN else signed_inf (Qis_neg x)
  | Fin x, NInf => if Qis_zero x then NaN else signed_inf (negb (Qis_neg x))
  | PInf, Fin y => if Qis_zero y then NaN else signed_inf (Qis_neg y)
  | NInf, Fin y => if Qis_zero y then NaN else signed_inf (negb (Qis_neg y))
  | PInf, PInf => PInf
  | PInf, NInf => NInf
  | NInf, PInf => NInf
  | NInf, NInf => PInf
  end.

(** [a / b].  The model has one zero; a zero divisor stands for +0. *)
Definition div (a b : number) : number :=
  match a, b with
  | NaN, _ => NaN
  | _, NaN => NaN
  | Fin x, Fin y =>
      if Qis_zero y then
        (if Qis_zero x then NaN else signed_inf (Qis_neg x))
      else Fin (x / y)
  | Fin _, PInf => zero
  | Fin _, NInf => zero
  | PInf, Fin y => signed_inf (Qis_neg y)
  | NInf, Fin y => signed_inf (negb (Qis_neg y))
  | PInf, PInf => NaN
  | PInf, NInf => NaN
  | NInf, PInf => NaN
  | NInf, NInf => NaN
  end.

(** [Math.round(x)]: the nearest integer, a tie going up. *)
Definition round (x : number) : number :=
  match x with
  | Fin q => Fin (inject_Z (Qfloor (q + (1 # 2))))
  | _ => x
  end.

(** [Math.floor(x)] *)
Definition floor (x : number) : number :=
  match x with
  | Fin q => Fin (inject_Z (Qfloor q))
  | _ => x
  end.

(** *** The Number value of a real number *)

(** [n / d] rounded to the nearest integer, a tie going to the even one,
    for [0 <= n] and [0 < d]. *)
Definition round_half_even (n d : Z) : Z :=
  let q := (n / d)%Z in
  match (2 * (n mod d) ?= d)%Z with
  | Lt => q
  | Gt => (q + 1)%Z
  | Eq => if Z.even q then q else (q + 1)%Z
  end.

(** The integer [l] with [2^l <= n / d < 2^(l+1)], for positive [n] and
    [d]. *)
Definition log2_floor (n d : Z) : Z :=
  let l := (Z.log2 n - Z.log2 d)%Z in
  if (d * 2 ^ Z.max l 0 <=? n * 2 ^ Z.max (- l) 0)%Z then l else (l - 1)%Z.

(** The IEEE 754 double nearest to [n / d], for positive [n] and [d]: a
    significand [m] of at most 53 bits at an exponent [e >= -1074], a tie
    going to the even significand, and +Infinity when the rounded value
    reaches 2^1024. *)
Definition nearest_double (n d : Z) : number :=
  let e := Z.max (log2_floor n d - 52) (-1074) in
  let m := round_half_even (n * 2 ^ Z.max (- e) 0) (d * 2 ^ Z.max e 0) in
  if (2 ^ 1024 <=? m * 2 ^ Z.max e 0)%Z then PInf
  else Fin (Qred (Qmake (m * 2 ^ Z.max e 0) (Z.to_pos (2 ^ Z.max (- e) 0)))).

(** The Number value for a real number, here a rational.  The model has
    one zero. *)
Definition to_double (q : Q) : number :=
  let r := Qred q in
  match Qnum r with
  | Z0 => zero
  | Zpos n => nearest_double (Zpos n) (Zpos (Qden r))
  | Zneg n => neg (nearest_double (Zpos n) (Zpos (Qden r)))
  end.

(** The result of an operation on doubles: the exact result, rounded. *)
Definition double (x : number) : number :=
  match x with
  | Fin q => to_double q
  | _ => x
  end.

(** [s.split(c)] for a separator of one code unit. *)
Fixpoint split_on (c : N) (s : jsstring) : list jsstring :=
  match s with
  | [] => [[]]
  | x :: r =>
      if (x =? c)%N then [] :: split_on c r
      else
        match split_on c r with
        | p :: ps => (x :: p) :: ps
        | [] => [[x]]
        end
  end.

(** *** Number(string) *)

(** The exponent part [e[+-]ddd] at the head of [s], if there is one,
    and what follows it. *)
Definition exponent_part (s : jsstring) : Z * jsstring :=
  match s with
  | c :: r =>
      if ((c =? 101) || (c =? 69))%N then
        let '(eneg, r1) := sign r in
        let '(e, k, r2) := digits 0 0 r1 in
        match k with
        | O => (0%Z, s)
        | S _ => (if eneg then (- e)%Z else e, r2)
        end
      else (0%Z, s)
  | [] => (0%Z, [])
  end.

(** StrUnsignedDecimalLiteral without [Infinity]: the whole of [s] is
    [ddd], [ddd.], [ddd.ddd] or [.ddd], with an optional exponent. *)
Definition decimal_literal (s : jsstring) : option Q :=
  let '(ip, ki, s2) := digits 0 0 s in
  let '(m, kf, s3) :=
    match s2 with
    | 46%N :: r => digits ip 0 r
    | _ => (ip, O, s2)
    end in
  match (ki + kf)%nat with
  | O => None
  | S _ =>
      let '(e, s4) := exponent_part s3 in
      match s4 with
      | [] => Some (inject_Z m * Qpower 10 (e - Z.of_nat kf))%Q
      | _ :: _ => None
      end
  end.

(** The value of a digit in a radix up to 16. *)
Definition digit_value (c : N) : option Z :=
  if is_digit c then Some (Z.of_N (c - 48))
  else if ((97 <=? c) && (c <=? 102))%N then Some (Z.of_N (c - 87))
  else if ((65 <=? c) && (c <=? 70))%N then Some (Z.of_N (c - 55))
  else None.

Fixpoint radix_digits (radix acc : Z) (s : jsstring) : option Z :=
  match s with
  | [] => Some acc
  | c :: r =>
      match digit_value c with
      | Some d =>
          if (d <? radix)%Z then radix_digits radix (radix * acc + d) r
          else None
      | None => None
      end
  end.

(** The radix of a [0x], [0o] or [0b] prefix. *)
Definition radix_of (p : N) : option Z :=
  if ((p =? 120) || (p =? 88))%N then Some 16%Z
  else if ((p =? 111) || (p =? 79))%N then Some 8%Z
  else if ((p =? 98) || (p =? 66))%N then Some 2%Z
  else None.

(** NonDecimalIntegerLiteral: [None] when [s] has no such prefix,
    [Some None] when the prefix is not followed by digits of the radix
    only. *)
Definition non_decimal (s : jsstring) : option (option Z) :=
  match s with
  | 48%N :: p :: r =>
      match radix_of p with
      | Some radix =>
          Some (match r with
                | [] => None
                | _ :: _ => radix_digits radix 0 r
                end)
      | None => None
      end
  | _ => None
  end.

(** [Number(s)] on a string: white space around the literal is dropped,
    the empty string is 0, and anything that is not a numeric literal as
    a whole is NaN.  The value of a literal is rounded to the nearest
    double, as the engines do for any number of digits. *)
Definition Number (s : jsstring) : number :=
  match JS.trim s with
  | [] => zero
  | t =>
      match non_decimal t with
      | Some (Some v) => to_double (inject_Z v)
      | Some None => NaN
      | None =>
          let '(sneg, s1) := sign t in
          if bool_decide (s1 = lit "Infinity") then signed_inf sneg
          else
            match decimal_literal s1 with
            | Some v => to_double (if sneg then (- v)%Q else v)
            | None => NaN
            end
      end
  end.

(** [parseInt(s, 10)]: leading white space, a sign, then the longest run
    of decimal digits; NaN when there is no digit.  The integer is
    rounded to the nearest double. *)
Definition parseInt10 (s : jsstring) : number :=
  let '(sneg, s1) := sign (skip_ws s) in
  let '(v, k, _) := digits 0 0 s1 in
  match k with
  | O => NaN
  | S _ => to_double (inject_Z (if sneg then (- v)%Z else v))
  end.

(** [s.toLowerCase()] on the letters A to Z. *)
Definition toLowerCase (s : jsstring) : jsstring :=
  map (fun c => if ((65 <=? c) && (c <=? 90))%N then (c + 32)%N else c) s.

(** [obj[key]] on an object literal: an own property, a property every
    object inherits from [Object.prototype] (a function or an object,
    never a value of the literal), or undefined. *)
Inductive property (A : Type) :=
| Own (a : A)
| Inherited
| Undefined.
Arguments Own {A} a.
Arguments Inherited {A}.
Arguments Undefined {A}.

Definition Object_prototype : list string :=
  ["constructor"; "hasOwnProperty"; "isPrototypeOf"; "propertyIsEnumerable";
   "toLocaleString"; "toString"; "valueOf"; "__proto__";
   "__defineGetter__"; "__defineSetter__"; "__lookupGetter__";
   "__lookupSetter__"]%string.

Definition get {A : Type} (obj : list (string * A)) (key : jsstring)
    : property A :=
  match List.find (fun kv => is_lit key (fst kv)) obj with
  | Some kv => Own (snd kv)
  | None =>
      if existsb (is_lit key) Object_prototype then Inherited else Undefined
  end.

End Lib.

(** ** The n-clip helper: resolution, bitrates, codecs and progress *)

Module Encoding.
Import JS Lib.

(** [parseResolution]: [resString.split('x').map(Number)], the first two
    pieces, with the defaults 1920 and 1080. *)
Definition parseResolution (resString : jsstring) : number * number :=
  let pieces := map Number (TwoClip.split_x resString) in
  let or_default (o : option number) (d : number) :=
    match o with Some x => or_else x d | None => d end in
  (or_default (pieces !! 0) (Fin 1920), or_default (pieces !! 1) (Fin 1080)).

(** What a bitrate or codec lookup gives: a text, or the function or
    object found on [Object.prototype]. *)
Inductive chosen :=
| Text (s : jsstring)
| FromPrototype.

Definition video_bitrates : list (string * string) :=
  [("low", "1000k"); ("medium", "3000k"); ("high", "6000k")]%string.

Definition audio_bitrates : list (string * string) :=
  [("low", "96k"); ("medium", "128k"); ("high", "192k")]%string.

(** [map[quality] || map.medium] *)
Definition preset (table : list (string * string)) (medium : string)
    (quality : jsstring) : chosen :=
  match get table quality with
  | Own s => Text (lit s)
  | Inherited => FromPrototype
  | Undefined => Text (lit medium)
  end.

(** [getVideoBitrate]: [customBitrate || map[quality] || map.medium];
    [None] is an absent [customBitrate]. *)
Definition getVideoBitrate (quality : jsstring)
    (customBitrate : option jsstring) : chosen :=
  match customBitrate with
  | Some c => if nonempty c then Text c else preset video_bitrates "3000k" quality
  | None => preset video_bitrates "3000k" quality
  end.

(** [getAudioBitrate] *)
Definition getAudioBitrate (quality : jsstring) : chosen :=
  preset audio_bitrates "128k" quality.

Record codec := Codec {
  video : string;
  audio : string
}.

Definition codecs : list (string * codec) :=
  [("mp4", Codec "libx264" "aac"); ("mov", Codec "libx264" "aac");
   ("webm", Codec "libvpx-vp9" "libopus")]%string.

(** [getCodecForFormat]: [codecs[format] || codecs.mp4]; [None] is what
    [Object.prototype] holds under that name, which has no [video] and no
    [audio]. *)
Definition getCodecForFormat (format : jsstring) : option codec :=
  match get codecs format with
  | Own c => Some c
  | Inherited => None
  | Undefined => Some (Codec "libx264" "aac")
  end.

(** [parts[0] * 3600 + parts[1] * 60 + parts[2]] for
    [parts = timemark.split(':').map(Number)], each product and each sum
    rounded to a double. *)
Definition currentSeconds (timemark : jsstring) : number :=
  let parts := map Number (split_on 58 timemark) in
  let part i := toNumber (parts !! i) in
  double (add (double (add (double (mul (part 0) (Fin 3600)))
                           (double (mul (part 1) (Fin 60)))))
              (part 2)).

(** [Math.min(Math.round((currentSeconds / totalDuration) * 100), 99)].
    [totalDuration] is a sum that starts at 0, so that a zero there is
    +0. *)
Definition percent_at (currentSeconds totalDuration : number) : number :=
  min (round (mul (div currentSeconds totalDuration) (Fin 100))) (Fin 99).

(** What the ['progress'] handler passes to [onProgress]; nothing when
    the event has no time mark. *)
Definition on_progress (timemark : option jsstring) (totalDuration : number)
    : option number :=
  match timemark with
  | Some t =>
      if nonempty t then Some (percent_at (currentSeconds t) totalDuration)
      else None
  | None => None
  end.

(** What the ['end'] handler passes to [onProgress]. *)
Definition on_end : number := Fin 100.

End Encoding.

(** ** The routes: upload size limit and file filter *)

Module Routes.
Import JS Lib.

(** [(mb|gb|kb)] under the flag [i]. *)
Definition is_unit (a b : N) : bool :=
  ((a =? 109) || (a =? 77) || (a =? 103) || (a =? 71) || (a =? 107)
   || (a =? 75))%N
  && ((b =? 98) || (b =? 66))%N.

(** [str.match(/^(\d+)(mb|gb|kb)?$/i)]: the groups 1 and 2 of the match.
    Digits and letters do not overlap, so that group 1 is the longest run
    of digits. *)
Definition match_size (str : jsstring) : option (jsstring * option jsstring) :=
  let '(_, k, rest) := digits 0 0 str in
  match k with
  | O => None
  | S _ =>
      match rest with
      | [] => Some (take k str, None)
      | [a; b] => if is_unit a b then Some (take k str, Some [a; b]) else None
      | _ => None
      end
  end.

Definition multipliers : list (string * number) :=
  [("kb", Fin 1024); ("mb", Fin (1024 * 1024));
   ("gb", Fin (1024 * 1024 * 1024))]%string.

(** [parseMaxFileSize]; [None] is an unset [MAX_FILE_SIZE]. *)
Definition parseMaxFileSize (sizeStr : option jsstring) : number :=
  let str :=
    match sizeStr with
    | Some s => if nonempty s then s else lit "500mb"
    | None => lit "500mb"
    end in
  match match_size str with
  | None => Fin (500 * 1024 * 1024)
  | Some (digits_, unit_) =>
      let num := parseInt10 digits_ in
      let unit :=
        toLowerCase (match unit_ with Some u => u | None => lit "mb" end) in
      let multiplier :=
        match get multipliers unit with
        | Own m => or_else m (Fin (1024 * 1024))
        | Inherited => NaN
        | Undefined => Fin (1024 * 1024)
        end in
      double (mul num multiplier)
  end.

(** [fileFilter]: the error it passes to the callback, if any. *)
Definition fileFilter (originalname mimetype : jsstring) : option jsstring :=
  if starts_with (lit "video/") mimetype then None
  else Some (lit "Invalid file type: " ++ originalname
             ++ lit ". Only video files are allowed.").

End Routes.
(** ** What the theorems compare the code with *)

Module Expect.
Import JS.

(** The number a run of decimal digits denotes. *)
Definition decimal_value (ds : jsstring) : Z :=
  foldl (fun a c => (10 * a + Z.of_N (c - 48))%Z) 0%Z ds.

(** [x] is the finite number [q]. *)
Definition is_value (x : number) (q : Q) : Prop :=
  match x with
  | Fin p => (p == q)%Q
  | _ => False
  end.

Definition all_digits (ds : jsstring) : Prop :=
  ds <> [] /\ Forall (fun c => is_digit c = true) ds.

(** The bytes of a unit of [parseMaxFileSize], by its first letter. *)
Definition unit_bytes (a : N) : Z :=
  if ((a =? 107) || (a =? 75))%N then 1024
  else if ((a =? 109) || (a =? 77))%N then 1024 * 1024
  else 1024 * 1024 * 1024.

(** A code unit that [/^(\d+)(mb|gb|kb)?$/i] matches nowhere. *)
Definition stray (c : N) : bool :=
  negb (is_digit c
        || bool_decide (c ∈ [107; 75; 109; 77; 103; 71; 98; 66]%N)).

(** A JSON text as [JSON.stringify] writes an object: not empty, on one
    line, and with no white space at its ends. *)
Definition one_line_json (p : jsstring) : Prop :=
  p <> [] /\ ~ (10%N ∈ p) /\ JS.trim p = p.

(** Filters that cut a clip. *)
Definition is_cut (f : FilterGraph.filter) : bool :=
  match f with
  | FilterGraph.trim _ _ | FilterGraph.atrim _ _ => true
  | _ => false
  end.

(** A number below 100 with two digits. *)
Definition two_digits (n : nat) : jsstring :=
  [48 + N.of_nat (n / 10); 48 + N.of_nat (n mod 10)]%N.

End Expect.

(** ** The wiring of a graph *)

Module Wiring.
Import JS FilterGraph Overlay.

(** All labels the nodes of a graph consume, in order. *)
Definition consumed (g : list node) : list label :=
  flat_map inputs g.

(** Clip [i] of the n-clip helper has an audio stream and the audio
    policy keeps it. *)
Definition keeps_audio (o : NClip.options) (i : nat) : bool :=
  match NClip.probes o !! i with
  | Some p =>
      NClip.hasAudio p
      && negb (is_lit (NClip.audioOption o) "muteAll")
      && negb (is_lit (NClip.audioOption o) "keepFirst" && (0 <? i))
  | None => false
  end.

(** The streams of input file [i] that a graph of the n-clip helper is
    expected to read. *)
Definition streams_read (o : NClip.options) (i : nat) : list label :=
  in_v i :: (if keeps_audio o i then [in_a i] else []).

(** The same for clip [i] of the two-clip helper. *)
Definition streams_read2 (p : TwoClip.probe) (i : nat) : list label :=
  in_v i :: (if TwoClip.hasAudio p then [in_a i] else []).

(** The streams of the two input files that the first two-clip helper
    reads: it does not probe the files. *)
Definition streams_read_legacy (st : Legacy.settings) : list label :=
  [in_v 0; in_v 1]
  ++ (if is_lit (Legacy.audioOption st) "muteAll" then []
      else if is_lit (Legacy.audioOption st) "keepFirst" then [in_a 0]
      else [in_a 0; in_a 1]).

(** The labels a command maps to the output file. *)
Definition mapped (finalVideoLabel : label) (finalAudioLabel : option label)
    : list label :=
  finalVideoLabel
  :: match finalAudioLabel with Some a => [a] | None => [] end.

End Wiring.

(** ** The controller: uploads and jobs *)

Module Controller.
Import JS Lib.

(** What the handlers see of the disk: the paths that exist, each a
    regular file or a directory.  Failures of the file system other than
    those of a missing path and of unlinking a directory are not
    modelled. *)
Inductive entry := regular | directory.

Abbreviation disk := (gmap jsstring entry).

(** [fs.existsSync(p)] *)
Definition existsSync (d : disk) (p : jsstring) : bool :=
  bool_decide (is_Some (d !! p)).

(** [fs.unlinkSync(p)]; [None] when it throws. *)
Definition unlinkSync (d : disk) (p : jsstring) : option disk :=
  match d !! p with
  | Some regular => Some (delete p d)
  | _ => None
  end.

(** A file as multer hands it over. *)
Record file := File {
  originalname : jsstring;
  mimetype : jsstring;
  filename : jsstring;
  path : jsstring
}.

(** An element of [videos] in the body of a merge request: [v.path] when
    it is a string, and the text of [v.originalName || v.id]. *)
Record item := Item {
  item_path : option jsstring;
  item_name : jsstring
}.

Inductive status := processing | completed | failed.

(** A value of the [jobs] map.  An element of [videos] is [None] when it
    is [null]. *)
Record job := Job {
  progress : number;
  job_status : status;
  outputPath : jsstring;
  videos : list (option item);
  error_message : option jsstring
}.

Record state := State {
  jobs : gmap jsstring job;
  files : disk
}.

(** What a handler answers. *)
Inductive response :=
| error (code : nat) (message : jsstring)
| files_info (uploaded : list file)
| merge_started (jobId : jsstring)
| download (path : jsstring)
| cleanup_complete
| uncaught.

Definition ALLOWED_TYPES : list jsstring :=
  map lit
    ["video/mp4"; "video/quicktime"; "video/webm"; "video/x-msvideo";
     "video/x-matroska"; "video/ogg"; "video/mpeg"; "video/3gpp"]%string.

(** *** POST /upload *)

(** [try { fs.unlinkSync(f.path); } catch (_) {}] *)
Definition unlink_quietly (d : disk) (f : file) : disk :=
  match unlinkSync d (path f) with
  | Some d' => d'
  | None => d
  end.

(** [req.files.forEach(f => ...)] over the disk. *)
Definition remove_uploads (uploaded : list file) (d : disk) : disk :=
  foldl unlink_quietly d uploaded.

Definition invalid_type (f : file) : jsstring :=
  lit "Invalid file type: " ++ originalname f
  ++ lit ". Only video files are allowed.".

(** [uploadVideos] up to its answer; [None] is an absent [req.files]. *)
Definition uploadVideos (uploaded : option (list file)) (d : disk)
    : response * disk :=
  match uploaded with
  | None => (error 400 (lit "No video files uploaded."), d)
  | Some [] => (error 400 (lit "No video files uploaded."), d)
  | Some fs =>
      if 2 <? length fs then
        (error 400 (lit "Please upload exactly 2 videos to merge."),
         remove_uploads fs d)
      else
        match
          List.find (fun f => negb (bool_decide (mimetype f ∈ ALLOWED_TYPES)))
                    fs
        with
        | Some f => (error 400 (invalid_type f), remove_uploads fs d)
        | None => (files_info fs, d)
        end
  end.

(** *** POST /merge *)

Section Jobs.

(** [path.join(__dirname, '..', 'outputs')] and [path.join]. *)
Variable outputDir : jsstring.
Variable path_join : jsstring -> jsstring -> jsstring.

Definition output_path (jobId format : jsstring) : jsstring :=
  path_join outputDir (lit "merged_" ++ jobId ++ lit "." ++ format).

(** [fs.existsSync(v.path)]: false when [v.path] is not a string. *)
Definition exists_item (d : disk) (v : item) : bool :=
  match item_path v with
  | Some p => existsSync d p
  | None => false
  end.

(** The loop over [videos] that verifies the files. *)
Inductive verdict :=
| all_exist
| not_found (name : jsstring)
| threw.

Fixpoint verify (d : disk) (vs : list (option item)) : verdict :=
  match vs with
  | [] => all_exist
  | None :: _ => threw
  | Some v :: rest =>
      if exists_item d v then verify d rest else not_found (item_name v)
  end.

(** [startMerge] up to its answer.  [videos] is [None] when the field is
    falsy or not an array; [jobId] is what [uuidv4()] returns. *)
Definition startMerge (videos : option (list (option item)))
    (format jobId : jsstring) (st : state) : response * state :=
  let rejected :=
    (error 400 (lit "Please upload exactly 2 videos to merge."), st) in
  match videos with
  | None => rejected
  | Some vs =>
      if negb (length vs =? 2) then rejected
      else
        match verify (files st) vs with
        | threw => (error 500 (lit "Failed to start merge."), st)
        | not_found name =>
            (error 400 (lit "Video file not found: " ++ name), st)
        | all_exist =>
            let d :=
              if existsSync (files st) outputDir then files st
              else <[outputDir := directory]> (files st) in
            (merge_started jobId,
             State (<[jobId := Job zero processing (output_path jobId format)
                                   vs None]> (jobs st))
                   d)
        end
  end.

(** The three callbacks of the merge that runs in the background. *)
Definition onProgress (jobId : jsstring) (percent : number) (st : state)
    : state :=
  match jobs st !! jobId with
  | Some j =>
      State (<[jobId := Job percent (job_status j) (outputPath j) (videos j)
                            (error_message j)]> (jobs st))
            (files st)
  | None => st
  end.

Definition onResolved (jobId : jsstring) (st : state) : state :=
  match jobs st !! jobId with
  | Some j =>
      State (<[jobId := Job (Fin 100) completed (outputPath j) (videos j)
                            (error_message j)]> (jobs st))
            (files st)
  | None => st
  end.

Definition onRejected (jobId message : jsstring) (st : state) : state :=
  match jobs st !! jobId with
  | Some j =>
      State (<[jobId := Job (progress j) failed (outputPath j) (videos j)
                            (Some message)]> (jobs st))
            (files st)
  | None => st
  end.

(** *** GET /download/:id *)

Definition downloadVideo (id : jsstring) (st : state) : response :=
  match jobs st !! id with
  | None => error 404 (lit "Job not found.")
  | Some j =>
      match job_status j with
      | completed =>
          if existsSync (files st) (outputPath j) then download (outputPath j)
          else error 404 (lit "Output file not found.")
      | _ => error 400 (lit "Merge is not yet complete.")
      end
  end.

(** *** DELETE /cleanup/:id *)

(** [if (p && fs.existsSync(p)) fs.unlinkSync(p)]; [None] when it
    throws. *)
Definition unlink_existing (d : disk) (p : option jsstring) : option disk :=
  match p with
  | Some p =>
      if nonempty p && existsSync d p then unlinkSync d p else Some d
  | None => Some d
  end.

(** [job.videos.forEach(...)]: the disk as the loop leaves it, and
    whether it ran to its end. *)
Fixpoint unlink_videos (d : disk) (vs : list (option item)) : disk * bool :=
  match vs with
  | [] => (d, true)
  | None :: _ => (d, false)
  | Some v :: rest =>
      match unlink_existing d (item_path v) with
      | Some d' => unlink_videos d' rest
      | None => (d, false)
      end
  end.

Definition cleanup (id : jsstring) (st : state) : response * state :=
  match jobs st !! id with
  | None => (error 404 (lit "Job not found."), st)
  | Some j =>
      match unlink_existing (files st) (Some (outputPath j)) with
      | None => (uncaught, st)
      | Some d1 =>
          match unlink_videos d1 (videos j) with
          | (d2, true) => (cleanup_complete, State (delete id (jobs st)) d2)
          | (d2, false) => (uncaught, State (jobs st) d2)
          end
      end
  end.

(** *** The requests and callbacks that change the state *)

Inductive event :=
| merge_request (videos : option (list (option item))) (format jobId : jsstring)
| progress_event (jobId : jsstring) (percent : number)
| resolved (jobId : jsstring)
| rejected (jobId message : jsstring)
| cleanup_request (id : jsstring)
| disk_change (d : disk).

(** [disk_change] stands for what others write and delete: multer, FFmpeg
    and the hourly clean-up. *)
Definition step (st : state) (e : event) : state :=
  match e with
  | merge_request videos format jobId => snd (startMerge videos format jobId st)
  | progress_event jobId percent => onProgress jobId percent st
  | resolved jobId => onResolved jobId st
  | rejected jobId message => onRejected jobId message st
  | cleanup_request id => snd (cleanup id st)
  | disk_change d => State (jobs st) d
  end.

Definition run (st : state) (events : list event) : state :=
  foldl step st events.

End Jobs.

End Controller.

(** ** The merge endpoint that streams its progress *)

Module Sse.
Import JS Lib.

(** [res.write(`data: ${JSON.stringify(obj)}\n\n`)], for the text [json]
    of the object. *)
Definition send (json : jsstring) : jsstring :=
  lit "data: " ++ json ++ [10; 10]%N.

(** What the two-clip helpers pass to [onProgress] for a ['progress']
    event of FFmpeg: [if (onProgress && progress.percent)
    onProgress(Math.round(progress.percent))]; [None] is an event without
    [percent]. *)
Definition forwarded (percent : option number) : option number :=
  match percent with
  | Some p => if truthy p then Some (round p) else None
  | None => None
  end.

(** [5 + Math.round(percent * 0.9)] *)
Definition mapped (percent : number) : number :=
  add (Fin 5) (round (mul percent (Fin (9 # 10)))).

(** A number as [JSON.stringify] and [JSON.parse] carry it: NaN and the
    infinities arrive as [null]. *)
Definition through_json (x : number) : option number :=
  match x with
  | Fin q => Some (Fin q)
  | _ => None
  end.

(** The settings [startMerge] hands to the helper: the fields of the
    body, with the default of [resolution], and the trims of the two
    videos. *)
Definition settings (resolution watermark : option jsstring)
    (trimStart0 trimEnd0 trimStart1 trimEnd1 : jsval) : TwoClip.settings :=
  TwoClip.Settings
    (Some (match resolution with Some r => r | None => lit "1920x1080" end))
    watermark trimStart0 trimEnd0 trimStart1 trimEnd1.

End Sse.

(** ** backend/utils/ffmpegHelper.js: the options of the command *)

Module LegacyCommand.
Import JS Lib.

(** One constructor per option template of the source. *)
Inductive option_ :=
| ss (trimStart : jsval)
| to (trimEnd : jsval)
| b_v (customBitrate : jsval)
| crf (n : string)
| c_v (codec : string)
| c_a (codec : string)
| preset_fast
| movflags_faststart.

(** ToBoolean *)
Definition truthy_val (v : jsval) : bool :=
  match v with
  | JUndefined | JNull => false
  | JStr s => nonempty s
  | JNum x => truthy x
  end.

(** [v !== '0'] *)
Definition not_zero_text (v : jsval) : bool :=
  match v with
  | JStr s => negb (is_lit s "0")
  | _ => true
  end.

(** The input options of one file: [-ss] and [-to]. *)
Definition input_options (trimStart trimEnd : jsval) : list option_ :=
  (if truthy_val trimStart && not_zero_text trimStart then [ss trimStart]
   else [])
  ++ (if truthy_val trimEnd then [to trimEnd] else []).

(** [-b:v] or [-crf]. *)
Definition quality_options (quality : jsstring) (customBitrate : jsval)
    : list option_ :=
  if is_lit quality "custom" && truthy_val customBitrate
  then [b_v customBitrate]
  else [crf (if is_lit quality "high" then "18"
             else if is_lit quality "low" then "28" else "23")].

(** The codecs of the format. *)
Definition codec_options (format : jsstring) : list option_ :=
  if is_lit format "webm" then [c_v "libvpx-vp9"; c_a "libopus"]
  else [c_v "libx264"; c_a "aac"; preset_fast; movflags_faststart].

End LegacyCommand.

(** ** The front end *)

Module Frontend.
Import JS Lib.

(** *** The drop zone *)

(** The two slots: whether each holds a clip. *)
Definition slots := (bool * bool)%type.

Definition filled (s : slots) (slotIndex : nat) : bool :=
  match slotIndex with
  | 0 => fst s
  | 1 => snd s
  | _ => false
  end.

(** [while (slotIndex < 2 && slots[slotIndex] !== null) slotIndex++]: the
    loop runs at most twice. *)
Fixpoint next_empty (fuel : nat) (s : slots) (slotIndex : nat) : nat :=
  match fuel with
  | O => slotIndex
  | S fuel' =>
      if (slotIndex <? 2) && filled s slotIndex
      then next_empty fuel' s (S slotIndex)
      else slotIndex
  end.

(** The body of [for (const file of videoFiles)]: the slot the file is
    uploaded to, and [slotIndex] after it.  [uploadSingleFile] writes the
    slot after the upload has come back, so that the loop sees the slots
    as they were at the drop. *)
Definition place (s : slots) (slotIndex : nat) : nat * nat :=
  let i := next_empty 2 s slotIndex in
  let i := if 2 <=? i then 0 else i in
  (i, S i).

Fixpoint place_all {A : Type} (s : slots) (slotIndex : nat)
    (videoFiles : list A) : list (A * nat) :=
  match videoFiles with
  | [] => []
  | file :: rest =>
      let '(i, next) := place s slotIndex in
      (file, i) :: place_all s next rest
  end.

Inductive dropped (A : Type) :=
| toast (message : jsstring)
| uploads (to : list (A * nat)).
Arguments toast {A} message.
Arguments uploads {A} to.

(** [handleDroppedFiles]; a file is given with its MIME type. *)
Definition handleDroppedFiles {A : Type} (type : A -> jsstring) (s : slots)
    (fileList : list A) : dropped A :=
  let videoFiles :=
    List.filter (fun f => starts_with (lit "video/") (type f)) fileList in
  match videoFiles with
  | [] => toast (lit "No video files detected.")
  | _ =>
      if 2 <? length videoFiles
      then toast (lit "Please drop exactly 2 video files.")
      else uploads (place_all s 0 videoFiles)
  end.

(** *** The merge request *)

(** The fields of the form that [startMerge] reads. *)
Record form := Form {
  trimStart0 : jsstring;
  trimEnd0 : jsstring;
  trimStart1 : jsstring;
  trimEnd1 : jsstring;
  quality : jsstring;
  customBitrateInput : jsstring;
  watermarkInput : jsstring
}.

(** [x || y] on strings. *)
Definition or_text (x y : jsstring) : jsstring :=
  if nonempty x then x else y.

(** The fields of the payload computed from the form. *)
Record payload := Payload {
  trimStart : nat -> jsstring;
  trimEnd : nat -> jsstring;
  customBitrate : option jsstring;
  watermark : option jsstring
}.

Definition payload_of (f : form) : payload :=
  {| trimStart i :=
       or_text (JS.trim (if i =? 0 then trimStart0 f else trimStart1 f))
               (lit "0");
     trimEnd i :=
       or_text (JS.trim (if i =? 0 then trimEnd0 f else trimEnd1 f)) [];
     customBitrate :=
       if is_lit (quality f) "custom"
       then Some (JS.trim (customBitrateInput f))
       else None;
     watermark :=
       let w := JS.trim (watermarkInput f) in
       if nonempty w then Some w else None |}.

(** *** Reading the stream *)

(** The text of a frame, if the line is one:
    [line.startsWith('data: ')], [line.slice(6).trim()], not empty. *)
Definition frame_text (line : jsstring) : option jsstring :=
  if starts_with (lit "data: ") line then
    let jsonStr := JS.trim (drop 6 line) in
    if nonempty jsonStr then Some jsonStr else None
  else None.

(** [buffer += chunk; lines = buffer.split('\n'); buffer = lines.pop()]:
    the frames of the complete lines, and the new buffer.  A chunk is
    given as the text the decoder makes of it. *)
Definition read_chunk (buffer chunk : jsstring) : list jsstring * jsstring :=
  let lines := split_on 10 (buffer ++ chunk) in
  (omap frame_text (removelast lines), List.last lines []).

Section Reader.

(** Whether the handler returns after a frame: it does when the parsed
    object holds an error, or [done] and a download URL. *)
Variable stops : jsstring -> bool.

(** [for (const line of lines)]: the frames handled and whether the
    handler returned. *)
Fixpoint handle (frames : list jsstring) : list jsstring * bool :=
  match frames with
  | [] => ([], false)
  | f :: rest =>
      if stops f then ([f], true)
      else let '(handled, returned) := handle rest in (f :: handled, returned)
  end.

(** [while (true)] over the chunks the reader yields. *)
Fixpoint read_stream (buffer : jsstring) (chunks : list jsstring)
    : list jsstring * bool :=
  match chunks with
  | [] => ([], false)
  | chunk :: rest =>
      let '(frames, buffer') := read_chunk buffer chunk in
      let '(handled, returned) := handle frames in
      if returned then (handled, true)
      else
        let '(handled', returned') := read_stream buffer' rest in
        (handled ++ handled', returned')
  end.

End Reader.

(** The percentage shown for a frame:
    [(data.percent != null && !isNaN(data.percent))
       ? Math.round(data.percent) : 0]; [None] is [null] or no field. *)
Definition shown (percent : option number) : number :=
  match percent with
  | Some p => if isNaN p then zero else round p
  | None => zero
  end.

(** *** [formatTime] *)

(** [a % b] for a finite, positive [b]: the remainder has the sign of
    [a]. *)
Definition rem (a : number) (b : Q) : number :=
  match a with
  | Fin q => Fin (q - b * inject_Z (Z.quot (Qnum (q / b)) (Zpos (Qden (q / b)))))
  | _ => NaN
  end.

(** [String(x)] for a whole number below 10^21 in size, NaN and the
    infinities; [None] for the numbers that are written with an exponent
    or a fraction, which are not modelled. *)
Definition String_whole (x : number) : option jsstring :=
  match x with
  | NaN => Some (lit "NaN")
  | PInf => Some (lit "Infinity")
  | NInf => Some (lit "-Infinity")
  | Fin q =>
      let z := Qfloor q in
      if Qeq_bool q (inject_Z z) && (Z.abs z <? 10 ^ 21)%Z then
        Some ((if (z <? 0)%Z then lit "-" else [])
              ++ FilterGraph.show_nat (Z.abs_nat z))
      else None
  end.

(** [s.padStart(2, '0')] *)
Definition padStart2 (s : jsstring) : jsstring :=
  replicate (2 - length s) 48%N ++ s.

(** [formatTime(seconds)] *)
Definition formatTime (seconds : number) : option jsstring :=
  let m := floor (div seconds (Fin 60)) in
  let s := floor (rem seconds 60) in
  match String_whole m, String_whole s with
  | Some mm, Some ss => Some (padStart2 mm ++ lit ":" ++ padStart2 ss)
  | _, _ => None
  end.

End Frontend.

(** ** The streaming controller: [startMerge] and [mergeVideosRest] *)

Module Streaming.
Import JS Lib Controller.

(** The objects [startMerge] hands to [send]: [{ percent, status }],
    [{ percent: 0, error }] and
    [{ percent: 100, done: true, downloadUrl, jobId }]. *)
Inductive frame :=
| status_frame (percent : number) (status : jsstring)
| error_frame (message : jsstring)
| done_frame (downloadUrl jobId : jsstring).

(** A value of the [jobs] map of this controller; [status] is always
    ['completed']. *)
Record job := Job {
  downloadUrl : jsstring;
  outputPath : jsstring;
  videos : list (option item)
}.

(** How the promise of the helper settles; [message] is [err.message]
    when it is a string. *)
Inductive outcome :=
| resolves
| rejects (message : option jsstring).

(** [err.message || 'Merge failed.'] *)
Definition message_or (message : option jsstring) : jsstring :=
  match message with
  | Some m => if nonempty m then m else lit "Merge failed."
  | None => lit "Merge failed."
  end.

(** Whether the handler of the front end returns after a frame:
    [if (data.error)] and [if (data.done && data.downloadUrl)]. *)
Definition returns (f : frame) : bool :=
  match f with
  | status_frame _ _ => false
  | error_frame message => nonempty message
  | done_frame url _ => nonempty url
  end.

(** The call of [send] in the callback handed to the helper, for each
    ['progress'] event of FFmpeg that the helper forwards. *)
Definition progress_frames (events : list (option number)) : list frame :=
  omap (fun e =>
          match Sse.forwarded e with
          | Some p => Some (status_frame (Sse.mapped p) (lit "Merging videos..."))
          | None => None
          end)
       events.

Section Handlers.

(** [outputsDir], [path.join] and the message of the [TypeError] of a
    property read on [null] or [undefined]. *)
Variable outputsDir : jsstring.
Variable path_join : jsstring -> jsstring -> jsstring.
Variable type_error : jsstring.

Definition outputFilename (jobId format : jsstring) : jsstring :=
  lit "merged-" ++ jobId ++ lit "." ++ format.

(** [startMerge]: the frames written before [res.end()] and the jobs
    afterwards.  [videos] is [None] when the field is falsy or not an
    array, [jobId] is what [uuidv4()] returns, [events] are the
    percentages of the ['progress'] events of FFmpeg and [result] is how
    the helper settles. *)
Definition startMerge (videos : option (list (option item)))
    (format jobId : jsstring) (events : list (option number))
    (result : outcome) (jobs : gmap jsstring job) (d : disk)
    : list frame * gmap jsstring job :=
  match videos with
  | None =>
      ([error_frame (lit "Please upload exactly 2 videos to merge.")], jobs)
  | Some vs =>
      if negb (length vs =? 2) then
        ([error_frame (lit "Please upload exactly 2 videos to merge.")], jobs)
      else
        match verify d vs with
        | threw => ([error_frame (message_or (Some type_error))], jobs)
        | not_found name =>
            ([error_frame (lit "Video file not found: " ++ name)], jobs)
        | all_exist =>
            let started :=
              status_frame (Fin 5) (lit "Starting merge...")
              :: progress_frames events in
            match result with
            | rejects message =>
                (started ++ [error_frame (message_or message)], jobs)
            | resolves =>
                let url := lit "/outputs/" ++ outputFilename jobId format in
                (started ++ [done_frame url jobId],
                 <[jobId := Job url
                              (path_join outputsDir
                                         (outputFilename jobId format))
                              vs]> jobs)
            end
        end
  end.

(** *** POST /merge-videos *)

Inductive answer :=
| status (code : nat) (message : jsstring)
| attachment (filename : jsstring)
| broken.

(** What happens after the checks: the helper rejects, or it resolves and
    the stream of the output file ends or fails, with the headers sent or
    not. *)
Inductive course :=
| merge_rejected (message : option jsstring)
| stream_ended
| stream_failed (headersSent : bool).

(** [try { if (fs.existsSync(f)) fs.unlinkSync(f); } catch (_) {}] *)
Definition unlink_temp (d : disk) (f : jsstring) : disk :=
  if existsSync d f then
    match unlinkSync d f with
    | Some d' => d'
    | None => d
    end
  else d.

(** [tempFiles.forEach(...)] *)
Definition remove_temp (tempFiles : list jsstring) (d : disk) : disk :=
  foldl unlink_temp d tempFiles.

(** [mergeVideosRest]: the answer and the disk afterwards.  [video1] and
    [video2] are the arrays of [req.files], [d] is the disk at the
    request and [merged] the disk when the handlers after the merge
    run. *)
Definition mergeVideosRest (video1 video2 : option (list file))
    (jobId : jsstring) (what : course) (d merged : disk) : answer * disk :=
  match video1, video2 with
  | Some fs1, Some fs2 =>
      match fs1, fs2 with
      | f1 :: _, f2 :: _ =>
          match
            List.find
              (fun f => negb (bool_decide (mimetype f ∈ ALLOWED_TYPES)))
              [f1; f2]
          with
          | Some f => (status 400 (invalid_type f), d)
          | None =>
              let name := outputFilename jobId (lit "mp4") in
              let tempFiles :=
                [path f1; path f2; path_join outputsDir name] in
              match what with
              | merge_rejected message =>
                  (status 500 (message_or message),
                   remove_temp tempFiles merged)
              | stream_ended => (attachment name, remove_temp tempFiles merged)
              | stream_failed false =>
                  (status 500 (lit "Failed to send merged file."), merged)
              | stream_failed true => (broken, merged)
              end
          end
      | _, _ => (status 500 (message_or (Some type_error)), d)
      end
  | _, _ =>
      (status 400
              (lit "Both " ++ [34%N] ++ lit "video1" ++ [34%N] ++ lit " and "
               ++ [34%N] ++ lit "video2" ++ [34%N]
               ++ lit " fields are required."),
       d)
  end.

End Handlers.

(** Whether the request reaches the merge. *)
Definition reaches_merge (video1 video2 : option (list file)) : bool :=
  match video1, video2 with
  | Some (f1 :: _), Some (f2 :: _) =>
      bool_decide (mimetype f1 ∈ ALLOWED_TYPES)
      && bool_decide (mimetype f2 ∈ ALLOWED_TYPES)
  | _, _ => false
  end.

End Streaming.

(** ** Lemmas on the loops *)

Module Loops.
Import JS FilterGraph Overlay NClip Shape.

Lemma drop_cons_inv {A} (l : list A) i x rest :
  drop i l = x :: rest -> l !! i = Some x /\ drop (S i) l = rest.
Proof.
  intros H. split.
  - rewrite <- (Nat.add_0_r i), <- lookup_drop, H. reflexivity.
  - replace (S i) with (i + 1) by lia.
    rewrite <- drop_drop, H. reflexivity.
Qed.

Lemma clip_filters_eq o i v p :
  videos o !! i = Some v -> probes o !! i = Some p ->
  clip_filters o i =
    [Node [in_v i]
          [trim (start_of v) (end_of v (duration p)); setpts;
           scale (JNum (width o)) (JNum (height o));
           pad (JNum (width o)) (JNum (height o)) (Some "black"%string);
           setsar]
          [v_ i];
     audioFilter o p (start_of v) (end_of v (duration p)) i].
Proof. intros Hv Hp. unfold clip_filters. rewrite Hv, Hp. reflexivity. Qed.

(** The first loop, started at index [i] on the rest of [videos]. *)
Lemma step1_from o rest : forall i s,
  drop i (videos o) = rest ->
  length (videos o) <= length (probes o) ->
  forEach_throw_from (step1 o) i rest s =
    Ok (State (filters s ++ flat_map (clip_filters o) (seq i (length rest)))
              (videoLabels s ++ map v_ (seq i (length rest)))
              (audioLabels s ++ map a_ (seq i (length rest)))).
Proof.
  induction rest as [|v rest IH]; intros i s Hdrop Hlen; simpl.
  - rewrite !app_nil_r. destruct s; reflexivity.
  - destruct (drop_cons_inv _ _ _ _ Hdrop) as [Hv Hrest].
    assert (Hi : i < length (probes o)).
    { apply lookup_lt_Some in Hv. lia. }
    destruct (lookup_lt_is_Some_2 _ _ Hi) as [p Hp].
    unfold step1 at 1. rewrite Hp.
    rewrite (IH (S i) _ Hrest Hlen). simpl.
    rewrite (clip_filters_eq o i v p Hv Hp).
    rewrite <- !app_assoc. reflexivity.
Qed.

Lemma step1_ok o :
  length (videos o) <= length (probes o) ->
  forEach_throw (step1 o) (videos o) (State [] [] []) = Ok (step1_state o).
Proof.
  intros Hlen. unfold forEach_throw.
  rewrite (step1_from o (videos o) 0 _ eq_refl Hlen). reflexivity.
Qed.

(** The first loop throws when a clip has no probe. *)
Lemma step1_throws_from o rest : forall i s,
  drop i (videos o) = rest ->
  i <= length (probes o) -> length (probes o) < length (videos o) ->
  forEach_throw_from (step1 o) i rest s = TypeError.
Proof.
  induction rest as [|v rest IH]; intros i s Hdrop Hi Hlen.
  - apply (f_equal length) in Hdrop. rewrite length_drop in Hdrop.
    simpl in Hdrop. lia.
  - destruct (drop_cons_inv _ _ _ _ Hdrop) as [Hv Hrest]. simpl.
    unfold step1 at 1.
    destruct (probes o !! i) as [p|] eqn:Hp; [|reflexivity].
    apply lookup_lt_Some in Hp.
    apply IH; [exact Hrest | lia | exact Hlen].
Qed.

Lemma step1_throws o :
  length (probes o) < length (videos o) ->
  forEach_throw (step1 o) (videos o) (State [] [] []) = TypeError.
Proof.
  intros Hlen. apply step1_throws_from; [reflexivity | lia | exact Hlen].
Qed.

Lemma fade_step_eq o n s v i :
  fade_step o n s v i =
    FadeState (fade_filters s ++ clip_fades o n i)
              (fadedVideoLabels s ++ [faded_v n i])
              (fadedAudioLabels s ++ [faded_a n i]).
Proof.
  unfold fade_step, clip_fades, faded_v, faded_a, fin_v, fin_a.
  destruct (0 <? i); destruct (i <? n - 1); reflexivity.
Qed.

Lemma fade_from o n (rest : list video) : forall i s,
  forEach_from (fade_step o n) i rest s =
    FadeState (fade_filters s ++ flat_map (clip_fades o n) (seq i (length rest)))
              (fadedVideoLabels s ++ map (faded_v n) (seq i (length rest)))
              (fadedAudioLabels s ++ map (faded_a n) (seq i (length rest))).
Proof.
  induction rest as [|v rest IH]; intros i s; simpl.
  - rewrite !app_nil_r. destruct s; reflexivity.
  - rewrite IH, fade_step_eq. simpl. rewrite <- !app_assoc. reflexivity.
Qed.

Lemma fade_loop_eq o n fs :
  fade_loop o n fs =
    let len := length (videos o) in
    FadeState (fs ++ flat_map (clip_fades o n) (seq 0 len))
              (map (faded_v n) (seq 0 len))
              (map (faded_a n) (seq 0 len)).
Proof. unfold fade_loop, forEach. rewrite fade_from. reflexivity. Qed.

(** The labels the crossfade loop holds after the step of clip [k]. *)
Lemma xfade_prefix o n fs : forall k,
  k <= n - 1 ->
  foldl (xfade_step o n) (xfade_init o fs) (seq 1 k) =
    XfadeState (fs ++ flat_map (clip_xfade o n) (seq 1 k))
               (if k =? 0 then v_ 0 else out_v n k)
               (if k =? 0 then a_ 0 else out_a n k)
               (cum_at o k).
Proof.
  induction k as [|k IH]; intros Hk.
  - simpl. rewrite app_nil_r. reflexivity.
  - rewrite seq_S, foldl_app, IH by lia.
    change (1 + k) with (S k). cbn [foldl].
    rewrite flat_map_app. cbn [flat_map]. rewrite app_nil_r.
    unfold xfade_step.
    cbn [xfade_filters currentVideoLabel currentAudioLabel cumulativeOffset
         cum_at].
    unfold clip_xfade, offset_at, cur_v, cur_a, out_v, out_a.
    replace (S k - 1) with k by lia.
    assert (Hne : (k =? n - 1) = false) by (apply Nat.eqb_neq; lia).
    rewrite Hne. rewrite <- !app_assoc.
    destruct (k =? 0); reflexivity.
Qed.

Lemma xfade_loop_eq o n fs :
  1 < n ->
  xfade_loop o n fs =
    XfadeState (fs ++ flat_map (clip_xfade o n) (seq 1 (n - 1)))
               outv outa (cum_at o (n - 1)).
Proof.
  intros Hn. unfold xfade_loop, for_range.
  rewrite xfade_prefix by lia. unfold out_v, out_a.
  rewrite Nat.eqb_refl.
  destruct (n - 1 =? 0) eqn:E; [apply Nat.eqb_eq in E; lia | reflexivity].
Qed.

Lemma step2_eq o :
  step2 o (step1_state o) = step1_filters o ++ join_filters o.
Proof.
  unfold step2, join_filters.
  destruct (is_lit (transition o) "fade" && (1 <? length (videos o))) eqn:Hf.
  - rewrite fade_loop_eq. simpl. rewrite <- app_assoc. reflexivity.
  - destruct (is_lit (transition o) "crossfade" && (1 <? length (videos o)))
      eqn:Hx.
    + apply andb_true_iff in Hx as [_ Hn]. apply Nat.ltb_lt in Hn.
      rewrite xfade_loop_eq by exact Hn. reflexivity.
    + reflexivity.
Qed.

Lemma step3_eq o fs :
  step3 o fs =
    (fs ++ overlay_nodes (watermark o) watermarked,
     if has_watermark (watermark o) then watermarked else outv).
Proof.
  unfold step3, overlay_nodes.
  destruct (watermark o) as [w|].
  - destruct (has_watermark (Some w)); [reflexivity|].
    rewrite app_nil_r. reflexivity.
  - simpl. rewrite app_nil_r. reflexivity.
Qed.

(** [buildFilterGraph] returns the plan of the closed forms, and throws
    exactly when a clip has no probe. *)
Lemma buildFilterGraph_ok o :
  length (videos o) <= length (probes o) ->
  buildFilterGraph o = Ok (the_plan o).
Proof.
  intros Hlen. unfold buildFilterGraph. rewrite (step1_ok o Hlen).
  rewrite step3_eq, step2_eq. unfold the_plan, all_filters.
  rewrite <- app_assoc. reflexivity.
Qed.

Lemma buildFilterGraph_throws o :
  length (probes o) < length (videos o) ->
  buildFilterGraph o = TypeError.
Proof.
  intros Hlen. unfold buildFilterGraph. rewrite (step1_throws o Hlen).
  reflexivity.
Qed.

(** A property of all nodes pushed by steps 1 and 2. *)
Lemma Forall_flat_map_seq {A} (P : A -> Prop) (f : nat -> list A) a k :
  (forall i, Forall P (f i)) -> Forall P (flat_map f (seq a k)).
Proof.
  intros H. revert a. induction k as [|k IH]; intros a; simpl.
  - constructor.
  - apply Forall_app. split; [apply H | apply IH].
Qed.

Lemma Forall_joined (P : node -> Prop) o :
  let n := length (videos o) in
  (forall i, Forall P (clip_filters o i)) ->
  (forall i, Forall P (clip_fades o n i)) ->
  (forall i, Forall P (clip_xfade o n i)) ->
  (forall vs as_, P (concat_node n vs as_)) ->
  Forall P (step1_filters o ++ join_filters o).
Proof.
  intros n H1 Hf Hx Hc. apply Forall_app. split.
  - apply Forall_flat_map_seq. exact H1.
  - unfold join_filters.
    destruct (is_lit (transition o) "fade" && (1 <? length (videos o))).
    + apply Forall_app. split; [apply Forall_flat_map_seq, Hf|].
      constructor; [apply Hc | constructor].
    + destruct (is_lit (transition o) "crossfade" && (1 <? length (videos o))).
      * apply Forall_flat_map_seq, Hx.
      * constructor; [apply Hc | constructor].
Qed.

(** Steps 1 and 2 push no filter of a kind that none of their templates
    has. *)
Lemma joined_free_of (kind : filter -> bool) o :
  (forall s e, kind (trim s e) = false) -> kind setpts = false ->
  (forall w h, kind (scale w h) = false) ->
  (forall w h c, kind (pad w h c) = false) -> kind setsar = false ->
  (forall s e, kind (atrim s e) = false) -> kind asetpts = false ->
  (forall d, kind (aevalsrc d) = false) ->
  (forall t st d, kind (fade t st d) = false) ->
  (forall t st d, kind (afade t st d) = false) ->
  (forall d off, kind (xfade d off) = false) ->
  (forall d, kind (acrossfade d) = false) ->
  (forall n v a, kind (concat n v a) = false) ->
  Forall (free_of kind) (step1_filters o ++ join_filters o).
Proof.
  intros Htrim Hsetpts Hscale Hpad Hsetsar Hatrim Hasetpts Haev Hfade Hafade
         Hxfade Hacross Hconcat.
  apply Forall_joined.
  - intros i. unfold clip_filters.
    destruct (videos o !! i) as [v|]; [|constructor].
    destruct (probes o !! i) as [p|]; [|constructor].
    unfold audioFilter, silence, free_of.
    destruct (hasAudio p); [destruct (is_lit (audioOption o) "muteAll");
      [|destruct (is_lit (audioOption o) "keepFirst" && (0 <? i))]|];
      repeat constructor; auto.
  - intros i. unfold clip_fades, fade_in_nodes, fade_out_nodes, free_of.
    destruct (0 <? i); destruct (i <? length (videos o) - 1);
      repeat constructor; auto.
  - intros i. unfold clip_xfade, free_of. repeat constructor; auto.
  - intros vs as_. unfold concat_node, free_of. repeat constructor; auto.
Qed.

Lemma clip_filters_free (kind : filter -> bool) o i :
  (forall s e, kind (trim s e) = false) -> kind setpts = false ->
  (forall w h, kind (scale w h) = false) ->
  (forall w h c, kind (pad w h c) = false) -> kind setsar = false ->
  (forall s e, kind (atrim s e) = false) -> kind asetpts = false ->
  (forall d, kind (aevalsrc d) = false) ->
  Forall (free_of kind) (clip_filters o i).
Proof.
  intros Htrim Hsetpts Hscale Hpad Hsetsar Hatrim Hasetpts Haev.
  unfold clip_filters.
  destruct (videos o !! i) as [v|]; [|constructor].
  destruct (probes o !! i) as [p|]; [|constructor].
  unfold audioFilter, silence, free_of.
  destruct (hasAudio p); [destruct (is_lit (audioOption o) "muteAll");
    [|destruct (is_lit (audioOption o) "keepFirst" && (0 <? i))]|];
    repeat constructor; auto.
Qed.

Lemma clip_filters_length o i :
  length (videos o) <= length (probes o) -> i < length (videos o) ->
  length (clip_filters o i) = 2.
Proof.
  intros Hlen Hi. unfold clip_filters.
  destruct (lookup_lt_is_Some_2 (videos o) i Hi) as [v Hv].
  assert (Hi' : i < length (probes o)) by lia.
  destruct (lookup_lt_is_Some_2 (probes o) i Hi') as [p Hp].
  rewrite Hv, Hp. reflexivity.
Qed.

(** Reading a list made of pairs. *)
Lemma lookup_flat_map_pairs {A} (f : nat -> list A) : forall k a i r,
  (forall j, a <= j < a + k -> length (f j) = 2) ->
  i < k -> r < 2 ->
  flat_map f (seq a k) !! (2 * i + r) = f (a + i) !! r.
Proof.
  induction k as [|k IH]; intros a i r Hf Hi Hr; [lia|].
  cbn [seq flat_map]. destruct i as [|i].
  - rewrite Nat.add_0_r. apply lookup_app_l. rewrite Hf; lia.
  - rewrite lookup_app_r by (rewrite Hf; lia).
    rewrite Hf by lia.
    replace (2 * S i + r - 2) with (2 * i + r) by lia.
    rewrite IH; [f_equal; f_equal; lia | intros; apply Hf; lia | lia | lia].
Qed.

Lemma step1_filters_length o :
  length (videos o) <= length (probes o) ->
  length (step1_filters o) = 2 * length (videos o).
Proof.
  intros Hlen. unfold step1_filters.
  assert (H : forall k a, a + k <= length (videos o) ->
            length (flat_map (clip_filters o) (seq a k)) = 2 * k).
  { induction k as [|k IH]; intros a Ha; [reflexivity|].
    cbn [seq flat_map]. rewrite length_app, IH by lia.
    rewrite clip_filters_length by lia. lia. }
  apply H. lia.
Qed.

(** The audio filter of clip [i] sits right after its video filter. *)
Lemma lookup_audio o i v p :
  length (videos o) <= length (probes o) ->
  videos o !! i = Some v -> probes o !! i = Some p ->
  all_filters o !! (2 * i + 1) =
    Some (audioFilter o p (start_of v) (end_of v (duration p)) i).
Proof.
  intros Hlen Hv Hp. pose proof (lookup_lt_Some _ _ _ Hv) as Hi.
  unfold all_filters. rewrite lookup_app_l
    by (rewrite step1_filters_length by exact Hlen; lia).
  unfold step1_filters. rewrite lookup_flat_map_pairs; try lia.
  - cbn [Nat.add]. rewrite (clip_filters_eq o i v p Hv Hp). reflexivity.
  - intros j Hj. apply clip_filters_length; [exact Hlen | lia].
Qed.

End Loops.

(** ** The overlay stage *)

Module OverlayFacts.
Import JS FilterGraph Overlay NClip Shape.

Lemma skip_ws_blank (w : jsstring) :
  Forall (fun c => is_ws c = true) w -> skip_ws w = [].
Proof.
  induction 1 as [|c w Hc _ IH]; simpl; [reflexivity|].
  rewrite Hc. exact IH.
Qed.

Lemma has_watermark_blank (w : jsstring) :
  Forall (fun c => is_ws c = true) w -> has_watermark (Some w) = false.
Proof.
  intros H. unfold has_watermark, JS.trim.
  rewrite (skip_ws_blank w H). simpl. apply andb_false_r.
Qed.

Lemma overlay_nodes_blank (w : jsstring) to :
  Forall (fun c => is_ws c = true) w -> overlay_nodes (Some w) to = [].
Proof.
  intros H. unfold overlay_nodes. rewrite (has_watermark_blank w H).
  reflexivity.
Qed.

(** The watermark is read by step 3 only. *)
Lemma buildFilterGraph_watermark o :
  buildFilterGraph o =
    match buildFilterGraph (with_watermark o None) with
    | Ok p0 =>
        Ok (Plan (filterGraph p0 ++ overlay_nodes (watermark o) watermarked)
                 (if has_watermark (watermark o) then watermarked
                  else finalVideoLabel p0)
                 (finalAudioLabel p0))
    | TypeError => TypeError
    end.
Proof.
  unfold buildFilterGraph.
  change (forEach_throw (step1 (with_watermark o None))
            (videos (with_watermark o None)) (State [] [] []))
    with (forEach_throw (step1 o) (videos o) (State [] [] [])).
  destruct (forEach_throw (step1 o) (videos o) (State [] [] [])) as [s|];
    [|reflexivity].
  change (step2 (with_watermark o None) s) with (step2 o s).
  rewrite !Loops.step3_eq. cbn. rewrite app_nil_r. reflexivity.
Qed.

End OverlayFacts.

(** ** Escaping *)

Module Escaping.
Import JS FilterGraph Overlay Spec.

Lemma replace_all_app c b (x y : jsstring) :
  replace_all c b (x ++ y) = replace_all c b x ++ replace_all c b y.
Proof.
  induction x as [|a x IH]; simpl; [reflexivity|].
  rewrite IH, app_assoc. reflexivity.
Qed.

(** The two replacements, one code unit at a time. *)
Lemma safeText_cons c (w : jsstring) :
  safeText (c :: w) =
    (if is_reserved c then [backslash; c] else [c]) ++ safeText w.
Proof.
  unfold safeText at 1. cbn [replace_all]. rewrite replace_all_app.
  fold (safeText w). unfold is_reserved.
  destruct (c =? quote)%N eqn:Eq.
  - apply N.eqb_eq in Eq. subst c. reflexivity.
  - cbn [orb replace_all]. destruct (c =? colon)%N eqn:Ec.
    + apply N.eqb_eq in Ec. subst c. reflexivity.
    + reflexivity.
Qed.

Lemma is_reserved_spec c : is_reserved c = true <-> c = quote \/ c = colon.
Proof.
  unfold is_reserved. rewrite orb_true_iff, !N.eqb_eq. reflexivity.
Qed.

Lemma safeText_escaped (w : jsstring) : forall prev,
  reserved_escaped prev (safeText w).
Proof.
  induction w as [|c w IH]; intros prev; [exact I|].
  rewrite safeText_cons. destruct (is_reserved c) eqn:Hc.
  - cbn. split.
    + intros [H|H]; discriminate H.
    + split; [reflexivity | apply IH].
  - cbn. split; [|apply IH].
    intros H. apply is_reserved_spec in H. congruence.
Qed.

Lemma safeText_length (w : jsstring) :
  length (safeText w) = length w + reserved_count w.
Proof.
  unfold reserved_count.
  induction w as [|c w IH]; [reflexivity|].
  rewrite safeText_cons, length_app, IH. cbn [List.filter].
  destruct (is_reserved c); cbn; lia.
Qed.

Lemma safeText_count (w : jsstring) :
  reserved_count (safeText w) = reserved_count w.
Proof.
  unfold reserved_count.
  induction w as [|c w IH]; [reflexivity|].
  rewrite safeText_cons, List.filter_app, length_app, IH.
  cbn [List.filter]. destruct (is_reserved c) eqn:Hc; cbn; rewrite ?Hc; reflexivity.
Qed.

Lemma safeText_id (w : jsstring) :
  reserved_count w = 0 -> safeText w = w.
Proof.
  unfold reserved_count.
  induction w as [|c w IH]; [reflexivity|].
  rewrite safeText_cons. cbn [List.filter].
  destruct (is_reserved c); cbn; [discriminate|].
  intros H. rewrite (IH H). reflexivity.
Qed.

Lemma reserved_count_0 (w : jsstring) :
  reserved_count w = 0 <-> Forall (fun c => is_reserved c = false) w.
Proof.
  unfold reserved_count. induction w as [|c w IH]; cbn [List.filter].
  - split; [constructor | reflexivity].
  - destruct (is_reserved c) eqn:Hc; cbn.
    + split; [discriminate|]. intros H. inversion H; congruence.
    + rewrite IH. split; [constructor; assumption|].
      intros H. inversion H; assumption.
Qed.

End Escaping.

(** ** Closed graphs *)

Module Closedness.
Import JS FilterGraph Overlay NClip Shape.

Lemma feeds_mono n (A B : list label) g :
  (forall l, l ∈ A -> l ∈ B) -> feeds n A g -> feeds n B g.
Proof.
  revert A B. induction g as [|x g IH]; intros A B HAB; cbn [feeds]; [auto|].
  intros [H1 H2]. split.
  - intros l Hl. destruct (H1 l Hl); [left | right]; auto.
  - apply (IH (A ++ outputs x)); [|exact H2].
    intros l. rewrite !elem_of_app. intros [?|?]; auto.
Qed.

Lemma produced_app g1 g2 : produced (g1 ++ g2) = produced g1 ++ produced g2.
Proof. apply flat_map_app. Qed.

Lemma produced_flat_map {A} (f : A -> list node) (l : list A) :
  produced (flat_map f l) = flat_map (fun i => produced (f i)) l.
Proof.
  induction l as [|i l IH]; [reflexivity|].
  cbn [flat_map]. rewrite produced_app, IH. reflexivity.
Qed.

Lemma feeds_app n A g1 g2 :
  feeds n A (g1 ++ g2) <-> feeds n A g1 /\ feeds n (A ++ produced g1) g2.
Proof.
  revert A. induction g1 as [|x g1 IH]; intros A; cbn [app feeds].
  - unfold produced; cbn. rewrite app_nil_r. tauto.
  - rewrite IH. unfold produced; cbn [flat_map]. rewrite app_assoc. tauto.
Qed.

Lemma feeds_closed_gen n g : forall A,
  feeds n A g ->
  forall k x l, g !! k = Some x -> l ∈ inputs x ->
    raw_input n l \/ l ∈ A \/
    exists j y, j < k /\ g !! j = Some y /\ l ∈ outputs y.
Proof.
  induction g as [|y g IH]; intros A Hf k x l Hk Hl; [discriminate Hk|].
  destruct Hf as [H1 H2]. destruct k as [|k]; cbn in Hk.
  - injection Hk as <-. destruct (H1 l Hl); auto.
  - destruct (IH _ H2 k x l Hk Hl) as [?|[HA|(j & z & Hj & Hz & Hlz)]]; auto.
    + apply elem_of_app in HA as [?|?]; auto.
      right; right. exists 0, y. split; [lia|]. split; [reflexivity | assumption].
    + right; right. exists (S j), z. split; [lia|]. split; assumption.
Qed.

Lemma feeds_closed n g : feeds n [] g -> closed n g.
Proof.
  intros Hf k x l Hk Hl.
  destruct (feeds_closed_gen n g [] Hf k x l Hk Hl) as [?|[HA|?]]; auto.
  apply elem_of_nil in HA. contradiction.
Qed.

Lemma elem_of_flat_map {A B} (f : A -> list B) (l : list A) y :
  y ∈ flat_map f l <-> exists x, x ∈ l /\ y ∈ f x.
Proof.
  rewrite list_elem_of_In, in_flat_map. split.
  - intros (x & Hx & Hy). exists x. rewrite !list_elem_of_In. auto.
  - intros (x & Hx & Hy). exists x. rewrite <- !list_elem_of_In. auto.
Qed.

(** A sequence of pieces feeds when each piece feeds on what comes
    before it. *)
Lemma feeds_flat_map_seq n A (f : nat -> list node) : forall k a,
  (forall i, a <= i < a + k ->
     feeds n (A ++ produced (flat_map f (seq a (i - a)))) (f i)) ->
  feeds n A (flat_map f (seq a k)).
Proof.
  induction k as [|k IH]; intros a H; [exact I|].
  rewrite seq_S, flat_map_app. cbn [flat_map]. rewrite app_nil_r.
  apply feeds_app. split.
  - apply IH. intros i Hi. apply H. lia.
  - specialize (H (a + k)). replace (a + k - a) with k in H by lia.
    apply H. lia.
Qed.

Lemma NoDup_flat_map_seq {A} (f : nat -> list A) : forall k a,
  (forall i, NoDup (f i)) ->
  (forall i j x, x ∈ f i -> x ∈ f j -> i = j) ->
  NoDup (flat_map f (seq a k)).
Proof.
  induction k as [|k IH]; intros a Hnd Hinj; cbn [seq flat_map].
  - constructor.
  - apply NoDup_app. split; [apply Hnd|]. split; [|apply IH; assumption].
    intros x Hx Hin. apply elem_of_flat_map in Hin as (j & Hj & Hxj).
    apply elem_of_seq in Hj. assert (a = j) by (eapply Hinj; eassumption).
    lia.
Qed.

Lemma flat_map_seq_ext {A} (f g : nat -> list A) : forall k a,
  (forall i, a <= i < a + k -> f i = g i) ->
  flat_map f (seq a k) = flat_map g (seq a k).
Proof.
  induction k as [|k IH]; intros a H; [reflexivity|].
  cbn [seq flat_map]. rewrite (H a) by lia. f_equal.
  apply IH. intros i Hi. apply H. lia.
Qed.

Ltac inv_elem :=
  repeat match goal with
  | H : _ ∈ [] |- _ => apply elem_of_nil in H; contradiction
  | H : _ ∈ _ :: _ |- _ => apply elem_of_cons in H as [->|H]
  end.

Lemma produced_clip_filters o i :
  length (videos o) <= length (probes o) -> i < length (videos o) ->
  produced (clip_filters o i) = clip_labels i.
Proof.
  intros Hlen Hi. unfold clip_filters.
  destruct (lookup_lt_is_Some_2 (videos o) i Hi) as [v Hv].
  assert (Hi' : i < length (probes o)) by lia.
  destruct (lookup_lt_is_Some_2 (probes o) i Hi') as [p Hp].
  rewrite Hv, Hp. unfold audioFilter, silence.
  destruct (hasAudio p); [destruct (is_lit (audioOption o) "muteAll");
    [|destruct (is_lit (audioOption o) "keepFirst" && (0 <? i))]|];
    reflexivity.
Qed.

Lemma produced_step1 o :
  length (videos o) <= length (probes o) ->
  produced (step1_filters o) = flat_map clip_labels (seq 0 (length (videos o))).
Proof.
  intros Hlen. unfold step1_filters. rewrite produced_flat_map.
  apply flat_map_seq_ext. intros i Hi.
  apply produced_clip_filters; [exact Hlen | lia].
Qed.

Lemma produced_clip_fades o n i :
  produced (clip_fades o n i) = fade_labels n i.
Proof.
  unfold clip_fades, fade_labels.
  destruct (0 <? i); destruct (i <? n - 1); reflexivity.
Qed.

Lemma produced_join o : produced (join_filters o) = join_labels o.
Proof.
  unfold join_filters, join_labels.
  destruct (is_lit (transition o) "fade" && (1 <? length (videos o))).
  - rewrite produced_app, produced_flat_map.
    f_equal. apply flat_map_seq_ext. intros i _. apply produced_clip_fades.
  - destruct (is_lit (transition o) "crossfade" && (1 <? length (videos o))).
    + rewrite produced_flat_map. reflexivity.
    + reflexivity.
Qed.

Lemma produced_overlay wm to :
  produced (overlay_nodes wm to) = if has_watermark wm then [to] else [].
Proof.
  unfold overlay_nodes.
  destruct wm as [w|]; [destruct (has_watermark (Some w))|]; reflexivity.
Qed.

Lemma in_clip_labels l n :
  l ∈ flat_map clip_labels (seq 0 n) <->
  exists i, i < n /\ (l = v_ i \/ l = a_ i).
Proof.
  rewrite elem_of_flat_map. split.
  - intros (i & Hi & Hl). apply elem_of_seq in Hi. exists i.
    split; [lia|]. unfold clip_labels in Hl. inv_elem; auto.
  - intros (i & Hi & Hl). exists i. split; [apply elem_of_seq; lia|].
    unfold clip_labels. destruct Hl as [->| ->];
      [apply elem_of_cons; left | apply elem_of_cons; right;
       apply elem_of_cons; left]; reflexivity.
Qed.

Lemma in_fade_labels l n i :
  l ∈ fade_labels n i ->
  is_join_label l = true
  /\ (l = vfin i \/ l = afin i \/ l = vfout i \/ l = afout i).
Proof.
  unfold fade_labels. intros H. apply elem_of_app in H as [H|H].
  - destruct (0 <? i); inv_elem; auto.
  - destruct (i <? n - 1); inv_elem; auto 6.
Qed.

Lemma in_xfade_labels l n i :
  l ∈ xfade_labels n i ->
  is_join_label l = true /\ (l = out_v n i \/ l = out_a n i).
Proof.
  unfold xfade_labels, out_v, out_a. intros H.
  destruct (i =? n - 1); inv_elem; auto.
Qed.

Lemma in_join_labels l o : l ∈ join_labels o -> is_join_label l = true.
Proof.
  unfold join_labels.
  destruct (is_lit (transition o) "fade" && (1 <? length (videos o))).
  - intros H. apply elem_of_app in H as [H|H]; [|inv_elem; reflexivity].
    apply elem_of_flat_map in H as (i & _ & H).
    apply in_fade_labels in H. tauto.
  - destruct (is_lit (transition o) "crossfade" && (1 <? length (videos o))).
    + intros H. apply elem_of_flat_map in H as (i & _ & H).
      apply in_xfade_labels in H. tauto.
    + intros H. inv_elem; reflexivity.
Qed.

Ltac inv_elem_eq :=
  repeat match goal with
  | H : _ ∈ [] |- _ => apply elem_of_nil in H; contradiction
  | H : _ ∈ _ :: _ |- _ =>
      let E := fresh "E" in
      apply elem_of_cons in H as [E|H]; [try discriminate E|]
  end.

Ltac nodup_explicit :=
  repeat (apply NoDup_cons; split;
          [let H := fresh in intros H; inv_elem_eq; congruence|]);
  apply NoDup_nil; exact I.

Lemma NoDup_clip_labels n : NoDup (flat_map clip_labels (seq 0 n)).
Proof.
  apply NoDup_flat_map_seq.
  - intros i. unfold clip_labels. nodup_explicit.
  - intros i j x Hi Hj. unfold clip_labels in *. inv_elem_eq; congruence.
Qed.

Lemma NoDup_fade_labels n k a : NoDup (flat_map (fade_labels n) (seq a k)).
Proof.
  apply NoDup_flat_map_seq.
  - intros i. unfold fade_labels.
    destruct (0 <? i); destruct (i <? n - 1); cbn [app]; nodup_explicit.
  - intros i j x Hi Hj.
    apply in_fade_labels in Hi as [_ Hi]. apply in_fade_labels in Hj as [_ Hj].
    destruct Hi as [->|[->|[->| ->]]]; destruct Hj as [E|[E|[E|E]]];
      congruence.
Qed.

Lemma out_v_inj n i j : out_v n i = out_v n j -> i = j.
Proof.
  unfold out_v.
  destruct (i =? n - 1) eqn:Ei; destruct (j =? n - 1) eqn:Ej;
    intros E; try discriminate E.
  - apply Nat.eqb_eq in Ei, Ej. lia.
  - congruence.
Qed.

Lemma out_a_inj n i j : out_a n i = out_a n j -> i = j.
Proof.
  unfold out_a.
  destruct (i =? n - 1) eqn:Ei; destruct (j =? n - 1) eqn:Ej;
    intros E; try discriminate E.
  - apply Nat.eqb_eq in Ei, Ej. lia.
  - congruence.
Qed.

Lemma out_v_a n i j : out_v n i <> out_a n j.
Proof.
  unfold out_v, out_a.
  destruct (i =? n - 1); destruct (j =? n - 1); discriminate.
Qed.

Lemma NoDup_xfade_labels n k a : NoDup (flat_map (xfade_labels n) (seq a k)).
Proof.
  apply NoDup_flat_map_seq.
  - intros i. unfold xfade_labels.
    apply NoDup_cons. split; [|apply NoDup_singleton].
    intros H. apply list_elem_of_singleton in H. exact (out_v_a _ _ _ H).
  - intros i j x Hi Hj.
    apply in_xfade_labels in Hi as [_ Hi]. apply in_xfade_labels in Hj as [_ Hj].
    destruct Hi as [->| ->]; destruct Hj as [E|E].
    + exact (out_v_inj _ _ _ E).
    + destruct (out_v_a _ _ _ E).
    + symmetry in E. destruct (out_v_a _ _ _ E).
    + exact (out_a_inj _ _ _ E).
Qed.

Lemma NoDup_join_labels o : NoDup (join_labels o).
Proof.
  unfold join_labels.
  destruct (is_lit (transition o) "fade" && (1 <? length (videos o))).
  - apply NoDup_app. split; [apply NoDup_fade_labels|].
    split; [|nodup_explicit].
    intros l Hl Hout. apply elem_of_flat_map in Hl as (i & _ & Hl).
    apply in_fade_labels in Hl as [_ Hl].
    destruct Hl as [->|[->|[->| ->]]]; inv_elem_eq.
  - destruct (is_lit (transition o) "crossfade" && (1 <? length (videos o))).
    + apply NoDup_xfade_labels.
    + nodup_explicit.
Qed.

(** Step 2 always produces [outv]. *)
Lemma outv_in_join_labels o : outv ∈ join_labels o.
Proof.
  unfold join_labels.
  destruct (is_lit (transition o) "fade" && (1 <? length (videos o))).
  - apply elem_of_app. right. apply elem_of_cons. left. reflexivity.
  - destruct (is_lit (transition o) "crossfade" && (1 <? length (videos o)))
      eqn:Hx.
    + apply andb_true_iff in Hx as [_ Hn]. apply Nat.ltb_lt in Hn.
      apply elem_of_flat_map. exists (length (videos o) - 1). split.
      * apply elem_of_seq. lia.
      * unfold xfade_labels, out_v. rewrite Nat.eqb_refl.
        apply elem_of_cons. left. reflexivity.
    + apply elem_of_cons. left. reflexivity.
Qed.

(** The output labels of a plan are pairwise distinct, and none is the
    stream of an input file. *)
Lemma unique_outputs_all o :
  length (videos o) <= length (probes o) ->
  unique_outputs (all_filters o).
Proof.
  intros Hlen. unfold unique_outputs, all_filters.
  rewrite !produced_app, (produced_step1 o Hlen), produced_join,
    produced_overlay.
  split.
  - apply NoDup_app. split; [apply NoDup_clip_labels|]. split.
    + intros l Hl Hr. apply in_clip_labels in Hl as (i & _ & Hl).
      apply elem_of_app in Hr as [Hr|Hr].
      * apply in_join_labels in Hr. destruct Hl as [->| ->]; discriminate Hr.
      * destruct (has_watermark (watermark o)); inv_elem_eq;
          destruct Hl; congruence.
    + apply NoDup_app. split; [apply NoDup_join_labels|]. split.
      * intros l Hl Hr. apply in_join_labels in Hl.
        destruct (has_watermark (watermark o)); inv_elem_eq.
        subst l. discriminate Hl.
      * destruct (has_watermark (watermark o)); nodup_explicit.
  - intros l Hl. apply elem_of_app in Hl as [Hl|Hl].
    + apply in_clip_labels in Hl as (i & _ & [->| ->]); reflexivity.
    + apply elem_of_app in Hl as [Hl|Hl].
      * apply in_join_labels in Hl. destruct l; try discriminate Hl; reflexivity.
      * destruct (has_watermark (watermark o)); inv_elem_eq.
        subst l. reflexivity.
Qed.

Ltac elem_solve :=
  first [ assumption
        | apply elem_of_cons; left; reflexivity
        | apply elem_of_cons; right; elem_solve
        | apply elem_of_app; left; elem_solve
        | apply elem_of_app; right; elem_solve ].

Lemma in_concatInput l (vs as_ : list label) :
  l ∈ concatInput vs as_ -> l ∈ vs \/ l ∈ as_.
Proof.
  unfold concatInput. intros H.
  apply elem_of_flat_map in H as ([v a] & Hz & Hl). cbn in Hl.
  inv_elem.
  - left. exact (elem_of_zip_l _ _ _ _ Hz).
  - right. exact (elem_of_zip_r _ _ _ _ Hz).
Qed.

Lemma feeds_clip_filters n A o i : i < n -> feeds n A (clip_filters o i).
Proof.
  intros Hi. unfold clip_filters.
  destruct (videos o !! i) as [v|]; [|exact I].
  destruct (probes o !! i) as [p|]; [|exact I].
  unfold audioFilter, silence.
  destruct (hasAudio p); [destruct (is_lit (audioOption o) "muteAll");
    [|destruct (is_lit (audioOption o) "keepFirst" && (0 <? i))]|];
    cbn [feeds inputs outputs]; repeat split;
    intros l Hl; inv_elem; left; exact Hi.
Qed.

Lemma feeds_step1 A o :
  feeds (length (videos o)) A (step1_filters o).
Proof.
  unfold step1_filters. apply feeds_flat_map_seq.
  intros i Hi. apply feeds_clip_filters. lia.
Qed.

Lemma feeds_clip_fades n A o i :
  v_ i ∈ A -> a_ i ∈ A -> feeds n A (clip_fades o n i).
Proof.
  intros Hv Ha. unfold clip_fades, fade_in_nodes, fade_out_nodes, fin_v, fin_a.
  destruct (0 <? i); destruct (i <? n - 1);
    cbn [app feeds inputs outputs]; repeat split;
    intros l Hl; inv_elem; right; elem_solve.
Qed.

Lemma clip_label_v n i : i < n -> v_ i ∈ flat_map clip_labels (seq 0 n).
Proof. intros Hi. apply in_clip_labels. exists i. auto. Qed.

Lemma clip_label_a n i : i < n -> a_ i ∈ flat_map clip_labels (seq 0 n).
Proof. intros Hi. apply in_clip_labels. exists i. auto. Qed.

Lemma faded_available n i :
  i < n ->
  let avail := flat_map clip_labels (seq 0 n)
               ++ flat_map (fade_labels n) (seq 0 n) in
  faded_v n i ∈ avail /\ faded_a n i ∈ avail.
Proof.
  intros Hi avail. unfold avail, faded_v, faded_a, fin_v, fin_a.
  assert (Hseq : i ∈ seq 0 n) by (apply elem_of_seq; lia).
  destruct (i <? n - 1) eqn:E1; [|destruct (0 <? i) eqn:E0].
  - split; apply elem_of_app; right; apply elem_of_flat_map; exists i;
      (split; [exact Hseq|]); unfold fade_labels; rewrite E1; elem_solve.
  - split; apply elem_of_app; right; apply elem_of_flat_map; exists i;
      (split; [exact Hseq|]); unfold fade_labels; rewrite E0; elem_solve.
  - split; apply elem_of_app; left;
      [apply clip_label_v | apply clip_label_a]; exact Hi.
Qed.

Lemma feeds_clip_xfade n A o i :
  1 <= i <= n - 1 ->
  (forall j, j < n -> v_ j ∈ A /\ a_ j ∈ A) ->
  feeds n (A ++ produced (flat_map (clip_xfade o n) (seq 1 (i - 1))))
        (clip_xfade o n i).
Proof.
  intros Hi HA.
  assert (Hcur : cur_v (i - 1) ∈ A ++ produced (flat_map (clip_xfade o n) (seq 1 (i - 1)))
              /\ cur_a (i - 1) ∈ A ++ produced (flat_map (clip_xfade o n) (seq 1 (i - 1)))).
  { unfold cur_v, cur_a. destruct (i - 1 =? 0) eqn:E.
    - split; apply elem_of_app; left; apply HA; lia.
    - apply Nat.eqb_neq in E.
      assert (Hne : (i - 1 =? n - 1) = false) by (apply Nat.eqb_neq; lia).
      split; apply elem_of_app; right; rewrite produced_flat_map;
        apply elem_of_flat_map; exists (i - 1);
        (split; [apply elem_of_seq; lia|]);
        unfold clip_xfade, produced, out_v, out_a; cbn; rewrite Hne;
        elem_solve. }
  destruct Hcur as [Hcv Hca].
  unfold clip_xfade. cbn [feeds inputs outputs]. repeat split.
  - intros l Hl. inv_elem; right; [exact Hcv|].
    apply elem_of_app. left. apply HA. lia.
  - intros l Hl. inv_elem; right; apply elem_of_app; left; [exact Hca|].
    apply elem_of_app. left. apply HA. lia.
Qed.

Lemma feeds_join o :
  let n := length (videos o) in
  feeds n (flat_map clip_labels (seq 0 n)) (join_filters o).
Proof.
  intros n. unfold join_filters. fold n.
  destruct (is_lit (transition o) "fade" && (1 <? n)).
  - apply feeds_app. split.
    + apply feeds_flat_map_seq. intros i Hi.
      apply feeds_clip_fades; apply elem_of_app; left;
        [apply clip_label_v | apply clip_label_a]; lia.
    + rewrite produced_flat_map.
      rewrite (flat_map_seq_ext (fun i => produced (clip_fades o n i))
                 (fade_labels n))
        by (intros i _; apply produced_clip_fades).
      unfold concat_node. cbn [feeds inputs]. split; [|exact I].
      intros l Hl. right. apply in_concatInput in Hl as [Hl|Hl];
        apply list_elem_of_fmap in Hl as (i & -> & Hi);
        apply elem_of_seq in Hi;
        apply (faded_available n i); lia.
  - destruct (is_lit (transition o) "crossfade" && (1 <? n)).
    + apply feeds_flat_map_seq. intros i Hi.
      apply feeds_clip_xfade; [lia|].
      intros j Hj. split; [apply clip_label_v | apply clip_label_a]; exact Hj.
    + unfold concat_node. cbn [feeds inputs]. split; [|exact I].
      intros l Hl. right. apply in_concatInput in Hl as [Hl|Hl];
        apply list_elem_of_fmap in Hl as (i & -> & Hi);
        apply elem_of_seq in Hi;
        [apply clip_label_v | apply clip_label_a]; lia.
Qed.

Lemma feeds_overlay n A wm to :
  outv ∈ A -> feeds n A (overlay_nodes wm to).
Proof.
  intros H. unfold overlay_nodes, drawtext_node.
  destruct wm as [w|]; [destruct (has_watermark (Some w))|];
    cbn [feeds inputs]; auto.
  split; [|exact I]. intros l Hl. inv_elem. right. exact H.
Qed.

(** The plan is a closed program in topological order. *)
Lemma closed_all o :
  length (videos o) <= length (probes o) ->
  closed (length (videos o)) (all_filters o).
Proof.
  intros Hlen. apply feeds_closed. unfold all_filters.
  apply feeds_app. split; [apply feeds_step1|].
  rewrite app_nil_l, (produced_step1 o Hlen).
  apply feeds_app. split; [apply feeds_join|].
  apply feeds_overlay. apply elem_of_app. right.
  rewrite produced_join. apply outv_in_join_labels.
Qed.

Lemma outa_in_join_labels o : outa ∈ join_labels o.
Proof.
  unfold join_labels.
  destruct (is_lit (transition o) "fade" && (1 <? length (videos o))).
  - elem_solve.
  - destruct (is_lit (transition o) "crossfade" && (1 <? length (videos o)))
      eqn:Hx.
    + apply andb_true_iff in Hx as [_ Hn]. apply Nat.ltb_lt in Hn.
      apply elem_of_flat_map. exists (length (videos o) - 1). split.
      * apply elem_of_seq. lia.
      * unfold xfade_labels, out_a. rewrite Nat.eqb_refl. elem_solve.
    + elem_solve.
Qed.

Lemma final_labels_produced o :
  (if has_watermark (watermark o) then watermarked else outv)
    ∈ produced (all_filters o)
  /\ outa ∈ produced (all_filters o).
Proof.
  unfold all_filters. rewrite !produced_app, produced_join, produced_overlay.
  pose proof (outv_in_join_labels o). pose proof (outa_in_join_labels o).
  destruct (has_watermark (watermark o)); split; elem_solve.
Qed.

End Closedness.

(** ** The text of some nodes, as the source writes it *)

Module Rendering.
Import JS FilterGraph Overlay.

Section Examples.

Variable show : number -> jsstring.
Hypothesis show_0 : show (Fin 0) = lit "0".
Hypothesis show_1 : show (Fin 1) = lit "1".
Hypothesis show_4 : show (Fin 4) = lit "4".
Hypothesis show_5 : show (Fin 5) = lit "5".
Hypothesis show_half : show (Fin (1 # 2)) = lit "0.5".
Hypothesis show_1280 : show (Fin 1280) = lit "1280".
Hypothesis show_720 : show (Fin 720) = lit "720".

Lemma render_AUDIO_NORM :
  join (lit ",") (map (render_filter show) TwoClip.AUDIO_NORM)
  = lit "aresample=44100,aformat=sample_fmts=fltp:channel_layouts=stereo".
Proof. reflexivity. Qed.

Lemma render_two_clip_video :
  render_node show
    (TwoClip.videoFilter 0 (JStr (lit "1280")) (JStr (lit "720"))
       (TwoClip.EffectiveTrim (Fin 0) (Fin 5) false))
  = lit "[0:v]scale=1280:720:force_original_aspect_ratio=decrease,pad=1280:720:(ow-iw)/2:(oh-ih)/2,fps=30,format=yuv420p[v0]".
Proof. reflexivity. Qed.

Lemma render_two_clip_silence :
  render_node show
    (TwoClip.audioFilter 1 (TwoClip.Probe (Fin 4) false)
       (TwoClip.EffectiveTrim (Fin 0) (Fin 4) false))
  = lit "aevalsrc=0:channel_layout=stereo:sample_rate=44100:duration=4,aresample=44100,aformat=sample_fmts=fltp:channel_layouts=stereo[a1]".
Proof.
  unfold TwoClip.audioFilter, render_node, TwoClip.AUDIO_NORM.
  cbn [TwoClip.hasAudio TwoClip.needTrim TwoClip.duration inputs chain outputs
       map render_filter join flat_map].
  rewrite show_4. reflexivity.
Qed.

Lemma render_n_clip_video :
  render_node show
    (Node [in_v 0]
          [trim (Fin 0) (Fin 5); setpts;
           scale (JNum (Fin 1280)) (JNum (Fin 720));
           pad (JNum (Fin 1280)) (JNum (Fin 720)) (Some "black"%string);
           setsar]
          [v_ 0])
  = lit "[0:v]trim=start=0:end=5,setpts=PTS-STARTPTS,scale=1280:720:force_original_aspect_ratio=decrease,pad=1280:720:(ow-iw)/2:(oh-ih)/2:color=black,setsar=1[v0]".
Proof.
  unfold render_node.
  cbn [inputs chain outputs map render_filter join flat_map show_val].
  rewrite show_0, show_5, show_1280, show_720. reflexivity.
Qed.

Lemma render_n_clip_audio :
  render show
    [Node [in_a 0] [atrim (Fin 0) (Fin 5); asetpts] [a_ 0];
     Node [] [aevalsrc (Some (Fin 4))] [a_ 1]]
  = lit "[0:a]atrim=start=0:end=5,asetpts=PTS-STARTPTS[a0];aevalsrc=0:d=4[a1]".
Proof.
  unfold render, render_node.
  cbn [inputs chain outputs map render_filter join flat_map show_opt].
  rewrite show_0, show_5, show_4. reflexivity.
Qed.

Lemma render_fades :
  render show
    (NClip.fade_in_nodes 1 (v_ 1) (a_ 1)
     ++ [NClip.concat_node 2 [vfout 0; vfin 1] [afout 0; afin 1]])
  = lit "[v1]fade=t=in:st=0:d=0.5[vfin1];[a1]afade=t=in:st=0:d=0.5[afin1];[vfout0][afout0][vfin1][afin1]concat=n=2:v=1:a=1[outv][outa]".
Proof.
  unfold render, render_node, NClip.fade_in_nodes, NClip.concat_node,
    NClip.fadeDuration, zero.
  cbn [app inputs chain outputs map render_filter join flat_map].
  rewrite show_0, show_half. reflexivity.
Qed.

Lemma render_crossfade :
  render show
    [Node [v_ 0; v_ 1] [xfade (Fin 1) (Fin 4)] [outv];
     Node [a_ 0; a_ 1] [acrossfade (Fin 1)] [outa]]
  = lit "[v0][v1]xfade=transition=fade:duration=1:offset=4[outv];[a0][a1]acrossfade=d=1[outa]".
Proof.
  unfold render, render_node.
  cbn [inputs chain outputs map render_filter join flat_map].
  rewrite show_1, show_4. reflexivity.
Qed.

Lemma render_watermark :
  render_node show (drawtext_node outv (lit "it's 5:00") watermarked)
  = lit "[outv]drawtext=text='it\'s 5\:00':fontsize=24:fontcolor=white@0.7:x=w-tw-20:y=h-th-20:shadowcolor=black@0.5:shadowx=2:shadowy=2[watermarked]".
Proof. reflexivity. Qed.

End Examples.

End Rendering.

(** ** The claims *)

Module Claims.
Import JS FilterGraph Overlay Shape Closedness.

(** *** Auxiliary facts *)


Lemma overlay_texts_app g1 g2 :
  Spec.overlay_texts (g1 ++ g2) = Spec.overlay_texts g1 ++ Spec.overlay_texts g2.
Proof. unfold Spec.overlay_texts. apply flat_map_app. Qed.

Lemma overlay_texts_free g :
  Forall (free_of is_drawtext) g -> Spec.overlay_texts g = [].
Proof.
  unfold Spec.overlay_texts.
  induction 1 as [|x g Hx _ IH]; [reflexivity|].
  cbn [flat_map]. rewrite IH, app_nil_r.
  induction Hx as [|f fs Hf _ IHf]; [reflexivity|].
  cbn [flat_map]. rewrite IHf. destruct f; try reflexivity; discriminate Hf.
Qed.

Lemma overlay_texts_overlay wm to :
  Spec.overlay_texts (overlay_nodes wm to) = map safeText (shown_watermark wm).
Proof.
  unfold overlay_nodes, shown_watermark.
  destruct wm as [w|]; [destruct (has_watermark (Some w))|]; reflexivity.
Qed.

Lemma lt_Fin x y : lt (Fin x) (Fin y) = true <-> (x < y)%Q.
Proof.
  cbn. rewrite negb_true_iff, <- not_true_iff_false, Qle_bool_iff.
  split; [apply Qnot_le_lt | apply Qlt_not_le].
Qed.

Lemma lt_Fin_false x y : lt (Fin x) (Fin y) = false <-> (y <= x)%Q.
Proof. cbn. rewrite negb_false_iff. apply Qle_bool_iff. Qed.

Lemma le_Fin_false x y : le (Fin x) (Fin y) = false <-> (y < x)%Q.
Proof.
  cbn. rewrite <- not_true_iff_false, Qle_bool_iff.
  split; [apply Qnot_le_lt | apply Qlt_not_le].
Qed.

Lemma max_zero_Fin x : (0 <= x)%Q -> max zero (Fin x) = or_else (Fin x) zero.
Proof.
  intros Hx. unfold max, or_else, zero, truthy.
  destruct (lt (Fin 0) (Fin x)) eqn:Hlt.
  - apply lt_Fin in Hlt.
    destruct (Qeq_bool x 0) eqn:He; [|reflexivity].
    apply Qeq_bool_iff in He. rewrite He in Hlt.
    exfalso. exact (Qlt_irrefl _ Hlt).
  - apply lt_Fin_false in Hlt.
    assert (He : Qeq_bool x 0 = true)
      by (apply Qeq_bool_iff, Qle_antisym; assumption).
    rewrite He. reflexivity.
Qed.

Lemma or_else_pos y d : (0 < y)%Q -> or_else (Fin y) d = Fin y.
Proof.
  intros Hy. unfold or_else, truthy.
  destruct (Qeq_bool y 0) eqn:He; [|reflexivity].
  apply Qeq_bool_iff in He. rewrite He in Hy.
  exfalso. exact (Qlt_irrefl _ Hy).
Qed.

Lemma or_else_Fin x : exists x', or_else (Fin x) zero = Fin x' /\ (x' == x)%Q.
Proof.
  unfold or_else, truthy, zero.
  destruct (Qeq_bool x 0) eqn:He; cbn.
  - apply Qeq_bool_iff in He. exists 0%Q. split; [reflexivity|].
    symmetry. exact He.
  - exists x. split; reflexivity.
Qed.

Lemma or_else_NaN d : or_else NaN d = d.
Proof. reflexivity. Qed.

Lemma min_self d : min (Fin d) (Fin d) = Fin d.
Proof.
  unfold min. destruct (lt (Fin d) (Fin d)); reflexivity.
Qed.

Lemma min_le y d : (y <= d)%Q -> min (Fin y) (Fin d) = Fin y.
Proof.
  intros H. unfold min. apply lt_Fin_false in H. rewrite H. reflexivity.
Qed.

Lemma sanitizeTrim_parseFloat v :
  TwoClip.sanitizeTrim v =
    if isNaN (parseFloat v) then None else Some (parseFloat v).
Proof. destruct v as [| |[|c s]|x]; reflexivity. Qed.

Lemma join_nodes_free g : Forall (free_of is_join) g -> join_nodes g = [].
Proof.
  unfold join_nodes. induction 1 as [|x g Hx _ IH]; [reflexivity|].
  cbn [List.filter]. unfold is_join_node.
  assert (He : existsb is_join (chain x) = false).
  { induction Hx as [|f fs Hf _ IHf]; [reflexivity|].
    cbn [existsb]. rewrite Hf, IHf. reflexivity. }
  rewrite He. exact IH.
Qed.

Lemma join_nodes_overlay wm to : join_nodes (overlay_nodes wm to) = [].
Proof.
  unfold overlay_nodes.
  destruct wm as [w|]; [destruct (has_watermark (Some w))|]; reflexivity.
Qed.

Lemma is_lit_true (s : jsstring) l : s = lit l -> is_lit s l = true.
Proof. intros ->. unfold is_lit. apply bool_decide_eq_true_2. reflexivity. Qed.

(** In the two-clip helper every video filter ends with the same scale,
    pad, frame rate and pixel format, and every audio filter, the
    silence source included, ends with [AUDIO_NORM]. *)
Lemma TwoClip_streams_normalized (st : TwoClip.settings) probe0 probe1 :
  let '(w, h) := TwoClip.w_h st in
  exists x0 y0 x1 y1,
    TwoClip.normalized st probe0 probe1 = [x0; y0; x1; y1]
    /\ outputs x0 = [v_ 0] /\ outputs y0 = [a_ 0]
    /\ outputs x1 = [v_ 1] /\ outputs y1 = [a_ 1]
    /\ Spec.ends_with (TwoClip.VIDEO_NORM w h) x0
    /\ Spec.ends_with (TwoClip.VIDEO_NORM w h) x1
    /\ Spec.ends_with TwoClip.AUDIO_NORM y0
    /\ Spec.ends_with TwoClip.AUDIO_NORM y1.
Proof.
  unfold TwoClip.normalized. destruct (TwoClip.w_h st) as [w h].
  do 4 eexists. split; [reflexivity|].
  unfold TwoClip.videoFilter, TwoClip.audioFilter, Spec.ends_with.
  destruct (TwoClip.needTrim (TwoClip.resolve _ _ probe0));
    destruct (TwoClip.needTrim (TwoClip.resolve _ _ probe1));
    destruct (TwoClip.hasAudio probe0); destruct (TwoClip.hasAudio probe1);
    cbn [outputs chain];
    repeat split;
    first [ exists [] ; reflexivity
          | eexists [_] ; reflexivity
          | eexists [_; _] ; reflexivity ].
Qed.

Lemma snd_crossfade_cons X c d rest :
  snd (Spec.crossfade X c (d :: rest)) =
  snd (Spec.crossfade X (add (max zero (sub c X)) d) rest).
Proof.
  cbn [Spec.crossfade].
  destruct (Spec.crossfade X (add (max zero (sub c X)) d) rest).
  reflexivity.
Qed.

(** The fold of the specification and the loop of the code compute the
    same offsets and the same cumulative offset. *)
Lemma crossfade_cum_at (o : NClip.options) : forall m k,
  Spec.crossfade NClip.xfadeDuration (cum_at o k)
    (map (fun i => toNumber (NClip.effectiveDurations o !! i)) (seq (S k) m))
  = (map (offset_at o) (seq (S k) m), cum_at o (k + m)).
Proof.
  induction m as [|m IH]; intros k.
  - cbn. rewrite Nat.add_0_r. reflexivity.
  - cbn [seq map Spec.crossfade].
    change (add (max zero (sub (cum_at o k) NClip.xfadeDuration))
                (toNumber (NClip.effectiveDurations o !! S k)))
      with (cum_at o (S k)).
    rewrite IH. unfold offset_at at 2.
    replace (S k - 1) with k by lia.
    replace (k + S m) with (S k + m) by lia. reflexivity.
Qed.

Lemma durations_after (l r : list number) :
  map (fun i => toNumber ((l ++ r) !! i)) (seq (length l) (length r)) = r.
Proof.
  revert l. induction r as [|x r IH]; intros l; [reflexivity|].
  cbn [length seq map]. rewrite list_lookup_middle by reflexivity.
  cbn [toNumber]. f_equal.
  specialize (IH (l ++ [x])). rewrite <- app_assoc in IH. cbn [app] in IH.
  rewrite length_app in IH. cbn [length] in IH.
  rewrite Nat.add_1_r in IH. exact IH.
Qed.

(** Without clamping, the fold ends at the sum of the durations minus
    one overlap per blend. *)
Lemma crossfade_no_clamp : forall (ds : list Q) (c c' : Q),
  (c' == c)%Q -> Spec.no_clamp 1 c ds ->
  exists total,
    snd (Spec.crossfade (Fin 1) (Fin c') (map Fin ds)) = Fin total
    /\ (total == c + Spec.Qsum ds - inject_Z (Z.of_nat (length ds)))%Q.
Proof.
  induction ds as [|d ds IH]; intros c c' Hc Hn.
  - exists c'. split; [reflexivity|].
    change (c' == c + 0 - 0)%Q. rewrite Hc. lra.
  - destruct Hn as [H1 Hn].
    cbn [map]. rewrite snd_crossfade_cons.
    change (sub (Fin c') (Fin 1)) with (Fin (c' - 1)).
    assert (H0 : (0 <= c' - 1)%Q) by (rewrite Hc; lra).
    rewrite (max_zero_Fin _ H0).
    destruct (or_else_Fin (c' - 1)) as (x & Ex & Hx). rewrite Ex.
    change (add (Fin x) (Fin d)) with (Fin (x + d)).
    destruct (IH (c - 1 + d)%Q (x + d)%Q) as (total & Ht & Hq).
    + rewrite Hx, Hc. reflexivity.
    + exact Hn.
    + exists total. split; [exact Ht|].
      rewrite Hq. cbn [Spec.Qsum foldr length].
      fold (Spec.Qsum ds).
      rewrite Nat2Z.inj_succ, <- Z.add_1_r, inject_Z_plus.
      change (inject_Z 1) with 1%Q.
      generalize (Spec.Qsum ds) (inject_Z (Z.of_nat (length ds))).
      intros sum k. lra.
Qed.

Lemma in_fade_labels_iff l n j :
  l ∈ fade_labels n j <->
  (0 < j /\ (l = vfin j \/ l = afin j))
  \/ (j < n - 1 /\ (l = vfout j \/ l = afout j)).
Proof.
  unfold fade_labels. rewrite elem_of_app.
  destruct (Nat.ltb_spec 0 j) as [E0|E0];
    destruct (Nat.ltb_spec j (n - 1)) as [E1|E1];
    rewrite ?elem_of_cons, ?elem_of_nil; intuition idtac; try lia; auto.
Qed.

Lemma output_produced (g : list node) x l :
  x ∈ g -> l ∈ outputs x -> l ∈ produced g.
Proof.
  intros Hx Hl. unfold produced. apply elem_of_flat_map. exists x. auto.
Qed.

Lemma concatInput_map {A} (f g : A -> label) (l : list A) :
  NClip.concatInput (map f l) (map g l) = flat_map (fun i => [f i; g i]) l.
Proof.
  unfold NClip.concatInput.
  induction l as [|x l IH]; [reflexivity|].
  cbn [map zip zip_with flat_map fst snd app]. f_equal. f_equal. exact IH.
Qed.

Lemma totalDuration_from (ds : list Q) : forall a,
  exists total,
    foldl add (Fin a) (map Fin ds) = Fin total
    /\ (total == a + Spec.Qsum ds)%Q.
Proof.
  induction ds as [|d ds IH]; intros a.
  - exists a. split; [reflexivity|]. change (a == a + 0)%Q. lra.
  - cbn [map foldl]. change (add (Fin a) (Fin d)) with (Fin (a + d)).
    destruct (IH (a + d)%Q) as (total & Ht & Hq).
    exists total. split; [exact Ht|].
    rewrite Hq. cbn [Spec.Qsum foldr]. fold (Spec.Qsum ds).
    generalize (Spec.Qsum ds). intros s. lra.
Qed.

Lemma fadeStart_long (dq : Q) :
  (1 # 2 <= dq)%Q ->
  exists st, NClip.fadeStart (Some (Fin dq)) = Fin st
             /\ (st + (1 # 2) == dq)%Q.
Proof.
  intros Hd. unfold NClip.fadeStart. cbn [toNumber].
  change (sub (Fin dq) NClip.fadeDuration) with (Fin (dq - (1 # 2))).
  assert (H0 : (0 <= dq - (1 # 2))%Q) by lra.
  rewrite (max_zero_Fin _ H0).
  destruct (or_else_Fin (dq - (1 # 2))) as (x & Ex & Hx).
  exists x. split; [exact Ex|]. rewrite Hx. lra.
Qed.

Lemma fadeStart_short (dq : Q) :
  (dq <= 1 # 2)%Q -> exists st, NClip.fadeStart (Some (Fin dq)) = Fin st
                                /\ (st == 0)%Q.
Proof.
  intros Hd. unfold NClip.fadeStart. cbn [toNumber].
  change (sub (Fin dq) NClip.fadeDuration) with (Fin (dq - (1 # 2))).
  unfold max, zero.
  destruct (lt (Fin 0) (Fin (dq - (1 # 2)))) eqn:E.
  - apply lt_Fin in E. exists (dq - (1 # 2))%Q. split; [reflexivity|]. lra.
  - exists 0%Q. split; reflexivity.
Qed.

(** *** Claim 1 *)

(** C1 on the n-clip helper.  A clip with audio followed by a clip
    without: the silence of the second clip is the bare source
    [aevalsrc=0:d=4[a1]], the audio of the first is [atrim], [asetpts] and
    nothing else, and both video filters end with [setsar=1].  No plan of
    [buildFilterGraph] has a frame-rate, pixel-format, resampling or
    sample-format filter. *)
Theorem C1_nclip_streams_are_not_normalized :
  NClip.buildFilterGraph
    (NClip.Options
       [NClip.Video (lit "a.mp4") JUndefined JUndefined;
        NClip.Video (lit "b.mp4") JUndefined JUndefined]
       [NClip.Probe (Fin 5) true; NClip.Probe (Fin 4) false]
       [Fin 5; Fin 4] (Fin 1280) (Fin 720)
       (lit "keepAll") (lit "none") None)
  = Ok (Plan
          [Node [in_v 0]
                [trim (Fin 0) (Fin 5); setpts;
                 scale (JNum (Fin 1280)) (JNum (Fin 720));
                 pad (JNum (Fin 1280)) (JNum (Fin 720)) (Some "black"%string);
                 setsar]
                [v_ 0];
           Node [in_a 0] [atrim (Fin 0) (Fin 5); asetpts] [a_ 0];
           Node [in_v 1]
                [trim (Fin 0) (Fin 4); setpts;
                 scale (JNum (Fin 1280)) (JNum (Fin 720));
                 pad (JNum (Fin 1280)) (JNum (Fin 720)) (Some "black"%string);
                 setsar]
                [v_ 1];
           Node [] [aevalsrc (Some (Fin 4))] [a_ 1];
           Node [v_ 0; a_ 0; v_ 1; a_ 1] [concat 2 1 1] [outv; outa]]
          outv outa)
  /\ (forall o : NClip.options,
        match NClip.buildFilterGraph o with
        | Ok pl => Forall (free_of Spec.is_norm) (filterGraph pl)
        | TypeError => True
        end).
Proof.
  split; [vm_compute; reflexivity|].
  intros o.
  destruct (le_lt_dec (length (NClip.videos o)) (length (NClip.probes o)))
    as [Hlen|Hlen].
  - rewrite (Loops.buildFilterGraph_ok o Hlen).
    unfold the_plan, all_filters. cbn [filterGraph].
    rewrite app_assoc. apply Forall_app. split.
    + apply Loops.joined_free_of; reflexivity.
    + unfold overlay_nodes.
      destruct (NClip.watermark o) as [w|];
        [destruct (has_watermark (Some w))|];
        repeat constructor.
  - rewrite (Loops.buildFilterGraph_throws o Hlen). exact I.
Qed.

(** *** Claim 2 *)

(** C2, as the code has it.  A missing, empty or non-numeric
    [requestedStart] / [requestedEnd] is absent: [sanitizeTrim] gives
    null exactly when [parseFloat] gives NaN, and then the start is 0 and
    the end is the duration.  For a request in range,
    [0 <= start < end <= duration], the two-clip resolver returns what the
    formulas of the specification return, and the n-clip helper takes the
    same start and end and the effective duration [end - start].  The
    resolver is total, it has no error result: start ["12"] on a clip of
    10 seconds resolves to the interval from 12 to 10. *)
Theorem C2_trim_resolver_as_coded :
  (forall v : jsval,
     TwoClip.sanitizeTrim v = None <-> parseFloat v = NaN)
  /\ TwoClip.sanitizeTrim JUndefined = None
  /\ TwoClip.sanitizeTrim JNull = None
  /\ TwoClip.sanitizeTrim (JStr []) = None
  /\ TwoClip.sanitizeTrim (JStr (lit "abc")) = None
  /\ (forall b,
        TwoClip.resolve (JStr (lit "12")) JNull (TwoClip.Probe (Fin 10) b)
        = TwoClip.EffectiveTrim (Fin 12) (Fin 10) true)
  /\ (forall s e p,
        TwoClip.sanitizeTrim s = None ->
        TwoClip.effStart (TwoClip.resolve s e p) = zero)
  /\ (forall s e p,
        TwoClip.sanitizeTrim e = None ->
        TwoClip.effEnd (TwoClip.resolve s e p) = TwoClip.duration p)
  /\ (forall s e d b,
        Spec.in_range d (TwoClip.sanitizeTrim s) (TwoClip.sanitizeTrim e) ->
        let t := TwoClip.resolve s e (TwoClip.Probe (Fin d) b) in
        Spec.resolve (Fin d) (TwoClip.sanitizeTrim s) (TwoClip.sanitizeTrim e)
          = Some (Spec.EffectiveTrim (TwoClip.effStart t) (TwoClip.effEnd t)
                                     (TwoClip.needTrim t))
        /\ forall path,
             let v := NClip.Video path s e in
             NClip.start_of v = TwoClip.effStart t
             /\ NClip.end_of v (Fin d) = TwoClip.effEnd t
             /\ NClip.effectiveDuration v (NClip.Probe (Fin d) b)
                = sub (TwoClip.effEnd t) (TwoClip.effStart t)).
Proof.
  assert (Habs : forall v, TwoClip.sanitizeTrim v = None <-> parseFloat v = NaN).
  { intros v. rewrite sanitizeTrim_parseFloat.
    destruct (parseFloat v); cbn; split; congruence. }
  split; [exact Habs|].
  do 4 (split; [reflexivity|]).
  split; [intros b; vm_compute; reflexivity|].
  split; [intros s e p H; unfold TwoClip.resolve; cbn; rewrite H; reflexivity|].
  split; [intros s e p H; unfold TwoClip.resolve; cbn; rewrite H; reflexivity|].
  intros s e d b Hr t.
  assert (Hs := sanitizeTrim_parseFloat s).
  assert (He := sanitizeTrim_parseFloat e).
  unfold Spec.in_range, Spec.requested_start, Spec.requested_end in Hr.
  unfold t, TwoClip.resolve, Spec.resolve, NClip.effectiveDuration,
    NClip.start_of, NClip.end_of.
  cbn [TwoClip.effStart TwoClip.effEnd TwoClip.needTrim TwoClip.duration
       NClip.trimStart NClip.trimEnd NClip.duration].
  destruct (TwoClip.sanitizeTrim s) as [[x| | |]|] eqn:Es; try contradiction;
    destruct (TwoClip.sanitizeTrim e) as [[y| | |]|] eqn:Ee; try contradiction;
    destruct Hr as (Hx & Hxy & Hyd);
    destruct (parseFloat s) eqn:Ps; cbn in Hs; try discriminate Hs;
    destruct (parseFloat e) eqn:Pe; cbn in He; try discriminate He;
    try (injection Hs as <-); try (injection He as <-);
    cbn [TwoClip.or_zero].
  - (* start and end requested *)
    assert (Hy : (0 < y)%Q) by (eapply Qle_lt_trans; eassumption).
    rewrite (max_zero_Fin x Hx).
    assert (Hgt : gt (Fin y) zero = true) by (apply lt_Fin, Hy).
    rewrite Hgt, (min_le y d Hyd), (or_else_pos y _ Hy).
    destruct (or_else_Fin x) as (x' & Ex & Hx').
    rewrite Ex.
    assert (Hlt : le (Fin y) (Fin x') = false)
      by (apply le_Fin_false; rewrite Hx'; exact Hxy).
    rewrite Hlt. split; [reflexivity|].
    intros path. rewrite (min_le y d Hyd). auto.
  - (* start requested, end absent *)
    rewrite (max_zero_Fin x Hx), min_self.
    destruct (or_else_Fin x) as (x' & Ex & Hx').
    rewrite Ex.
    assert (Hlt : le (Fin d) (Fin x') = false)
      by (apply le_Fin_false; rewrite Hx'; exact Hxy).
    rewrite Hlt.
    assert (Hdd : lt (Fin d) (Fin d) = false) by (apply lt_Fin_false, Qle_refl).
    rewrite Hdd, orb_false_r. split; [reflexivity|].
    intros path. rewrite or_else_NaN, min_self. auto.
  - (* start absent, end requested *)
    assert (Hgt : gt (Fin y) zero = true) by (apply lt_Fin, Hxy).
    rewrite Hgt, (min_le y d Hyd), (or_else_pos y _ Hxy).
    assert (Hlt : le (Fin y) (max zero zero) = false)
      by (apply le_Fin_false, Hxy).
    rewrite Hlt. split; [reflexivity|].
    intros path. rewrite (min_le y d Hyd). auto.
  - (* both absent *)
    rewrite min_self.
    assert (Hlt : le (Fin d) (max zero zero) = false)
      by (apply le_Fin_false, Hxy).
    rewrite Hlt.
    assert (Hdd : lt (Fin d) (Fin d) = false) by (apply lt_Fin_false, Qle_refl).
    rewrite Hdd. split; [reflexivity|].
    intros path. rewrite !or_else_NaN, min_self. auto.
Qed.

(** The request ["2"], ["7"] on a clip of 10 seconds. *)
Lemma C2_trim_resolver_witness :
  Spec.in_range 10 (TwoClip.sanitizeTrim (JStr (lit "2")))
                   (TwoClip.sanitizeTrim (JStr (lit "7")))
  /\ Spec.resolve (Fin 10) (TwoClip.sanitizeTrim (JStr (lit "2")))
                  (TwoClip.sanitizeTrim (JStr (lit "7")))
     = Some (Spec.EffectiveTrim (Fin 2) (Fin 7) true).
Proof.
  assert (H : Spec.in_range 10 (TwoClip.sanitizeTrim (JStr (lit "2")))
                               (TwoClip.sanitizeTrim (JStr (lit "7"))))
    by (cbv; repeat split; congruence).
  split; [exact H|].
  exact (proj1 (proj2 (proj2 (proj2 (proj2 (proj2 (proj2 (proj2 (proj2
           C2_trim_resolver_as_coded)))))))
           (JStr (lit "2")) (JStr (lit "7")) 10%Q true H)).
Defined.

(** The specification rejects start ["12"] on a clip of 10 seconds; the
    code resolves it to the interval from 12 to 10 and emits the trim, and
    the n-clip helper takes the effective duration -2.  The specification
    clamps the end ["20"] to 10; the code keeps 20. *)
Lemma C2_no_invalid_range_error :
  Spec.resolve (Fin 10) (TwoClip.sanitizeTrim (JStr (lit "12")))
                        (TwoClip.sanitizeTrim JNull) = None
  /\ TwoClip.resolve (JStr (lit "12")) JNull (TwoClip.Probe (Fin 10) true)
     = TwoClip.EffectiveTrim (Fin 12) (Fin 10) true
  /\ filterGraph
       (TwoClip.mergeVideos
          (TwoClip.Settings None None (JStr (lit "12")) JNull JUndefined JUndefined)
          (TwoClip.Probe (Fin 10) true) (TwoClip.Probe (Fin 10) true)) !! 0
     = Some (Node [in_v 0]
                  ([trim (Fin 12) (Fin 10); setpts]
                   ++ TwoClip.VIDEO_NORM (JStr (lit "1280")) (JStr (lit "720")))
                  [v_ 0])
  /\ NClip.effectiveDuration (NClip.Video (lit "a.mp4") (JStr (lit "12")) JNull)
                             (NClip.Probe (Fin 10) true)
     = Fin (-2)
  /\ Spec.resolve (Fin 10) (TwoClip.sanitizeTrim (JStr (lit "2")))
                           (TwoClip.sanitizeTrim (JStr (lit "20")))
     = Some (Spec.EffectiveTrim (Fin 2) (Fin 10) true)
  /\ TwoClip.resolve (JStr (lit "2")) (JStr (lit "20"))
                     (TwoClip.Probe (Fin 10) true)
     = TwoClip.EffectiveTrim (Fin 2) (Fin 20) true.
Proof. repeat split; vm_compute; reflexivity. Qed.

(** *** Claim 3 *)

Lemma offsets_free_node x : free_of Spec.has_offset x -> Spec.offsets x = [].
Proof.
  unfold free_of, Spec.offsets.
  induction 1 as [|f fs Hf _ IHf]; [reflexivity|].
  cbn [flat_map]. rewrite IHf. destruct f; try reflexivity; discriminate Hf.
Qed.

Lemma offsets_free g :
  Forall (free_of Spec.has_offset) g -> flat_map Spec.offsets g = [].
Proof.
  induction 1 as [|x g Hx _ IH]; [reflexivity|].
  cbn [flat_map]. rewrite IH, app_nil_r. apply offsets_free_node, Hx.
Qed.

Lemma step1_no_offset o : Forall (free_of Spec.has_offset) (step1_filters o).
Proof.
  apply Loops.Forall_flat_map_seq. intros i.
  apply Loops.clip_filters_free; reflexivity.
Qed.

Lemma offsets_clip_xfade o n : forall k a,
  flat_map Spec.offsets (flat_map (clip_xfade o n) (seq a k))
  = map (offset_at o) (seq a k).
Proof.
  induction k as [|k IH]; intros a; [reflexivity|].
  cbn [seq flat_map map]. rewrite flat_map_app, IH. reflexivity.
Qed.

Lemma offsets_overlay wm to : flat_map Spec.offsets (overlay_nodes wm to) = [].
Proof.
  unfold overlay_nodes.
  destruct wm as [w|]; [destruct (has_watermark (Some w))|]; reflexivity.
Qed.

(** No node on the audio path of a crossfade plan carries an offset. *)
Lemma audio_path_no_offset o n a k wm :
  Forall (fun x => Spec.offsets x = [])
         (audio_path (step1_filters o
                      ++ flat_map (clip_xfade o n) (seq a k)
                      ++ overlay_nodes wm watermarked)).
Proof.
  apply Forall_forall. intros x Hx. unfold audio_path in Hx.
  apply list_elem_of_In, filter_In in Hx as [Hin Haudio].
  apply list_elem_of_In in Hin.
  apply elem_of_app in Hin as [Hin|Hin].
  { apply offsets_free_node.
    pose proof (step1_no_offset o) as H.
    rewrite Forall_forall in H. apply H, Hin. }
  apply elem_of_app in Hin as [Hin|Hin].
  - apply elem_of_flat_map in Hin as (i & _ & Hi).
    unfold clip_xfade in Hi.
    apply elem_of_cons in Hi as [->|Hi].
    + exfalso. revert Haudio. unfold on_audio_path, cur_v, out_v.
      cbn [inputs outputs].
      destruct (i - 1 =? 0); destruct (i =? n - 1); discriminate.
    + apply list_elem_of_singleton in Hi as ->. reflexivity.
  - unfold overlay_nodes in Hin.
    destruct wm as [w|]; [destruct (has_watermark (Some w))|];
      try (apply elem_of_nil in Hin; contradiction).
    apply list_elem_of_singleton in Hin as ->. reflexivity.
Qed.

(** The crossfade loop of [buildFilterGraph] on its own. *)
Lemma crossfade_loop_is_a_fold (o : NClip.options) :
  let n := length (NClip.videos o) in
  let d i := toNumber (NClip.effectiveDurations o !! i) in
  1 < n -> NClip.transition o = lit "crossfade" ->
  n <= length (NClip.probes o) ->
  (forall fs,
     NClip.xfade_loop o n fs =
       foldl (NClip.xfade_step o n)
             (NClip.XfadeState fs (v_ 0) (a_ 0) (d 0)) (seq 1 (n - 1)))
  /\ (forall s i,
        let offset :=
          max zero (sub (NClip.cumulativeOffset s) NClip.xfadeDuration) in
        NClip.xfade_step o n s i =
          NClip.XfadeState
            (NClip.xfade_filters s ++
             [Node [NClip.currentVideoLabel s; v_ i]
                   [xfade NClip.xfadeDuration offset] [out_v n i];
              Node [NClip.currentAudioLabel s; a_ i]
                   [acrossfade NClip.xfadeDuration] [out_a n i]])
            (out_v n i) (out_a n i) (add offset (d i)))
  /\ out_v n (n - 1) = outv /\ out_a n (n - 1) = outa
  /\ (exists pl,
        NClip.buildFilterGraph o = Ok pl
        /\ filterGraph pl =
             step1_filters o
             ++ flat_map (clip_xfade o n) (seq 1 (n - 1))
             ++ overlay_nodes (NClip.watermark o) watermarked)
  /\ (forall fs,
        Spec.crossfade NClip.xfadeDuration (d 0) (map d (seq 1 (n - 1)))
        = (map (offset_at o) (seq 1 (n - 1)),
           NClip.cumulativeOffset (NClip.xfade_loop o n fs)))
  /\ (forall (d0 : Q) (ds : list Q) fs,
        NClip.effectiveDurations o = map Fin (d0 :: ds) ->
        length ds = n - 1 ->
        Spec.no_clamp 1 d0 ds ->
        exists total,
          NClip.cumulativeOffset (NClip.xfade_loop o n fs) = Fin total
          /\ (total == Spec.Qsum (d0 :: ds)
                       - inject_Z (Z.of_nat (n - 1)) * 1)%Q).
Proof.
  intros n d Hn Htr Hlen.
  assert (Hfold : forall fs,
            Spec.crossfade NClip.xfadeDuration (d 0) (map d (seq 1 (n - 1)))
            = (map (offset_at o) (seq 1 (n - 1)),
               NClip.cumulativeOffset (NClip.xfade_loop o n fs))).
  { intros fs. rewrite (Loops.xfade_loop_eq o n fs Hn).
    cbn [NClip.cumulativeOffset].
    exact (crossfade_cum_at o (n - 1) 0). }
  split; [reflexivity|]. split; [reflexivity|].
  split; [unfold out_v; rewrite Nat.eqb_refl; reflexivity|].
  split; [unfold out_a; rewrite Nat.eqb_refl; reflexivity|].
  split; [|split; [exact Hfold|]].
  - exists (the_plan o). split; [apply Loops.buildFilterGraph_ok, Hlen|].
    unfold the_plan, all_filters, join_filters. cbn [filterGraph]. fold n.
    assert (Hnf : is_lit (NClip.transition o) "fade" = false).
    { rewrite Htr. reflexivity. }
    assert (Hx : is_lit (NClip.transition o) "crossfade" = true).
    { apply is_lit_true, Htr. }
    apply Nat.ltb_lt in Hn. rewrite Hnf, Hx, Hn. reflexivity.
  - intros d0 ds fs Heds Hds Hnc.
    specialize (Hfold fs). apply (f_equal snd) in Hfold. cbn [snd] in Hfold.
    rewrite <- Hfold.
    assert (Hd0 : d 0 = Fin d0) by (unfold d; rewrite Heds; reflexivity).
    assert (Hrest : map d (seq 1 (n - 1)) = map Fin ds).
    { unfold d. rewrite Heds, <- Hds.
      change (map Fin (d0 :: ds)) with ([Fin d0] ++ map Fin ds).
      rewrite <- (length_map Fin ds).
      exact (durations_after [Fin d0] (map Fin ds)). }
    rewrite Hd0, Hrest.
    destruct (crossfade_no_clamp ds d0 d0 (Qeq_refl _) Hnc) as (total & Ht & Hq).
    exists total. split; [exact Ht|].
    rewrite Hq, <- Hds. cbn [Spec.Qsum foldr]. fold (Spec.Qsum ds). lra.
Qed.

(** C3, as the code has it.  For [n > 1] clips the crossfade loop is the
    left fold of [xfade_step] over the clips 1 to n-1, started from the
    labels of clip 0 and the effective duration of clip 0.  A step pushes
    one [xfade] of duration 1 at offset [max(0, cumulativeOffset - 1)]
    and one [acrossfade] of duration 1, which has no offset, and sets the
    cumulative offset to the offset plus the effective duration of the
    clip; the step of clip n-1 produces [outv] and [outa].  The plan is
    the per-clip filters, one such pair per clip after the first, and the
    overlay; the offsets in it are those of the fold of the
    specification, one per video blend, and no node on the audio path
    has one.  When no offset clamps to 0 the cumulative offset ends at
    the sum of the effective durations minus n-1 overlaps; nothing reads
    it after the loop, and the total duration that [mergeVideos] declares
    is the sum of the effective durations. *)
Theorem C3_crossfade_is_a_left_fold (videos : list NClip.video)
    (probes : list NClip.probe) (width height : number)
    (audioOption : jsstring) (watermark : option jsstring) :
  let n := length videos in
  let eds := NClip.effectiveDurations_of videos probes in
  let o := NClip.Options videos probes eds width height audioOption
                         (lit "crossfade") watermark in
  let d i := toNumber (eds !! i) in
  1 < n -> n <= length probes ->
  (forall fs,
     NClip.xfade_loop o n fs =
       foldl (NClip.xfade_step o n)
             (NClip.XfadeState fs (v_ 0) (a_ 0) (d 0)) (seq 1 (n - 1)))
  /\ (forall s i,
        let offset := max (Fin 0) (sub (NClip.cumulativeOffset s) (Fin 1)) in
        NClip.xfade_step o n s i =
          NClip.XfadeState
            (NClip.xfade_filters s ++
             [Node [NClip.currentVideoLabel s; v_ i]
                   [xfade (Fin 1) offset] [out_v n i];
              Node [NClip.currentAudioLabel s; a_ i]
                   [acrossfade (Fin 1)] [out_a n i]])
            (out_v n i) (out_a n i) (add offset (d i)))
  /\ out_v n (n - 1) = outv /\ out_a n (n - 1) = outa
  /\ (exists pl,
        NClip.mergeVideos videos probes width height audioOption
                          (lit "crossfade") watermark
        = (NClip.totalDuration eds, Ok pl)
        /\ filterGraph pl =
             step1_filters o
             ++ flat_map (clip_xfade o n) (seq 1 (n - 1))
             ++ overlay_nodes watermark watermarked
        /\ flat_map Spec.offsets (filterGraph pl)
           = map (offset_at o) (seq 1 (n - 1))
        /\ Forall (fun x => Spec.offsets x = [])
                  (audio_path (filterGraph pl)))
  /\ (forall fs,
        Spec.crossfade (Fin 1) (d 0) (map d (seq 1 (n - 1)))
        = (map (offset_at o) (seq 1 (n - 1)),
           NClip.cumulativeOffset (NClip.xfade_loop o n fs)))
  /\ (forall (d0 : Q) (ds : list Q) fs,
        eds = map Fin (d0 :: ds) ->
        length ds = n - 1 ->
        Spec.no_clamp 1 d0 ds ->
        exists last declared,
          NClip.cumulativeOffset (NClip.xfade_loop o n fs) = Fin last
          /\ (last == Spec.Qsum (d0 :: ds)
                      - inject_Z (Z.of_nat (n - 1)) * 1)%Q
          /\ NClip.totalDuration eds = Fin declared
          /\ (declared == Spec.Qsum (d0 :: ds))%Q).
Proof.
  intros n eds o d Hn Hlen.
  destruct (crossfade_loop_is_a_fold o Hn eq_refl Hlen)
    as (Hloop & Hstep & Hv & Ha & (pl & Hb & Hg) & Hfold & Hlast).
  split; [exact Hloop|]. split; [exact Hstep|].
  split; [exact Hv|]. split; [exact Ha|].
  split; [|split; [exact Hfold|]].
  - exists pl. split.
    { unfold NClip.mergeVideos. fold eds. fold o. rewrite Hb. reflexivity. }
    split; [exact Hg|]. rewrite Hg. split.
    + rewrite !flat_map_app, (offsets_free _ (step1_no_offset o)),
        offsets_clip_xfade, offsets_overlay, app_nil_r.
      reflexivity.
    + apply audio_path_no_offset.
  - intros d0 ds fs Heds Hds Hnc.
    destruct (Hlast d0 ds fs Heds Hds Hnc) as (last & Hl & Hq).
    destruct (totalDuration_from (d0 :: ds) 0) as (declared & Ht & Hs).
    exists last, declared. split; [exact Hl|]. split; [exact Hq|].
    split; [unfold NClip.totalDuration, zero; rewrite Heds; exact Ht|].
    rewrite Hs. lra.
Qed.

(** Two clips of effective durations 5 and 4: one blend at offset 4, an
    audio crossfade without offset, a cumulative offset that ends at 8
    and a declared total of 9. *)
Lemma C3_crossfade_witness :
  let videos := [NClip.Video (lit "a.mp4") JUndefined JUndefined;
                 NClip.Video (lit "b.mp4") JUndefined JUndefined] in
  let probes := [NClip.Probe (Fin 5) true; NClip.Probe (Fin 4) true] in
  let o := NClip.Options videos probes [Fin 5; Fin 4] (Fin 1280) (Fin 720)
                         (lit "keepAll") (lit "crossfade") None in
  1 < length videos
  /\ length videos <= length probes
  /\ NClip.effectiveDurations_of videos probes = map Fin [5%Q; 4%Q]
  /\ Spec.no_clamp 1 5 [4%Q]
  /\ (exists pl,
        NClip.mergeVideos videos probes (Fin 1280) (Fin 720) (lit "keepAll")
                          (lit "crossfade") None
        = (Fin 9, Ok pl)
        /\ join_nodes (filterGraph pl) =
             [Node [v_ 0; v_ 1] [xfade (Fin 1) (Fin 4)] [outv];
              Node [a_ 0; a_ 1] [acrossfade (Fin 1)] [outa]]
        /\ flat_map Spec.offsets (filterGraph pl) = [Fin 4])
  /\ exists last declared,
       NClip.cumulativeOffset (NClip.xfade_loop o 2 []) = Fin last
       /\ (last == 8)%Q
       /\ NClip.totalDuration [Fin 5; Fin 4] = Fin declared
       /\ (declared == 9)%Q.
Proof.
  intros videos probes o.
  assert (H1 : 1 < length videos) by (cbn; lia).
  assert (H2 : length videos <= length probes) by (cbn; lia).
  assert (H3 : NClip.effectiveDurations_of videos probes = map Fin [5%Q; 4%Q])
    by (vm_compute; reflexivity).
  assert (H4 : Spec.no_clamp 1 5 [4%Q])
    by (cbn; split; [unfold Qle; cbn; lia | exact I]).
  destruct (C3_crossfade_is_a_left_fold videos probes (Fin 1280) (Fin 720)
              (lit "keepAll") None H1 H2)
    as (_ & _ & _ & _ & (pl & Hb & Hg & Ho & _) & _ & Htotal).
  split; [exact H1|]. split; [exact H2|]. split; [exact H3|].
  split; [exact H4|]. split.
  - exists pl. split; [exact Hb|]. split.
    + rewrite Hg. vm_compute. reflexivity.
    + rewrite Ho. vm_compute. reflexivity.
  - destruct (Htotal 5%Q [4%Q] [] H3 eq_refl H4)
      as (last & declared & Hl & Hq & Hd & Hs).
    exists last, declared. split; [exact Hl|].
    split; [apply (Qeq_trans _ _ _ Hq); vm_compute; reflexivity|].
    split; [exact Hd|].
    apply (Qeq_trans _ _ _ Hs). vm_compute. reflexivity.
Defined.

(** The claim as stated fails on two clips of 5 and 4 seconds: the audio
    crossfade carries no offset, so it is not anchored at 4, and the
    total duration the helper declares is 9, not 8. *)
Lemma C3_audio_not_anchored_total_is_the_sum :
  let videos := [NClip.Video (lit "a.mp4") JUndefined JUndefined;
                 NClip.Video (lit "b.mp4") JUndefined JUndefined] in
  let probes := [NClip.Probe (Fin 5) true; NClip.Probe (Fin 4) true] in
  let blend := Node [v_ 0; v_ 1] [xfade (Fin 1) (Fin 4)] [outv] in
  let audio := Node [a_ 0; a_ 1] [acrossfade (Fin 1)] [outa] in
  NClip.mergeVideos videos probes (Fin 1280) (Fin 720) (lit "keepAll")
                    (lit "crossfade") None
  = (Fin 9,
     Ok (Plan
           [Node [in_v 0]
                 [trim (Fin 0) (Fin 5); setpts;
                  scale (JNum (Fin 1280)) (JNum (Fin 720));
                  pad (JNum (Fin 1280)) (JNum (Fin 720))
                      (Some "black"%string);
                  setsar]
                 [v_ 0];
            Node [in_a 0] [atrim (Fin 0) (Fin 5); asetpts] [a_ 0];
            Node [in_v 1]
                 [trim (Fin 0) (Fin 4); setpts;
                  scale (JNum (Fin 1280)) (JNum (Fin 720));
                  pad (JNum (Fin 1280)) (JNum (Fin 720))
                      (Some "black"%string);
                  setsar]
                 [v_ 1];
            Node [in_a 1] [atrim (Fin 0) (Fin 4); asetpts] [a_ 1];
            blend; audio]
           outv outa))
  /\ Spec.offsets blend = [Fin 4]
  /\ Spec.offsets audio = []
  /\ ~ (9 == 8)%Q.
Proof.
  repeat split; try (vm_compute; reflexivity).
  unfold Qeq. cbn. lia.
Qed.

(** *** Claim 4 *)

(** C4, as the code has it.  [buildFilterGraph] rejects no clip list.  On
    an empty list it returns a plan whose only node before the overlay is
    [concat=n=0] without inputs.  On a single clip, whatever the
    transition, it pushes the two filters of the clip and then exactly one
    join node, [[v0][a0]concat=n=1:v=1:a=1[outv][outa]]; the final labels
    are [outv] (or the overlay label) and [outa]. *)
Theorem C4_joiner_on_short_lists (o : NClip.options) :
  (NClip.videos o = [] ->
     NClip.buildFilterGraph o =
       Ok (Plan (NClip.concat_node 0 [] []
                 :: overlay_nodes (NClip.watermark o) watermarked)
                (if has_watermark (NClip.watermark o) then watermarked else outv)
                outa))
  /\ (length (NClip.videos o) = 1 -> 1 <= length (NClip.probes o) ->
        exists pl,
          NClip.buildFilterGraph o = Ok pl
          /\ filterGraph pl =
               clip_filters o 0
               ++ NClip.concat_node 1 [v_ 0] [a_ 0]
               :: overlay_nodes (NClip.watermark o) watermarked
          /\ join_nodes (filterGraph pl) = [NClip.concat_node 1 [v_ 0] [a_ 0]]
          /\ finalVideoLabel pl =
               (if has_watermark (NClip.watermark o) then watermarked else outv)
          /\ finalAudioLabel pl = outa).
Proof.
  split.
  - intros Hn. rewrite Loops.buildFilterGraph_ok by (rewrite Hn; cbn; lia).
    unfold the_plan, all_filters, step1_filters, join_filters.
    rewrite Hn. cbn [length seq flat_map app].
    rewrite !andb_false_r. reflexivity.
  - intros Hn Hp. exists (the_plan o).
    assert (Hg : all_filters o =
                 clip_filters o 0
                 ++ NClip.concat_node 1 [v_ 0] [a_ 0]
                 :: overlay_nodes (NClip.watermark o) watermarked).
    { unfold all_filters, step1_filters, join_filters. rewrite Hn.
      cbn [seq flat_map Nat.ltb Nat.leb map].
      rewrite !andb_false_r, app_nil_r. reflexivity. }
    split; [apply Loops.buildFilterGraph_ok; lia|].
    unfold the_plan; cbn [filterGraph finalVideoLabel finalAudioLabel].
    split; [exact Hg|]. split; [|split; reflexivity].
    rewrite Hg. unfold join_nodes. rewrite List.filter_app.
    fold (join_nodes (clip_filters o 0)).
    rewrite join_nodes_free
      by (apply Loops.clip_filters_free; reflexivity).
    cbn [List.filter app]. unfold is_join_node at 1. cbn.
    fold (join_nodes (overlay_nodes (NClip.watermark o) watermarked)).
    rewrite join_nodes_overlay. reflexivity.
Qed.

(** One clip of 5 seconds, crossfade requested. *)
Lemma C4_joiner_witness :
  let o := NClip.Options
             [NClip.Video (lit "a.mp4") JUndefined JUndefined]
             [NClip.Probe (Fin 5) true] [Fin 5] (Fin 1280) (Fin 720)
             (lit "keepAll") (lit "crossfade") None in
  length (NClip.videos o) = 1 /\ 1 <= length (NClip.probes o)
  /\ exists pl,
       NClip.buildFilterGraph o = Ok pl
       /\ join_nodes (filterGraph pl) = [NClip.concat_node 1 [v_ 0] [a_ 0]].
Proof.
  intros o.
  assert (H1 : length (NClip.videos o) = 1) by reflexivity.
  assert (H2 : 1 <= length (NClip.probes o)) by (cbn; lia).
  split; [exact H1|]. split; [exact H2|].
  destruct (proj2 (C4_joiner_on_short_lists o) H1 H2)
    as (pl & Hb & _ & Hj & _).
  exists pl. split; [exact Hb | exact Hj].
Defined.

(** The empty list is compiled, not rejected; a single clip goes through
    a join node and comes out as [outv], [outa], not as [v0], [a0]. *)
Lemma C4_no_empty_merge_error :
  NClip.buildFilterGraph
    (NClip.Options [] [] [] (Fin 1280) (Fin 720)
                   (lit "keepAll") (lit "none") None)
  = Ok (Plan [Node [] [concat 0 1 1] [outv; outa]] outv outa)
  /\ NClip.buildFilterGraph
       (NClip.Options [NClip.Video (lit "a.mp4") JUndefined JUndefined]
                      [NClip.Probe (Fin 5) true] [Fin 5] (Fin 1280) (Fin 720)
                      (lit "keepAll") (lit "none") None)
     = Ok (Plan
             [Node [in_v 0]
                   [trim (Fin 0) (Fin 5); setpts;
                    scale (JNum (Fin 1280)) (JNum (Fin 720));
                    pad (JNum (Fin 1280)) (JNum (Fin 720)) (Some "black"%string);
                    setsar]
                   [v_ 0];
              Node [in_a 0] [atrim (Fin 0) (Fin 5); asetpts] [a_ 0];
              Node [v_ 0; a_ 0] [concat 1 1 1] [outv; outa]]
             outv outa)
  /\ outv <> v_ 0 /\ outa <> a_ 0.
Proof. repeat split; try (vm_compute; reflexivity); discriminate. Qed.

(** *** Claim 5 *)

(** The audio path of the first two-clip helper is its audio filter. *)
Lemma Legacy_audio_path (st : Legacy.settings) :
  audio_path (Legacy.mergeVideos st).1.1 = Legacy.audioGraph st.
Proof.
  unfold Legacy.mergeVideos. cbn [fst]. unfold audio_path.
  rewrite !List.filter_app.
  assert (Hv : List.filter on_audio_path (Legacy.videoGraph st) = []).
  { unfold Legacy.videoGraph. destruct (Legacy.w_h st) as [w h].
    destruct (is_lit (Legacy.transition st) "fade");
      [|destruct (is_lit (Legacy.transition st) "crossfade")]; reflexivity. }
  assert (Hw : List.filter on_audio_path (Legacy.watermarkGraph st) = []).
  { unfold Legacy.watermarkGraph.
    destruct (Legacy.watermark st) as [w|];
      [destruct (has_watermark (Some w))|]; reflexivity. }
  rewrite Hv, Hw, app_nil_r. cbn [app].
  unfold Legacy.audioGraph.
  destruct (is_lit (Legacy.audioOption st) "muteAll");
    [|destruct (is_lit (Legacy.audioOption st) "keepFirst")]; reflexivity.
Qed.

(** C5, as the code has it.  In the plan of the n-clip
    [buildFilterGraph] the audio filter of clip [i] is the node after the
    clip's video filter.  Under [muteAll] it is the silence source
    [aevalsrc=0:d=...] whatever the probe says; under [keepFirst] it is
    the silence source for every [i > 0], and for clip 0 the clip's own
    audio when the probe reports audio; under [keepAll] it is the clip's
    own audio when the probe reports audio and the silence source
    otherwise.  The first two-clip helper has no probe and no silence
    path: under [muteAll] its graph has no node on the audio path and no
    audio is mapped, under [keepFirst] the audio path is
    [[0:a]aresample=44100[outa]] alone. *)
Theorem C5_audio_policy (o : NClip.options) (i : nat) v p :
  length (NClip.videos o) <= length (NClip.probes o) ->
  NClip.videos o !! i = Some v -> NClip.probes o !! i = Some p ->
  let silence := Node [] [aevalsrc (NClip.effectiveDurations o !! i)] [a_ i] in
  let real :=
    Node [in_a i]
         [atrim (NClip.start_of v) (NClip.end_of v (NClip.duration p));
          asetpts]
         [a_ i] in
  (exists pl a,
     NClip.buildFilterGraph o = Ok pl
     /\ filterGraph pl !! (2 * i + 1) = Some a
     /\ outputs a = [a_ i]
     /\ (NClip.audioOption o = lit "muteAll" -> a = silence)
     /\ (NClip.audioOption o = lit "keepFirst" -> 0 < i -> a = silence)
     /\ (NClip.audioOption o = lit "keepFirst" -> i = 0 ->
           a = if NClip.hasAudio p then real else silence)
     /\ (NClip.audioOption o = lit "keepAll" ->
           a = if NClip.hasAudio p then real else silence))
  /\ (forall st : Legacy.settings,
        let '(graph, _, mapped) := Legacy.mergeVideos st in
        (Legacy.audioOption st = lit "muteAll" ->
           audio_path graph = [] /\ mapped = None)
        /\ (Legacy.audioOption st = lit "keepFirst" ->
              audio_path graph = [Node [in_a 0] [aresample 44100] [outa]]
              /\ mapped = Some outa)).
Proof.
  intros Hlen Hv Hp silence real. split.
  - exists (the_plan o),
           (NClip.audioFilter o p (NClip.start_of v)
              (NClip.end_of v (NClip.duration p)) i).
    split; [apply Loops.buildFilterGraph_ok, Hlen|].
    split; [apply Loops.lookup_audio; assumption|].
    subst silence real. unfold NClip.audioFilter, NClip.silence.
    split.
    { destruct (NClip.hasAudio p);
        [destruct (is_lit (NClip.audioOption o) "muteAll");
          [|destruct (is_lit (NClip.audioOption o) "keepFirst" && (0 <? i))]|];
        reflexivity. }
    split; [|split; [|split]].
    + intros Ha. rewrite (is_lit_true _ _ Ha).
      destruct (NClip.hasAudio p); reflexivity.
    + intros Ha Hi. rewrite Ha.
      apply Nat.ltb_lt in Hi. rewrite Hi.
      destruct (NClip.hasAudio p); reflexivity.
    + intros Ha ->. rewrite Ha. reflexivity.
    + intros Ha. rewrite Ha. reflexivity.
  - intros st. pose proof (Legacy_audio_path st) as Hpath.
    unfold Legacy.mergeVideos in *. cbn [fst] in Hpath.
    split; intros Ha; rewrite Hpath; unfold Legacy.audioGraph;
      rewrite Ha; split; reflexivity.
Qed.

(** Two clips with audio under [keepFirst]: the second gets the silence
    source; and the first helper under [muteAll] has no audio path. *)
Lemma C5_audio_policy_witness :
  let v0 := NClip.Video (lit "a.mp4") JUndefined JUndefined in
  let v1 := NClip.Video (lit "b.mp4") JUndefined JUndefined in
  let o := NClip.Options [v0; v1]
             [NClip.Probe (Fin 5) true; NClip.Probe (Fin 4) true]
             [Fin 5; Fin 4] (Fin 1280) (Fin 720)
             (lit "keepFirst") (lit "none") None in
  let st := Legacy.Settings (lit "1280x720") (lit "muteAll") (lit "none")
                            None in
  length (NClip.videos o) <= length (NClip.probes o)
  /\ NClip.videos o !! 1 = Some v1
  /\ NClip.probes o !! 1 = Some (NClip.Probe (Fin 4) true)
  /\ (exists pl a,
        NClip.buildFilterGraph o = Ok pl
        /\ filterGraph pl !! 3 = Some a
        /\ a = Node [] [aevalsrc (Some (Fin 4))] [a_ 1])
  /\ audio_path (Legacy.mergeVideos st).1.1 = []
  /\ (Legacy.mergeVideos st).2 = None.
Proof.
  intros v0 v1 o st.
  assert (H1 : length (NClip.videos o) <= length (NClip.probes o))
    by (cbn; lia).
  assert (H2 : NClip.videos o !! 1 = Some v1) by reflexivity.
  assert (H3 : NClip.probes o !! 1 = Some (NClip.Probe (Fin 4) true))
    by reflexivity.
  split; [exact H1|]. split; [exact H2|]. split; [exact H3|].
  destruct (C5_audio_policy o 1 v1 _ H1 H2 H3)
    as ((pl & a & Hb & Ha & _ & _ & Hk & _) & Hlegacy).
  split.
  - exists pl, a. split; [exact Hb|]. split; [exact Ha|].
    apply Hk; [reflexivity | lia].
  - specialize (Hlegacy st).
    destruct (Legacy.mergeVideos st) as [[graph final] mapped].
    destruct Hlegacy as [Hmute _]. apply Hmute. reflexivity.
Defined.

(** The claim as stated fails on the first two-clip helper: under
    [muteAll] no node of its graph is a silence source, there is no audio
    chain at all, and under [keepFirst] the second clip gets no silence:
    the only audio node reads the first file. *)
Lemma C5_first_helper_has_no_silence_path :
  let video i :=
    Node [in_v i]
         [scale (JStr (lit "1280")) (JStr (lit "720"));
          pad (JStr (lit "1280")) (JStr (lit "720")) None; setsar]
         [v_ i] in
  let join := Node [v_ 0; v_ 1] [concat 2 1 0] [outv] in
  let first := Node [in_a 0] [aresample 44100] [outa] in
  Legacy.mergeVideos
    (Legacy.Settings (lit "1280x720") (lit "muteAll") (lit "none") None)
  = ([video 0; video 1; join], outv, None)
  /\ Legacy.mergeVideos
       (Legacy.Settings (lit "1280x720") (lit "keepFirst") (lit "none") None)
     = ([video 0; video 1; join; first], outv, Some outa)
  /\ List.filter Spec.is_silence [video 0; video 1; join; first] = []
  /\ inputs first = [in_a 0].
Proof. repeat split; vm_compute; reflexivity. Qed.

(** *** Claim 6 *)

(** The fades are no join nodes. *)
Lemma clip_fades_free_of_join o n i : Forall (free_of is_join) (clip_fades o n i).
Proof.
  unfold clip_fades, NClip.fade_in_nodes, NClip.fade_out_nodes, free_of.
  destruct (0 <? i); destruct (i <? n - 1); repeat constructor.
Qed.

(** C6, as the code has it.  In the n-clip helper, with the transition
    [fade] and [n > 1] clips, the plan is the per-clip filters, then for
    every clip its fades, then one node [concat=n=N:v=1:a=1] that reads
    the faded pairs in clip order and produces [outv] and [outa], then
    the overlay; that node is the only join node.  Clip [i] has a fade-in
    (video and audio, start 0, duration 0.5) if and only if [i > 0], and
    a fade-out (video and audio, start [max(0, d_i - 0.5)], duration 0.5)
    if and only if [i < n-1]; the fade-out ends at [d_i] as soon as
    [d_i >= 0.5] and starts at 0 for a shorter clip.  The total duration
    [mergeVideos] declares is the sum of the effective durations.  The
    first two-clip helper, which knows no durations, fades the video
    only: the filter of clip 0 ends with a fade-out and that of clip 1
    with a fade-in, of 0.5 each and both with start 0, the two are joined
    by [concat=n=2:v=1:a=0], and no filter of its graph fades audio. *)
Theorem C6_fade_strategy (videos : list NClip.video)
    (probes : list NClip.probe) (width height : number)
    (audioOption : jsstring) (watermark : option jsstring) :
  let n := length videos in
  let eds := NClip.effectiveDurations_of videos probes in
  let o := NClip.Options videos probes eds width height audioOption
                         (lit "fade") watermark in
  let F := Fin (1 # 2) in
  let joined :=
    Node (flat_map (fun i => [faded_v n i; faded_a n i]) (seq 0 n))
         [concat n 1 1] [outv; outa] in
  1 < n -> n <= length probes ->
  exists pl,
    NClip.mergeVideos videos probes width height audioOption (lit "fade")
                      watermark
    = (NClip.totalDuration eds, Ok pl)
    /\ filterGraph pl =
         step1_filters o
         ++ flat_map (clip_fades o n) (seq 0 n)
         ++ [joined]
         ++ overlay_nodes watermark watermarked
    /\ join_nodes (filterGraph pl) = [joined]
    /\ (forall i, i < n ->
          let st := NClip.fadeStart (eds !! i) in
          (Node [v_ i] [fade fade_in zero F] [vfin i] ∈ filterGraph pl
             <-> 0 < i)
          /\ (Node [a_ i] [afade fade_in zero F] [afin i] ∈ filterGraph pl
                <-> 0 < i)
          /\ (Node [fin_v i] [fade fade_out st F] [vfout i] ∈ filterGraph pl
                <-> i < n - 1)
          /\ (Node [fin_a i] [afade fade_out st F] [afout i] ∈ filterGraph pl
                <-> i < n - 1))
    /\ (forall dq : Q,
          (1 # 2 <= dq)%Q ->
          exists st, NClip.fadeStart (Some (Fin dq)) = Fin st
                     /\ (st + (1 # 2) == dq)%Q)
    /\ (forall dq : Q,
          (dq <= 1 # 2)%Q ->
          exists st, NClip.fadeStart (Some (Fin dq)) = Fin st
                     /\ (st == 0)%Q)
    /\ (forall ds : list Q,
          eds = map Fin ds ->
          exists total,
            NClip.totalDuration eds = Fin total
            /\ (total == Spec.Qsum ds)%Q)
    /\ (forall st : Legacy.settings,
          Legacy.transition st = lit "fade" ->
          let '(w, h) := Legacy.w_h st in
          Legacy.videoGraph st
          = [Node [in_v 0]
                  [scale w h; pad w h None; setsar; fade fade_out (Fin 0) F]
                  [v_ 0];
             Node [in_v 1]
                  [scale w h; pad w h None; setsar; fade fade_in (Fin 0) F]
                  [v_ 1];
             Node [v_ 0; v_ 1] [concat 2 1 0] [outv]]
          /\ Forall (free_of Spec.is_afade) (Legacy.mergeVideos st).1.1).
Proof.
  intros n eds o F joined Hn Hlen.
  assert (Hjoined : NClip.concat_node n (map (faded_v n) (seq 0 n))
                                        (map (faded_a n) (seq 0 n))
                    = joined).
  { unfold NClip.concat_node, joined. f_equal. apply concatInput_map. }
  assert (Hg : all_filters o =
               step1_filters o
               ++ flat_map (clip_fades o n) (seq 0 n)
               ++ [NClip.concat_node n (map (faded_v n) (seq 0 n))
                                       (map (faded_a n) (seq 0 n))]
               ++ overlay_nodes watermark watermarked).
  { unfold all_filters, join_filters.
    change (length (NClip.videos o)) with n.
    change (NClip.transition o) with (lit "fade").
    change (NClip.watermark o) with watermark.
    assert (Hl : (1 <? n) = true) by (apply Nat.ltb_lt, Hn).
    rewrite Hl, (is_lit_true (lit "fade") "fade" eq_refl). cbn [andb].
    rewrite <- app_assoc. reflexivity. }
  assert (Hprod : produced (all_filters o) =
                  flat_map clip_labels (seq 0 n)
                  ++ (flat_map (fade_labels n) (seq 0 n) ++ [outv; outa])
                  ++ (if has_watermark watermark then [watermarked] else [])).
  { unfold all_filters.
    rewrite !produced_app, (produced_step1 o Hlen), produced_join,
      produced_overlay.
    unfold join_labels. change (length (NClip.videos o)) with n.
    change (NClip.transition o) with (lit "fade").
    assert (Hl : (1 <? n) = true) by (apply Nat.ltb_lt, Hn).
    rewrite Hl, (is_lit_true (lit "fade") "fade" eq_refl). reflexivity. }
  assert (Hlab : forall l i,
            l ∈ produced (all_filters o) ->
            l = vfin i \/ l = afin i \/ l = vfout i \/ l = afout i ->
            l ∈ fade_labels n i).
  { intros l i Hl Hk. rewrite Hprod in Hl.
    apply elem_of_app in Hl as [Hl|Hl].
    { apply in_clip_labels in Hl as (j & _ & Hj).
      destruct Hk as [->|[->|[->| ->]]]; destruct Hj; discriminate. }
    apply elem_of_app in Hl as [Hl|Hl].
    - apply elem_of_app in Hl as [Hl|Hl].
      + apply elem_of_flat_map in Hl as (j & _ & Hj).
        assert (j = i); [|subst j; exact Hj].
        apply in_fade_labels in Hj as [_ Hj].
        destruct Hk as [->|[->|[->| ->]]];
          destruct Hj as [E|[E|[E|E]]]; congruence.
      + destruct Hk as [->|[->|[->| ->]]]; inv_elem_eq.
    - destruct (has_watermark watermark);
        destruct Hk as [->|[->|[->| ->]]]; inv_elem_eq. }
  assert (Hin : forall i x, i < n -> x ∈ clip_fades o n i -> x ∈ all_filters o).
  { intros i x Hi Hx. rewrite Hg. apply elem_of_app. right.
    apply elem_of_app. left. apply elem_of_flat_map. exists i.
    split; [apply elem_of_seq; lia | exact Hx]. }
  exists (the_plan o).
  split.
  { unfold NClip.mergeVideos. fold eds. fold o.
    rewrite (Loops.buildFilterGraph_ok o Hlen). reflexivity. }
  unfold the_plan. cbn [filterGraph].
  split; [rewrite <- Hjoined; exact Hg|].
  split.
  { rewrite Hg, Hjoined. unfold join_nodes. rewrite !List.filter_app.
    fold (join_nodes (step1_filters o)).
    fold (join_nodes (flat_map (clip_fades o n) (seq 0 n))).
    fold (join_nodes (overlay_nodes watermark watermarked)).
    rewrite (join_nodes_free (step1_filters o)),
      (join_nodes_free (flat_map (clip_fades o n) (seq 0 n))),
      join_nodes_overlay.
    - reflexivity.
    - apply Loops.Forall_flat_map_seq, clip_fades_free_of_join.
    - apply Loops.Forall_flat_map_seq. intros i.
      apply Loops.clip_filters_free; reflexivity. }
  split; [|split; [|split; [|split]]].
  - intros i Hi.
    assert (Hfwd : forall x l, x ∈ all_filters o -> outputs x = [l] ->
              l = vfin i \/ l = afin i \/ l = vfout i \/ l = afout i ->
              l ∈ fade_labels n i).
    { intros x l Hx Ho Hk. apply Hlab; [|exact Hk].
      apply (output_produced _ x); [exact Hx|]. rewrite Ho. elem_solve. }
    repeat split.
    + intros Hx. specialize (Hfwd _ (vfin i) Hx eq_refl).
      apply in_fade_labels_iff in Hfwd; [|auto].
      destruct Hfwd as [[H0 _]|[_ [E|E]]]; [exact H0 | discriminate E ..].
    + intros H0. apply (Hin i _ Hi). unfold clip_fades, NClip.fade_in_nodes.
      apply Nat.ltb_lt in H0. rewrite H0. elem_solve.
    + intros Hx. specialize (Hfwd _ (afin i) Hx eq_refl).
      apply in_fade_labels_iff in Hfwd; [|auto].
      destruct Hfwd as [[H0 _]|[_ [E|E]]]; [exact H0 | discriminate E ..].
    + intros H0. apply (Hin i _ Hi). unfold clip_fades, NClip.fade_in_nodes.
      apply Nat.ltb_lt in H0. rewrite H0. elem_solve.
    + intros Hx. specialize (Hfwd _ (vfout i) Hx eq_refl).
      apply in_fade_labels_iff in Hfwd; [|auto].
      destruct Hfwd as [[_ [E|E]]|[H0 _]]; [discriminate E .. | exact H0].
    + intros H0. apply (Hin i _ Hi). unfold clip_fades, NClip.fade_out_nodes.
      apply Nat.ltb_lt in H0. rewrite H0. elem_solve.
    + intros Hx. specialize (Hfwd _ (afout i) Hx eq_refl).
      apply in_fade_labels_iff in Hfwd; [|auto].
      destruct Hfwd as [[_ [E|E]]|[H0 _]]; [discriminate E .. | exact H0].
    + intros H0. apply (Hin i _ Hi). unfold clip_fades, NClip.fade_out_nodes.
      apply Nat.ltb_lt in H0. rewrite H0. elem_solve.
  - exact fadeStart_long.
  - exact fadeStart_short.
  - intros ds Hds. unfold NClip.totalDuration, zero. rewrite Hds.
    destruct (totalDuration_from ds 0) as (total & Ht & Hq).
    exists total. split; [exact Ht|]. rewrite Hq. lra.
  - intros st Htr. unfold Legacy.mergeVideos. cbn [fst].
    unfold Legacy.videoGraph. destruct (Legacy.w_h st) as [w h].
    rewrite (is_lit_true _ _ Htr).
    split; [reflexivity|].
    apply Forall_app. split; [unfold free_of; repeat constructor|].
    apply Forall_app. split.
    + unfold Legacy.audioGraph, free_of.
      destruct (is_lit (Legacy.audioOption st) "muteAll");
        [|destruct (is_lit (Legacy.audioOption st) "keepFirst")];
        repeat constructor.
    + unfold Legacy.watermarkGraph, free_of.
      destruct (Legacy.watermark st) as [wm|];
        [destruct (has_watermark (Some wm))|]; repeat constructor.
Qed.

(** Three clips of 5, 3 and 4 seconds: the first has a fade-out at 4.5
    and no fade-in, the pairs are joined by one [concat=n=3:v=1:a=1], and
    the declared total is 12. *)
Lemma C6_fade_witness :
  let videos := [NClip.Video (lit "a.mp4") JUndefined JUndefined;
                 NClip.Video (lit "b.mp4") JUndefined JUndefined;
                 NClip.Video (lit "c.mp4") JUndefined JUndefined] in
  let probes := [NClip.Probe (Fin 5) true; NClip.Probe (Fin 3) true;
                 NClip.Probe (Fin 4) true] in
  1 < length videos /\ length videos <= length probes
  /\ exists pl,
       NClip.mergeVideos videos probes (Fin 1280) (Fin 720) (lit "keepAll")
                         (lit "fade") None
       = (Fin 12, Ok pl)
       /\ Node [v_ 0] [fade fade_out (Fin (9 # 2)) (Fin (1 # 2))] [vfout 0]
            ∈ filterGraph pl
       /\ ~ Node [v_ 0] [fade fade_in (Fin 0) (Fin (1 # 2))] [vfin 0]
              ∈ filterGraph pl
       /\ join_nodes (filterGraph pl)
          = [Node [vfout 0; afout 0; vfout 1; afout 1; vfin 2; afin 2]
                  [concat 3 1 1] [outv; outa]].
Proof.
  intros videos probes.
  assert (H1 : 1 < length videos) by (cbn; lia).
  assert (H2 : length videos <= length probes) by (cbn; lia).
  split; [exact H1|]. split; [exact H2|].
  destruct (C6_fade_strategy videos probes (Fin 1280) (Fin 720)
              (lit "keepAll") None H1 H2)
    as (pl & Hm & _ & Hj & Hi & _).
  exists pl. split; [exact Hm|].
  destruct (Hi 0) as (Hin & _ & Hout & _); [cbn; lia|].
  split; [|split].
  - apply Hout. cbn. lia.
  - intros H. apply Hin in H. lia.
  - exact Hj.
Defined.

(** The claim as stated fails on the first two-clip helper: the fade-out
    of clip 0 starts at 0, where the claim has [max(0, d_0 - 0.5)], 4.5
    for a clip of 5 seconds, and no filter of the graph fades audio. *)
Lemma C6_first_helper_fades_video_only_at_0 :
  let scaled i tail :=
    Node [in_v i]
         ([scale (JStr (lit "1280")) (JStr (lit "720"));
           pad (JStr (lit "1280")) (JStr (lit "720")) None; setsar] ++ tail)
         [v_ i] in
  let graph :=
    [scaled 0 [fade fade_out (Fin 0) (Fin (1 # 2))];
     scaled 1 [fade fade_in (Fin 0) (Fin (1 # 2))];
     Node [v_ 0; v_ 1] [concat 2 1 0] [outv];
     Node [in_a 0; in_a 1] [concat 2 0 1] [outa]] in
  Legacy.mergeVideos
    (Legacy.Settings (lit "1280x720") (lit "keepAll") (lit "fade") None)
  = (graph, outv, Some outa)
  /\ List.filter (fun x => existsb Spec.is_afade (chain x)) graph = []
  /\ NClip.fadeStart (Some (Fin 5)) = Fin (9 # 2)
  /\ ~ (9 # 2 == 0)%Q.
Proof.
  repeat split; try (vm_compute; reflexivity).
  unfold Qeq. cbn. lia.
Qed.

(** *** Claim 7 *)

(** C7 (closed plan).  Whenever [buildFilterGraph] returns, and it
    returns unless a clip has no probe, the graph over the [n] input files
    is a closed program in topological order: every label a node consumes
    is a stream of an input file [i < n] or is produced by an earlier
    node; the produced labels are pairwise distinct and none is the stream
    of an input file; the two final labels are produced by the graph.
    The graph of the two-clip helper has the same properties. *)
Theorem C7_plan_is_closed_with_unique_labels :
  (forall o : NClip.options,
     match NClip.buildFilterGraph o with
     | Ok pl =>
         closed (length (NClip.videos o)) (filterGraph pl)
         /\ unique_outputs (filterGraph pl)
         /\ finalVideoLabel pl ∈ produced (filterGraph pl)
         /\ finalAudioLabel pl ∈ produced (filterGraph pl)
     | TypeError => length (NClip.probes o) < length (NClip.videos o)
     end)
  /\ (forall st probe0 probe1,
        let pl := TwoClip.mergeVideos st probe0 probe1 in
        closed 2 (filterGraph pl)
        /\ unique_outputs (filterGraph pl)
        /\ finalVideoLabel pl ∈ produced (filterGraph pl)
        /\ finalAudioLabel pl ∈ produced (filterGraph pl)).
Proof.
  split.
  - intros o.
    destruct (le_lt_dec (length (NClip.videos o)) (length (NClip.probes o)))
      as [Hlen|Hlen].
    + rewrite (Loops.buildFilterGraph_ok o Hlen).
      unfold the_plan. cbn [filterGraph finalVideoLabel finalAudioLabel].
      split; [apply closed_all, Hlen|].
      split; [apply unique_outputs_all, Hlen|].
      apply final_labels_produced.
    + rewrite (Loops.buildFilterGraph_throws o Hlen). exact Hlen.
  - intros st probe0 probe1 pl. unfold pl, TwoClip.mergeVideos.
    unfold TwoClip.normalized, TwoClip.videoFilter, TwoClip.audioFilter,
      TwoClip.concat_node, drawtext_node.
    destruct (TwoClip.w_h st) as [w h].
    destruct (TwoClip.needTrim (TwoClip.resolve _ _ probe0));
      destruct (TwoClip.needTrim (TwoClip.resolve _ _ probe1));
      destruct (TwoClip.hasAudio probe0); destruct (TwoClip.hasAudio probe1);
      (destruct (TwoClip.watermark st) as [wm|];
         [destruct (has_watermark (Some wm))|]);
      cbn [app filterGraph finalVideoLabel finalAudioLabel];
      (split; [apply feeds_closed; cbn [feeds inputs outputs app];
                 repeat split; intros l Hl; inv_elem;
                 first [left; cbn; lia | right; elem_solve]|]);
      (split; [split; [cbn; nodup_explicit
                      | cbn; intros l Hl; inv_elem; reflexivity]|]);
      split; cbn; elem_solve.
Qed.

(** *** Claim 8 *)

(** C8, as the code has it.  Escaping puts a backslash right before every
    quote and every colon, so in the text of every overlay node of a plan
    each quote and each colon follows a backslash; the only text-overlay
    parameter of a plan is the escaped watermark.  Escaping adds one code
    unit per quote and colon and keeps their number, so it is not
    idempotent: a second pass leaves the text as it is exactly when the
    watermark has no quote and no colon. *)
Theorem C8_escaping_inserts_backslashes :
  (forall w : jsstring, Spec.reserved_escaped None (safeText w))
  /\ (forall w : jsstring,
        length (safeText w) = length w + Spec.reserved_count w
        /\ Spec.reserved_count (safeText w) = Spec.reserved_count w)
  /\ (forall w : jsstring,
        safeText (safeText w) = safeText w <->
        Forall (fun c => Spec.is_reserved c = false) w)
  /\ (forall o : NClip.options,
        match NClip.buildFilterGraph o with
        | Ok pl =>
            Spec.overlay_texts (filterGraph pl) =
              map safeText (shown_watermark (NClip.watermark o))
            /\ Forall (Spec.reserved_escaped None)
                      (Spec.overlay_texts (filterGraph pl))
        | TypeError => True
        end).
Proof.
  split; [intros w; apply Escaping.safeText_escaped|].
  split; [intros w; split;
          [apply Escaping.safeText_length | apply Escaping.safeText_count]|].
  split.
  - intros w. rewrite <- Escaping.reserved_count_0. split.
    + intros H. apply (f_equal (@length N)) in H.
      rewrite !Escaping.safeText_length, Escaping.safeText_count in H. lia.
    + intros H. rewrite (Escaping.safeText_id w H).
      apply Escaping.safeText_id, H.
  - intros o.
    destruct (le_lt_dec (length (NClip.videos o)) (length (NClip.probes o)))
      as [Hlen|Hlen].
    + rewrite (Loops.buildFilterGraph_ok o Hlen).
      unfold the_plan, all_filters. cbn [filterGraph].
      rewrite app_assoc, overlay_texts_app, overlay_texts_overlay.
      rewrite overlay_texts_free
        by (apply Loops.joined_free_of; reflexivity).
      cbn [app]. split; [reflexivity|].
      apply Forall_fmap, Forall_forall. intros w _.
      apply Escaping.safeText_escaped.
    + rewrite (Loops.buildFilterGraph_throws o Hlen). exact I.
Qed.

(** Escaping the escaped form of a single quote adds a backslash:
    the text ['] becomes [\'], and [\'] becomes [\\']. *)
Lemma C8_escaping_is_not_idempotent :
  safeText (lit "'") = [backslash; quote]
  /\ safeText (safeText (lit "'")) = [backslash; backslash; quote]
  /\ ~ (forall w : jsstring, safeText (safeText w) = safeText w).
Proof.
  split; [reflexivity|]. split; [reflexivity|].
  intros H. specialize (H (lit "'")). discriminate H.
Qed.

(** *** Claim 9 *)


(** *** Claim 10 *)

(** C10 (blank watermark).  A watermark made of white space only, the
    empty string included, gives exactly the result of a request without
    watermark: the same nodes and the same final labels, in the n-clip
    helper, in the two-clip helper and in backend/utils/ffmpegHelper.js. *)
Theorem C10_blank_watermark_is_no_watermark (w : jsstring) :
  Forall (fun c => is_ws c = true) w ->
  (forall o : NClip.options,
     NClip.buildFilterGraph (with_watermark o (Some w)) =
     NClip.buildFilterGraph (with_watermark o None))
  /\ (forall r s0 e0 s1 e1 probe0 probe1,
        TwoClip.mergeVideos (TwoClip.Settings r (Some w) s0 e0 s1 e1)
                            probe0 probe1 =
        TwoClip.mergeVideos (TwoClip.Settings r None s0 e0 s1 e1)
                            probe0 probe1)
  /\ (forall r ao tr,
        Legacy.mergeVideos (Legacy.Settings r ao tr (Some w)) =
        Legacy.mergeVideos (Legacy.Settings r ao tr None)).
Proof.
  intros Hw. pose proof (OverlayFacts.has_watermark_blank w Hw) as Hb.
  repeat split.
  - intros o.
    rewrite (OverlayFacts.buildFilterGraph_watermark (with_watermark o (Some w))).
    change (with_watermark (with_watermark o (Some w)) None)
      with (with_watermark o None).
    cbn [with_watermark NClip.watermark].
    rewrite (OverlayFacts.overlay_nodes_blank w _ Hw), Hb.
    destruct (NClip.buildFilterGraph (with_watermark o None)) as [[g v a]|];
      [|reflexivity].
    cbn. rewrite app_nil_r. reflexivity.
  - intros. unfold TwoClip.mergeVideos. cbn [TwoClip.watermark].
    rewrite Hb. reflexivity.
  - intros. unfold Legacy.mergeVideos, Legacy.watermarkGraph.
    cbn [Legacy.watermark]. rewrite Hb. reflexivity.
Qed.

(** A tab, a space and a no-break space. *)
Lemma C10_blank_watermark_witness :
  Forall (fun c => is_ws c = true) [9; 32; 160]%N
  /\ forall o : NClip.options,
       NClip.buildFilterGraph (with_watermark o (Some [9; 32; 160]%N)) =
       NClip.buildFilterGraph (with_watermark o None).
Proof.
  assert (H : Forall (fun c => is_ws c = true) [9; 32; 160]%N)
    by (repeat constructor).
  split; [exact H|].
  exact (proj1 (C10_blank_watermark_is_no_watermark [9; 32; 160]%N H)).
Defined.

End Claims.

(** ** Rounding to a double *)

Module DoubleFacts.
Import JS Lib.

Local Open Scope Z_scope.

Lemma Qred_inject_Z (z : Z) : Qred (inject_Z z) = inject_Z z.
Proof.
  unfold Qred, inject_Z.
  pose proof (Z.ggcd_gcd z 1) as Hg.
  pose proof (Z.ggcd_correct_divisors z 1) as Hd.
  destruct (Z.ggcd z 1) as [g [r1 r2]]. cbn [fst snd] in *.
  rewrite Z.gcd_1_r in Hg. subst g. destruct Hd as [H1 H2].
  replace r1 with z by lia. replace r2 with 1 by lia. reflexivity.
Qed.

(** *** Rounding to the nearest integer *)

Lemma round_half_even_exact n d :
  0 < d -> (d | n) -> round_half_even n d = n / d.
Proof.
  intros Hd Hdiv. unfold round_half_even.
  apply Z.mod_divide in Hdiv; [|lia]. rewrite Hdiv.
  change (2 * 0) with 0. by rewrite (proj2 (Z.compare_lt_iff 0 d) Hd).
Qed.

Lemma round_half_even_near n d :
  0 <= n -> 0 < d ->
  0 <= round_half_even n d
  /\ - d <= 2 * (round_half_even n d * d - n) <= d.
Proof.
  intros Hn Hd. unfold round_half_even.
  pose proof (Z.div_mod n d ltac:(lia)) as E.
  pose proof (Z.mod_pos_bound n d Hd) as Hm.
  pose proof (Z.div_pos n d Hn Hd) as Hq.
  destruct (Z.compare_spec (2 * (n mod d)) d) as [C|C|C];
    [destruct (Z.even (n / d))|..]; split; nia.
Qed.

(** *** The binary exponent *)

Lemma log2_floor_int x : 0 < x -> log2_floor x 1 = Z.log2 x.
Proof.
  intros Hx. unfold log2_floor. change (Z.log2 1) with 0.
  rewrite Z.sub_0_r. pose proof (Z.log2_nonneg x) as Hl.
  rewrite Z.max_l, Z.max_r by lia. change (2 ^ 0) with 1.
  destruct (Z.log2_spec x Hx) as [H1 _].
  by rewrite (proj2 (Z.leb_le _ _)) by lia.
Qed.

Lemma log2_floor_lt n d k :
  0 < n -> 0 < d -> 0 <= k -> n < d * 2 ^ k -> log2_floor n d < k.
Proof.
  intros Hn Hd Hk Hlt. unfold log2_floor.
  set (l := Z.log2 n - Z.log2 d).
  destruct (Z.log2_spec n Hn) as [Ha1 Ha2].
  destruct (Z.log2_spec d Hd) as [Hb1 Hb2].
  pose proof (Z.log2_nonneg n) as Ha. pose proof (Z.log2_nonneg d) as Hb.
  assert (Hl : l <= k).
  { destruct (Z_le_gt_dec l k) as [|Hgt]; [done|exfalso].
    assert (Z.log2 d + 1 + k <= Z.log2 n) by lia.
    assert (2 ^ (Z.log2 d + 1 + k) <= 2 ^ Z.log2 n)
      by (apply Z.pow_le_mono_r; lia).
    rewrite Z.pow_add_r in * by lia.
    assert (0 < 2 ^ k) by (apply Z.pow_pos_nonneg; lia).
    nia. }
  destruct (d * 2 ^ Z.max l 0 <=? n * 2 ^ Z.max (- l) 0) eqn:E; [|lia].
  apply Z.leb_le in E.
  destruct (Z.eq_dec l k) as [->|]; [exfalso|lia].
  rewrite Z.max_l, Z.max_r in E by lia. change (2 ^ 0) with 1 in E. lia.
Qed.

Lemma log2_floor_upper n d :
  0 < n -> 0 < d ->
  n * 2 ^ Z.max (- (log2_floor n d + 1)) 0
  < d * 2 ^ Z.max (log2_floor n d + 1) 0.
Proof.
  intros Hn Hd. unfold log2_floor.
  set (l := Z.log2 n - Z.log2 d).
  destruct (Z.log2_spec n Hn) as [Ha1 Ha2].
  destruct (Z.log2_spec d Hd) as [Hb1 Hb2].
  pose proof (Z.log2_nonneg n) as Ha. pose proof (Z.log2_nonneg d) as Hb.
  destruct (d * 2 ^ Z.max l 0 <=? n * 2 ^ Z.max (- l) 0) eqn:E.
  - destruct (Z_le_gt_dec 0 (l + 1)) as [Hl|Hl].
    + rewrite Z.max_r, Z.max_l by lia. change (2 ^ 0) with 1.
      replace (Z.succ (Z.log2 n)) with (Z.log2 d + (l + 1)) in Ha2 by lia.
      rewrite Z.pow_add_r in Ha2 by lia.
      assert (0 < 2 ^ (l + 1)) by (apply Z.pow_pos_nonneg; lia). nia.
    + rewrite Z.max_l, Z.max_r by lia. change (2 ^ 0) with 1.
      replace (Z.log2 d) with (Z.succ (Z.log2 n) + - (l + 1)) in Hb1 by lia.
      rewrite Z.pow_add_r in Hb1 by lia.
      assert (0 < 2 ^ (- (l + 1))) by (apply Z.pow_pos_nonneg; lia). nia.
  - apply Z.leb_gt in E. replace (l - 1 + 1) with l by lia. exact E.
Qed.

(** *** Integers that are doubles *)

Lemma Qred_scaled (x k : Z) :
  0 <= k -> Qred (Qmake (x * 2 ^ k) (Z.to_pos (2 ^ k))) = inject_Z x.
Proof.
  intros Hk. rewrite <- Qred_inject_Z. apply Qred_complete.
  assert (0 < 2 ^ k) by (apply Z.pow_pos_nonneg; lia).
  unfold Qeq, inject_Z. cbn [Qnum Qden]. rewrite Z2Pos.id by done. lia.
Qed.

(** An integer whose bits below the exponent are zero is its own
    double, unless it overflows. *)
Lemma nearest_double_int x :
  0 < x -> (Z.log2 x - 52 <= 0 \/ (2 ^ (Z.log2 x - 52) | x)) ->
  nearest_double x 1 = if 2 ^ 1024 <=? x then PInf else Fin (inject_Z x).
Proof.
  intros Hx Hdiv. unfold nearest_double. rewrite log2_floor_int by done.
  pose proof (Z.log2_nonneg x) as Hl. destruct (Z.log2_spec x Hx) as [H1 H2].
  set (l := Z.log2 x) in *.
  rewrite (Z.max_l (l - 52)) by lia.
  destruct (Z_le_gt_dec (l - 52) 0) as [He|He].
  - rewrite (Z.max_l (- (l - 52)) 0), (Z.max_r (l - 52) 0) by lia.
    change (2 ^ 0) with 1. rewrite !Z.mul_1_r.
    set (k := - (l - 52)).
    assert (0 < 2 ^ k) as Hk by (apply Z.pow_pos_nonneg; lia).
    rewrite round_half_even_exact, Z.div_1_r by (lia || apply Z.divide_1_l).
    assert (x * 2 ^ k < 2 ^ 53) as Hlt.
    { replace 53 with ((l + 1) + k) by lia. rewrite Z.pow_add_r by lia. nia. }
    assert (2 ^ 53 < 2 ^ 1024) as Hbig by (apply Z.pow_lt_mono_r; lia).
    rewrite (proj2 (Z.leb_gt _ _)) by lia.
    rewrite (proj2 (Z.leb_gt (2 ^ 1024) x)) by nia.
    f_equal. apply Qred_scaled. lia.
  - destruct Hdiv as [|[c Hc]]; [lia|].
    rewrite (Z.max_r (- (l - 52)) 0), (Z.max_l (l - 52) 0) by lia.
    change (2 ^ 0) with 1. rewrite Z.mul_1_r, Z.mul_1_l.
    set (e := l - 52) in *.
    assert (0 < 2 ^ e) as Hk by (apply Z.pow_pos_nonneg; lia).
    rewrite round_half_even_exact by (done || by exists c).
    rewrite Hc, Z.div_mul by lia.
    destruct (2 ^ 1024 <=? c * 2 ^ e); [done|].
    f_equal. change (Z.to_pos 1) with 1%positive. apply Qred_inject_Z.
Qed.

(** A multiple of a power of two is rounded to a multiple of it. *)
Lemma nearest_double_multiple a j :
  0 < a -> 0 <= j ->
  nearest_double (2 ^ j * a) 1 = PInf
  \/ exists b, 0 <= b /\ nearest_double (2 ^ j * a) 1
                         = Fin (inject_Z (2 ^ j * b)).
Proof.
  intros Ha Hj.
  assert (0 < 2 ^ j) as Hpj by (apply Z.pow_pos_nonneg; lia).
  set (x := 2 ^ j * a). assert (0 < x) as Hx by nia.
  pose proof (Z.log2_nonneg x) as Hl.
  destruct (Z_le_gt_dec (Z.log2 x - 52) j) as [He|He].
  - rewrite nearest_double_int; [| done |].
    + destruct (2 ^ 1024 <=? x); [by left|right]. exists a. split; [lia|done].
    + destruct (Z_le_gt_dec (Z.log2 x - 52) 0) as [|H0]; [by left|right].
      set (e := Z.log2 x - 52) in *. exists (2 ^ (j - e) * a).
      rewrite <- Z.mul_assoc, (Z.mul_comm a), Z.mul_assoc.
      rewrite <- Z.pow_add_r by lia. unfold x. f_equal. f_equal. lia.
  - unfold nearest_double. rewrite log2_floor_int by done.
    set (e := Z.log2 x - 52) in *.
    rewrite (Z.max_l e) by lia.
    rewrite (Z.max_r (- e) 0), (Z.max_l e 0) by lia.
    change (2 ^ 0) with 1. rewrite Z.mul_1_r, Z.mul_1_l.
    assert (0 < 2 ^ e) as Hpe by (apply Z.pow_pos_nonneg; lia).
    destruct (round_half_even_near x (2 ^ e)) as [Hm _]; [lia|done|].
    set (m := round_half_even x (2 ^ e)) in *.
    destruct (2 ^ 1024 <=? m * 2 ^ e); [by left|right].
    exists (m * 2 ^ (e - j)). split.
    { apply Z.mul_nonneg_nonneg; [done|]. apply Z.pow_nonneg. lia. }
    f_equal. change (Z.to_pos 1) with 1%positive.
    change (m * 2 ^ e # 1)%Q with (inject_Z (m * 2 ^ e)).
    rewrite Qred_inject_Z. f_equal.
    replace e with (j + (e - j)) at 1 by lia.
    rewrite Z.pow_add_r by lia. lia.
Qed.

(** *** The Number value *)

Lemma to_double_proper (p q : Q) : (p == q)%Q -> to_double p = to_double q.
Proof. intros H. unfold to_double. by rewrite (Qred_complete p q H). Qed.

Lemma to_double_inject_Z (x : Z) :
  0 < x -> to_double (inject_Z x) = nearest_double x 1.
Proof.
  intros Hx. unfold to_double. rewrite Qred_inject_Z. cbn [inject_Z Qnum Qden].
  by destruct x.
Qed.

(** An integer below 2^53 is a double. *)
Lemma to_double_int (z : Z) :
  0 <= z < 2 ^ 53 -> to_double (inject_Z z) = Fin (inject_Z z).
Proof.
  intros [H0 H1]. destruct (Z.eq_dec z 0) as [->|Hz]; [done|].
  rewrite to_double_inject_Z by lia. rewrite nearest_double_int; [|lia|].
  - assert (2 ^ 53 < 2 ^ 1024) by (apply Z.pow_lt_mono_r; lia).
    by rewrite (proj2 (Z.leb_gt _ _)) by lia.
  - left. assert (Z.log2 z < 53) by (apply Z.log2_lt_pow2; lia). lia.
Qed.

(** So is its product with a power of two, short of an overflow. *)
Lemma to_double_scaled (a j : Z) :
  0 <= a < 2 ^ 53 -> 0 <= j -> a * 2 ^ j < 2 ^ 1024 ->
  to_double (inject_Z (a * 2 ^ j)) = Fin (inject_Z (a * 2 ^ j)).
Proof.
  intros [H0 H1] Hj Hlt. destruct (Z.eq_dec a 0) as [->|Ha]; [done|].
  assert (0 < 2 ^ j) as Hpj by (apply Z.pow_pos_nonneg; lia).
  rewrite to_double_inject_Z by nia. rewrite nearest_double_int; [|nia|].
  - by rewrite (proj2 (Z.leb_gt _ _)) by lia.
  - rewrite Z.log2_mul_pow2 by lia.
    assert (Z.log2 a < 53) by (apply Z.log2_lt_pow2; lia).
    pose proof (Z.log2_nonneg a).
    set (e := j + Z.log2 a - 52).
    destruct (Z_le_gt_dec e 0) as [|He]; [by left|right].
    exists (a * 2 ^ (j - e)). rewrite <- Z.mul_assoc, <- Z.pow_add_r by lia.
    f_equal. f_equal. lia.
Qed.

(** The double of a non-negative multiple of a power of two is such a
    multiple, or +Infinity. *)
Lemma to_double_multiple (a j : Z) :
  0 <= a -> 0 <= j ->
  to_double (inject_Z (2 ^ j * a)) = PInf
  \/ exists b, 0 <= b /\ to_double (inject_Z (2 ^ j * a))
                         = Fin (inject_Z (2 ^ j * b)).
Proof.
  intros Ha Hj. destruct (Z.eq_dec a 0) as [->|Hz].
  { right. exists 0. split; [done|]. by rewrite Z.mul_0_r. }
  assert (0 < 2 ^ j) as Hpj by (apply Z.pow_pos_nonneg; lia).
  rewrite to_double_inject_Z by nia.
  apply nearest_double_multiple; lia.
Qed.

(** Below 2^k, for k up to 53, the double of a non-negative real is
    within 2^(k-54) of it: half a unit in the last place. *)
Lemma to_double_near (q : Q) (k : Z) :
  (0 <= q)%Q -> (q < inject_Z (2 ^ k))%Q -> 0 <= k <= 53 ->
  exists v, to_double q = Fin v /\ (0 <= v)%Q
            /\ (Qabs (v - q) <= 1 # Z.to_pos (2 ^ (54 - k)))%Q.
Proof.
  intros H0 Hlt Hk. pose proof (Qred_correct q) as Hr.
  unfold to_double. destruct (Qred q) as [n d]. cbn [Qnum Qden].
  assert (0 < 2 ^ (54 - k)) as Hpk by (apply Z.pow_pos_nonneg; lia).
  rewrite <- Hr in H0, Hlt.
  destruct n as [|p|p].
  - exists 0%Q. split; [done|]. split; [done|].
    rewrite <- Hr. apply Qabs_Qle_condition.
    unfold Qle, Qminus, Qplus, Qopp. cbn. lia.
  - set (N := Z.pos p) in *. set (D := Z.pos d) in *.
    assert (0 < N) as HN by done. assert (0 < D) as HD by done.
    assert (N < D * 2 ^ k) as HNk.
    { unfold Qlt in Hlt. cbn [Qnum Qden inject_Z] in Hlt. fold N D in Hlt. lia. }
    pose proof (log2_floor_lt N D k HN HD ltac:(lia) HNk) as Hl.
    pose proof (log2_floor_upper N D HN HD) as Hu.
    unfold nearest_double. set (l := log2_floor N D) in *.
    set (e := Z.max (l - 52) (-1074)).
    assert (e <= k - 53 /\ l - 52 <= e) as [He1 He2] by lia.
    rewrite (Z.max_l (- e) 0), (Z.max_r e 0) by lia.
    change (2 ^ 0) with 1. rewrite !Z.mul_1_r.
    set (K := - e). assert (53 - k <= K <= 52 - l) as [HK1 HK2] by lia.
    assert (0 < 2 ^ K) as HpK by (apply Z.pow_pos_nonneg; lia).
    destruct (round_half_even_near (N * 2 ^ K) D) as [Hm Hnear]; [nia|done|].
    set (m := round_half_even (N * 2 ^ K) D) in *.
    assert (N * 2 ^ K < D * 2 ^ 53) as Hbound.
    { assert (2 ^ K <= 2 ^ (52 - l)) as Hmono
        by (apply Z.pow_le_mono_r; lia).
      assert (N * 2 ^ (52 - l) < D * 2 ^ 53); [|nia].
      destruct (Z_le_gt_dec 0 (l + 1)) as [Hl1|Hl1].
      - rewrite Z.max_r, Z.max_l in Hu by lia. change (2 ^ 0) with 1 in Hu.
        replace 53 with ((l + 1) + (52 - l)) by lia.
        rewrite Z.pow_add_r by lia.
        assert (0 < 2 ^ (52 - l)) by (apply Z.pow_pos_nonneg; lia). nia.
      - rewrite Z.max_l, Z.max_r in Hu by lia. change (2 ^ 0) with 1 in Hu.
        replace (52 - l) with (- (l + 1) + 53) by lia.
        rewrite Z.pow_add_r by lia. nia. }
    assert (m <= 2 ^ 53) as Hm53 by nia.
    assert (2 ^ 53 < 2 ^ 1024) by (apply Z.pow_lt_mono_r; lia).
    rewrite (proj2 (Z.leb_gt _ _)) by lia.
    eexists. split; [reflexivity|].
    pose proof (Qred_correct (m # Z.to_pos (2 ^ K))) as Hv.
    split; [rewrite Hv; unfold Qle; cbn; lia|].
    rewrite Hv, <- Hr. apply Qabs_Qle_condition.
    assert (2 ^ (54 - k) <= 2 * 2 ^ K) as Hp.
    { change (2 * 2 ^ K) with (2 ^ 1 * 2 ^ K). rewrite <- Z.pow_add_r by lia.
      apply Z.pow_le_mono_r; lia. }
    unfold Qle, Qminus, Qplus, Qopp. cbn [Qnum Qden].
    rewrite !Pos2Z.inj_mul, !Z2Pos.id by done. fold D N. split; nia.
  - exfalso. unfold Qle in H0. cbn in H0. lia.
Qed.

End DoubleFacts.

(** ** Numerals *)

Module NumeralFacts.
Import JS FilterGraph Lib Expect.

Lemma digits_stop acc k (s : jsstring) :
  match s with [] => True | c :: _ => is_digit c = false end ->
  digits acc k s = (acc, k, s).
Proof. destruct s as [|c r]; simpl; [done|]. by intros ->. Qed.

Lemma digits_run (ds : jsstring) : forall acc k rest,
  Forall (fun c => is_digit c = true) ds ->
  digits acc k (ds ++ rest)
  = digits (foldl (fun a c => (10 * a + Z.of_N (c - 48))%Z) acc ds)
           (k + length ds) rest.
Proof.
  induction ds as [|c ds IH]; intros acc k rest Hd; simpl.
  - by rewrite Nat.add_0_r.
  - inversion Hd as [|? ? Hc Hds]; subst. rewrite Hc, IH by done.
    f_equal. lia.
Qed.

Lemma digits_all (ds rest : jsstring) :
  Forall (fun c => is_digit c = true) ds ->
  match rest with [] => True | c :: _ => is_digit c = false end ->
  digits 0 0 (ds ++ rest) = (decimal_value ds, length ds, rest).
Proof.
  intros Hd Hr. rewrite digits_run by done. by rewrite digits_stop.
Qed.

Lemma foldl_digits_nonneg (ds : jsstring) : forall b, (0 <= b)%Z ->
  (0 <= foldl (fun a c => (10 * a + Z.of_N (c - 48))%Z) b ds)%Z.
Proof.
  induction ds as [|c ds IH]; intros b Hb; simpl; [done|]. apply IH. lia.
Qed.

Lemma decimal_value_nonneg (ds : jsstring) : (0 <= decimal_value ds)%Z.
Proof. by apply foldl_digits_nonneg. Qed.

(** What [digits] returns in general: a non-negative value, the count of
    the digits read and what is left. *)
Lemma digits_spec (s : jsstring) : forall acc k,
  exists ds rest,
    s = ds ++ rest
    /\ Forall (fun c => is_digit c = true) ds
    /\ match rest with [] => True | c :: _ => is_digit c = false end
    /\ digits acc k s
       = (foldl (fun a c => (10 * a + Z.of_N (c - 48))%Z) acc ds,
          k + length ds, rest).
Proof.
  induction s as [|c s IH]; intros acc k.
  - exists [], []. simpl. by rewrite Nat.add_0_r.
  - simpl. destruct (is_digit c) eqn:Hc.
    + destruct (IH (10 * acc + Z.of_N (c - 48))%Z (S k))
        as (ds & rest & -> & Hd & Hr & E).
      exists (c :: ds), rest. repeat split; [by constructor|done|].
      rewrite E. simpl. f_equal. f_equal. lia.
    + exists [], (c :: s). simpl. rewrite Nat.add_0_r. by rewrite Hc.
Qed.

Lemma lit_String a (s : string) : lit (String a s) = N_of_ascii a :: lit s.
Proof. done. Qed.

Lemma uint_digits (d : Decimal.uint) :
  Forall (fun c => is_digit c = true) (lit (NilEmpty.string_of_uint d)).
Proof.
  induction d; simpl NilEmpty.string_of_uint; rewrite ?lit_String;
    try (constructor; [done|done]). constructor.
Qed.

Lemma uint_value (d : Decimal.uint) : forall acc : nat,
  foldl (fun a c => (10 * a + Z.of_N (c - 48))%Z) (Z.of_nat acc)
        (lit (NilEmpty.string_of_uint d))
  = Z.of_nat (Nat.of_uint_acc d acc).
Proof.
  induction d; intros acc; simpl NilEmpty.string_of_uint;
    rewrite ?lit_String; [done|..];
    cbn [foldl Nat.of_uint_acc]; rewrite <- IHd; f_equal;
    rewrite Nat.tail_mul_spec; cbn [N_of_ascii N_of_digits]; lia.
Qed.

Lemma show_nat_digits n : Forall (fun c => is_digit c = true) (show_nat n).
Proof.
  unfold show_nat. destruct (Nat.to_uint n) as [|d|d|d|d|d|d|d|d|d|d];
    [repeat constructor|..];
    match goal with
    | |- context [NilZero.string_of_uint ?u] => exact (uint_digits u)
    end.
Qed.

Lemma show_nat_nonempty n : show_nat n <> [].
Proof. unfold show_nat. by destruct (Nat.to_uint n). Qed.

Lemma show_nat_value n : decimal_value (show_nat n) = Z.of_nat n.
Proof.
  unfold show_nat. rewrite <- (Unsigned.of_to n) at 2.
  destruct (Nat.to_uint n) as [|d|d|d|d|d|d|d|d|d|d]; [done|..];
    match goal with
    | |- context [NilZero.string_of_uint ?u] => exact (uint_value u 0)
    end.
Qed.

Lemma show_nat_all_digits n : all_digits (show_nat n).
Proof. split; [apply show_nat_nonempty | apply show_nat_digits]. Qed.

Lemma is_digit_not_ws c : is_digit c = true -> is_ws c = false.
Proof.
  unfold is_digit, is_ws. intros H. apply andb_prop in H as [H1 H2].
  apply N.leb_le in H1, H2.
  rewrite (proj2 (N.leb_gt c 13)) by lia.
  rewrite (proj2 (N.leb_gt 8192 c)) by lia.
  repeat match goal with
  | |- context [(c =? ?k)%N] => rewrite (proj2 (N.eqb_neq c k)) by lia
  end.
  by rewrite !andb_false_r.
Qed.

(** [trim] leaves a string alone that neither starts nor ends with white
    space. *)
Lemma skip_ws_id c (s : jsstring) : is_ws c = false -> skip_ws (c :: s) = c :: s.
Proof. simpl. by intros ->. Qed.

Lemma trim_id (s : jsstring) :
  match s with [] => True | c :: _ => is_ws c = false end ->
  match rev s with [] => True | c :: _ => is_ws c = false end ->
  JS.trim s = s.
Proof.
  intros H1 H2. unfold JS.trim.
  assert (skip_ws s = s) as -> by (destruct s; [done|by apply skip_ws_id]).
  assert (skip_ws (rev s) = rev s) as ->
    by (destruct (rev s); [done|by apply skip_ws_id]).
  apply rev_involutive.
Qed.

Lemma trim_digits (ds : jsstring) :
  Forall (fun c => is_digit c = true) ds -> JS.trim ds = ds.
Proof.
  intros Hd. apply trim_id.
  - destruct ds as [|c r]; [done|]. inversion Hd; subst. by apply is_digit_not_ws.
  - assert (Forall (fun c => is_digit c = true) (rev ds)) as Hr
      by (by apply Forall_rev).
    destruct (rev ds) as [|c r]; [done|]. inversion Hr; subst.
    by apply is_digit_not_ws.
Qed.

End NumeralFacts.

(** ** The upload size limit *)

Module RoutesFacts.
Import JS FilterGraph Lib Expect Routes NumeralFacts.

Lemma head_digit (ds : jsstring) :
  all_digits ds -> exists c r, ds = c :: r /\ is_digit c = true.
Proof.
  intros [Hne Hd]. destruct ds as [|c r]; [done|]. inversion Hd; subst.
  by exists c, r.
Qed.

Lemma sign_digit c (r : jsstring) :
  is_digit c = true -> sign (c :: r) = (false, c :: r).
Proof.
  intros H. unfold is_digit in H. apply andb_prop in H as [H1 H2].
  apply N.leb_le in H1, H2. unfold sign.
  destruct c as [|p]; [done|].
  do 6 (destruct p as [p|p|]; try done); lia.
Qed.

Lemma parseInt10_digits (ds : jsstring) :
  all_digits ds -> parseInt10 ds = to_double (inject_Z (decimal_value ds)).
Proof.
  intros H. destruct (head_digit ds H) as (c & r & -> & Hc).
  destruct H as [_ Hd]. unfold parseInt10.
  rewrite skip_ws_id by (by apply is_digit_not_ws).
  rewrite sign_digit by done.
  rewrite <- (app_nil_r (c :: r)). rewrite digits_all by done.
  by rewrite app_nil_r.
Qed.

Lemma match_size_digits (ds rest : jsstring) :
  all_digits ds ->
  match rest with [] => True | c :: _ => is_digit c = false end ->
  match_size (ds ++ rest)
  = match rest with
    | [] => Some (ds, None)
    | [a; b] => if is_unit a b then Some (ds, Some [a; b]) else None
    | _ => None
    end.
Proof.
  intros [Hne Hd] Hr. unfold match_size. rewrite digits_all by done.
  destruct ds as [|c r]; [done|]. cbn [length].
  by rewrite (take_app_length (c :: r)).
Qed.

Lemma is_unit_cases a b :
  is_unit a b = true ->
  a ∈ [107; 75; 109; 77; 103; 71]%N /\ b ∈ [98; 66]%N.
Proof.
  unfold is_unit. intros H. apply andb_prop in H as [Ha Hb].
  repeat (apply orb_prop in Ha as [Ha|Ha]);
    repeat (apply orb_prop in Hb as [Hb|Hb]);
    apply N.eqb_eq in Ha, Hb; subst; split; Closedness.elem_solve.
Qed.

Lemma is_unit_not_digit a b : is_unit a b = true -> is_digit a = false.
Proof.
  intros H. destruct (is_unit_cases a b H) as [Ha _].
  repeat (apply elem_of_cons in Ha as [->|Ha]; [done|]).
  by apply elem_of_nil in Ha.
Qed.

(** The value for a run of digits with a unit. *)
Lemma parseMaxFileSize_unit (ds : jsstring) a b :
  all_digits ds -> is_unit a b = true ->
  parseMaxFileSize (Some (ds ++ [a; b]))
  = double (mul (to_double (inject_Z (decimal_value ds)))
                (Fin (inject_Z (unit_bytes a)))).
Proof.
  intros Hds Hu. unfold parseMaxFileSize.
  assert (nonempty (ds ++ [a; b]) = true) as ->
    by (destruct Hds as [Hne _]; by destruct ds).
  rewrite match_size_digits by (done || by apply (is_unit_not_digit a b)).
  rewrite Hu, parseInt10_digits by done.
  destruct (is_unit_cases a b Hu) as [Ha Hb].
  repeat (apply elem_of_cons in Ha as [->|Ha]);
    try (by apply elem_of_nil in Ha);
    repeat (apply elem_of_cons in Hb as [->|Hb]);
    try (by apply elem_of_nil in Hb);
    (set (g := get multipliers _); vm_compute in g; subst g; cbv beta iota);
    (set (g := or_else _ _); vm_compute in g; subst g);
    reflexivity.
Qed.

(** The value for a run of digits without a unit: megabytes. *)
Lemma parseMaxFileSize_plain (ds : jsstring) :
  all_digits ds ->
  parseMaxFileSize (Some ds)
  = double (mul (to_double (inject_Z (decimal_value ds)))
                (Fin (inject_Z (1024 * 1024)))).
Proof.
  intros Hds. unfold parseMaxFileSize.
  assert (nonempty ds = true) as ->
    by (destruct Hds as [Hne _]; by destruct ds).
  rewrite <- (app_nil_r ds) at 1. rewrite match_size_digits by done.
  rewrite parseInt10_digits by done.
  set (g := get multipliers _); vm_compute in g; subst g; cbv beta iota.
  set (g := or_else _ _); vm_compute in g; subst g.
  reflexivity.
Qed.

(** The bytes of a unit are a power of 1024. *)
Lemma unit_bytes_cases a :
  unit_bytes a = (2 ^ 10)%Z \/ unit_bytes a = (2 ^ 20)%Z
  \/ unit_bytes a = (2 ^ 30)%Z.
Proof.
  unfold unit_bytes.
  destruct ((a =? 107) || (a =? 75))%N; [by left|].
  destruct ((a =? 109) || (a =? 77))%N; [right; by left|right; by right].
Qed.

(** Below 2^53 a run of digits times a unit is exact. *)
Lemma exact_bytes (v j : Z) :
  (0 <= v < 2 ^ 53)%Z -> (0 <= j <= 30)%Z ->
  double (mul (to_double (inject_Z v)) (Fin (inject_Z (2 ^ j))))
  = Fin (inject_Z (v * 2 ^ j)).
Proof.
  intros Hv Hj. rewrite DoubleFacts.to_double_int by done. cbn [mul double].
  rewrite (DoubleFacts.to_double_proper _ (inject_Z (v * 2 ^ j)))
    by (by rewrite inject_Z_mult).
  apply DoubleFacts.to_double_scaled; [done|lia|].
  assert (2 ^ j <= 2 ^ 30)%Z by (apply Z.pow_le_mono_r; lia).
  assert (2 ^ 53 * 2 ^ 30 < 2 ^ 1024)%Z by (by vm_compute).
  assert (0 < 2 ^ j)%Z by (apply Z.pow_pos_nonneg; lia). nia.
Qed.

(** A run of digits times a power of 1024, as doubles: +Infinity or a
    whole number of kilobytes. *)
Lemma kilobytes (v j : Z) :
  (0 <= v)%Z -> (10 <= j)%Z ->
  let x := double (mul (to_double (inject_Z v)) (Fin (inject_Z (2 ^ j)))) in
  x = PInf \/ exists k, (0 <= k)%Z /\ x = Fin (inject_Z (1024 * k)).
Proof.
  intros Hv Hj x. subst x.
  assert (0 < 2 ^ j)%Z as Hpj by (apply Z.pow_pos_nonneg; lia).
  destruct (DoubleFacts.to_double_multiple v 0 Hv ltac:(done))
    as [E|(b & Hb & E)];
    rewrite Z.pow_0_r, Z.mul_1_l in E; rewrite E.
  - left. unfold mul, Qis_zero, Qis_neg.
    assert (Qeq_bool (inject_Z (2 ^ j)) 0 = false) as ->.
    { apply not_true_iff_false. intros H. apply Qeq_bool_iff in H.
      unfold Qeq in H. cbn in H. lia. }
    assert (Qle_bool 0 (inject_Z (2 ^ j)) = true) as ->.
    { apply Qle_bool_iff. unfold Qle. cbn. lia. }
    reflexivity.
  - rewrite Z.mul_1_l. cbn [mul double].
    rewrite (DoubleFacts.to_double_proper _
               (inject_Z (2 ^ 10 * (2 ^ (j - 10) * b)))).
    2:{ rewrite <- inject_Z_mult. apply inject_Z_injective.
        rewrite Z.mul_assoc, <- Z.pow_add_r by lia.
        replace (10 + (j - 10))%Z with j by lia. lia. }
    destruct (DoubleFacts.to_double_multiple (2 ^ (j - 10) * b) 10)
      as [E'|(k & Hk & E')]; [|done|by left|].
    + apply Z.mul_nonneg_nonneg; [|done]. apply Z.pow_nonneg. lia.
    + right. exists k. split; [done|]. exact E'.
Qed.

End RoutesFacts.

(** ** Number(string) on decimal numerals *)

Module NumberFacts.
Import JS FilterGraph Lib Expect NumeralFacts RoutesFacts.

Lemma radix_of_digit p : is_digit p = true -> radix_of p = None.
Proof.
  unfold is_digit, radix_of. intros H. apply andb_prop in H as [H1 H2].
  apply N.leb_le in H1, H2.
  repeat match goal with
  | |- context [(?a =? ?b)%N] => destruct (N.eqb_spec a b); [lia|]
  end. done.
Qed.

Ltac N_cases c :=
  let p := fresh "p" in
  destruct c as [|p]; [try done|];
  do 7 (try (destruct p as [p|p|]; try done)).

Lemma non_decimal_digits (ds : jsstring) :
  Forall (fun c => is_digit c = true) ds -> non_decimal ds = None.
Proof.
  intros Hd. destruct ds as [|c [|p r]]; [done|by N_cases c|].
  inversion Hd as [|? ? _ Hd']; subst. inversion Hd' as [|? ? Hp _]; subst.
  unfold non_decimal. rewrite (radix_of_digit p Hp). by N_cases c.
Qed.

Lemma not_Infinity c (r : jsstring) :
  is_digit c = true -> bool_decide (c :: r = lit "Infinity") = false.
Proof.
  intros H. apply bool_decide_eq_false. intros E.
  injection E as -> _. done.
Qed.

(** [Number] on digits with an optional fraction: [ddd] and [ddd.ddd]. *)
Lemma foldl_digits_shift (fs : jsstring) : forall a,
  foldl (fun a c => (10 * a + Z.of_N (c - 48))%Z) a fs
  = (a * 10 ^ Z.of_nat (length fs) + decimal_value fs)%Z.
Proof.
  unfold decimal_value.
  induction fs as [|c fs IH] using rev_ind; intros a.
  - simpl. lia.
  - rewrite !foldl_app. cbn [foldl]. rewrite IH, (IH 0%Z).
    rewrite length_app. cbn [length].
    replace (Z.of_nat (length fs + 1)) with (Z.of_nat (length fs) + 1)%Z by lia.
    rewrite Z.pow_add_r by lia. lia.
Qed.

Lemma Number_digits (ds : jsstring) :
  all_digits ds -> Number ds = to_double (inject_Z (decimal_value ds)).
Proof.
  intros Hall. destruct (head_digit ds Hall) as (c & r & -> & Hc).
  destruct Hall as [_ Hd]. unfold Number. rewrite trim_digits by done.
  cbv beta iota.
  rewrite non_decimal_digits, sign_digit, not_Infinity by done.
  unfold decimal_literal. rewrite <- (app_nil_r (c :: r)) at 1.
  rewrite digits_all by done.
  cbn [length Nat.add]. change (exponent_part []) with (0%Z, @nil N).
  cbv beta iota. change (10 ^ (0 - Z.of_nat 0))%Q with 1%Q.
  apply DoubleFacts.to_double_proper. ring.
Qed.

Lemma trim_no_ws (s : jsstring) :
  Forall (fun c => is_ws c = false) s -> JS.trim s = s.
Proof.
  intros H. apply trim_id.
  - destruct s; [done|]. by inversion H.
  - apply Forall_rev in H. destruct (rev s); [done|]. by inversion H.
Qed.

Lemma non_decimal_second c p (r : jsstring) :
  radix_of p = None -> non_decimal (c :: p :: r) = None.
Proof. intros H. unfold non_decimal. rewrite H. by N_cases c. Qed.

Lemma Number_fraction (ds fs : jsstring) :
  all_digits ds -> Forall (fun c => is_digit c = true) fs ->
  Number (ds ++ 46%N :: fs)
  = to_double
      (inject_Z (decimal_value ds)
       + inject_Z (decimal_value fs) / inject_Z (10 ^ Z.of_nat (length fs))).
Proof.
  intros Hall Hf. destruct (head_digit ds Hall) as (c & r & -> & Hc).
  destruct Hall as [_ Hd]. unfold Number.
  rewrite trim_no_ws.
  2:{ apply Forall_app. split.
      - eapply Forall_impl; [exact Hd|]. intros; by apply is_digit_not_ws.
      - constructor; [done|].
        eapply Forall_impl; [exact Hf|]. intros; by apply is_digit_not_ws. }
  assert (non_decimal ((c :: r) ++ 46%N :: fs) = None) as Hnd.
  { destruct r as [|p r]; cbn [app]; apply non_decimal_second; [done|].
    inversion Hd as [|? ? _ Hd']; subst. inversion Hd'; subst.
    by apply radix_of_digit. }
  cbn [app] in *. rewrite Hnd, sign_digit, not_Infinity by done.
  unfold decimal_literal.
  change (c :: r ++ 46%N :: fs) with ((c :: r) ++ 46%N :: fs).
  rewrite digits_all by done.
  rewrite <- (app_nil_r fs) at 1. rewrite digits_run, digits_stop by done.
  cbn [length Nat.add]. change (exponent_part []) with (0%Z, @nil N).
  cbv beta iota. apply DoubleFacts.to_double_proper.
  rewrite foldl_digits_shift.
  set (v := decimal_value (c :: r)). set (f := decimal_value fs).
  set (n := Z.of_nat (length fs)).
  assert (0 <= n)%Z as Hn by lia.
  replace (0 - n)%Z with (- n)%Z by lia.
  rewrite Qpower_opp, inject_Z_plus, inject_Z_mult.
  rewrite (Zpower_Qpower 10 n Hn).
  assert (~ inject_Z 10 ^ n == 0) as Hp.
  { apply Qpower_not_0. done. }
  change (10 ^ n)%Q with (inject_Z 10 ^ n)%Q. field. exact Hp.
Qed.

End NumberFacts.

(** ** Splitting *)

Module SplitFacts.
Import JS Lib Expect NumeralFacts.

Lemma split_x_eq (s : jsstring) : TwoClip.split_x s = split_on 120 s.
Proof. induction s as [|c s IH]; simpl; [done|]. by rewrite IH. Qed.

Lemma split_on_nonempty c (s : jsstring) : split_on c s <> [].
Proof.
  induction s as [|x s IH]; simpl; [done|].
  destruct (x =? c)%N; [done|]. by destruct (split_on c s).
Qed.

Lemma split_on_app c (a rest : jsstring) :
  Forall (fun x => x <> c) a ->
  split_on c (a ++ c :: rest) = a :: split_on c rest.
Proof.
  induction a as [|x a IH]; intros H; simpl.
  - by rewrite N.eqb_refl.
  - inversion H as [|? ? Hx Ha]; subst.
    destruct (N.eqb_spec x c); [done|]. by rewrite IH.
Qed.

Lemma split_on_none c (a : jsstring) :
  Forall (fun x => x <> c) a -> split_on c a = [a].
Proof.
  induction a as [|x a IH]; intros H; simpl; [done|].
  inversion H as [|? ? Hx Ha]; subst.
  destruct (N.eqb_spec x c); [done|]. by rewrite IH.
Qed.

Lemma digits_not c (ds : jsstring) :
  is_digit c = false ->
  Forall (fun x => is_digit x = true) ds -> Forall (fun x => x <> c) ds.
Proof.
  intros Hc Hd. eapply Forall_impl; [exact Hd|].
  intros x Hx ->. by rewrite Hx in Hc.
Qed.

End SplitFacts.

(** ** Every stream is used once *)

Module WiringFacts.
Import JS FilterGraph Overlay NClip Shape Loops Closedness Wiring.

Lemma consumed_app g1 g2 : consumed (g1 ++ g2) = consumed g1 ++ consumed g2.
Proof. apply flat_map_app. Qed.

Lemma consumed_flat_map {A} (f : A -> list node) (l : list A) :
  consumed (flat_map f l) = flat_map (fun i => consumed (f i)) l.
Proof.
  induction l as [|i l IH]; [reflexivity|].
  cbn [flat_map]. rewrite consumed_app, IH. reflexivity.
Qed.

Lemma buildFilterGraph_Ok o pl :
  buildFilterGraph o = Ok pl ->
  length (videos o) <= length (probes o) /\ pl = the_plan o.
Proof.
  intros H.
  destruct (le_lt_dec (length (videos o)) (length (probes o))) as [Hlen|Hlen].
  - rewrite (buildFilterGraph_ok o Hlen) in H. by injection H as <-.
  - by rewrite (buildFilterGraph_throws o Hlen) in H.
Qed.

Lemma consumed_clip_filters o i :
  length (videos o) <= length (probes o) -> i < length (videos o) ->
  consumed (clip_filters o i) = streams_read o i.
Proof.
  intros Hlen Hi. unfold clip_filters, streams_read, keeps_audio.
  destruct (lookup_lt_is_Some_2 (videos o) i Hi) as [v Hv].
  assert (Hi' : i < length (probes o)) by lia.
  destruct (lookup_lt_is_Some_2 (probes o) i Hi') as [p Hp].
  rewrite Hv, Hp. unfold audioFilter, silence.
  destruct (hasAudio p); [destruct (is_lit (audioOption o) "muteAll");
    [|destruct (is_lit (audioOption o) "keepFirst" && (0 <? i))]|];
    reflexivity.
Qed.

Lemma consumed_step1 o :
  length (videos o) <= length (probes o) ->
  consumed (step1_filters o)
  = flat_map (streams_read o) (seq 0 (length (videos o))).
Proof.
  intros Hlen. unfold step1_filters. rewrite consumed_flat_map.
  apply flat_map_seq_ext. intros i Hi.
  apply consumed_clip_filters; [exact Hlen | lia].
Qed.

Lemma consumed_overlay wm to :
  consumed (overlay_nodes wm to) = if has_watermark wm then [outv] else [].
Proof.
  unfold overlay_nodes. destruct wm as [w|]; [|reflexivity].
  destruct (has_watermark (Some w)); reflexivity.
Qed.

(** Two lists built piece by piece over the same indices. *)
Lemma flat_map_weave {A B} (f g : A -> list B) (l : list A) :
  flat_map f l ++ flat_map g l ≡ₚ flat_map (fun i => f i ++ g i) l.
Proof.
  induction l as [|i l IH]; [reflexivity|].
  cbn [flat_map]. rewrite <- IH. solve_Permutation.
Qed.

(** Plain concatenation: the concat node reads the two labels of every
    clip. *)
Lemma concatInput_clips n :
  concatInput (map v_ (seq 0 n)) (map a_ (seq 0 n))
  = flat_map clip_labels (seq 0 n).
Proof.
  unfold concatInput. generalize 0. induction n as [|n IH]; intros a;
    [reflexivity|]. cbn. by rewrite IH.
Qed.

Lemma concatInput_faded n k : forall a,
  concatInput (map (faded_v n) (seq a k)) (map (faded_a n) (seq a k))
  = flat_map (fun i => [faded_v n i; faded_a n i]) (seq a k).
Proof.
  unfold concatInput. induction k as [|k IH]; intros a; [reflexivity|].
  cbn. by rewrite IH.
Qed.

(** Fade: what clip [i] consumes and hands on is what it produces. *)
Lemma fade_clip_wiring o n i :
  consumed (clip_fades o n i) ++ [faded_v n i; faded_a n i]
  = clip_labels i ++ fade_labels n i.
Proof.
  unfold clip_fades, fade_labels, faded_v, faded_a, fin_v, fin_a, clip_labels,
    fade_in_nodes, fade_out_nodes.
  destruct (0 <? i); destruct (i <? n - 1); reflexivity.
Qed.

(** Crossfade: after [k] blends, the labels consumed so far and the two
    current labels are the labels produced so far. *)
Lemma xfade_wiring o n : forall k,
  k <= n - 1 ->
  consumed (flat_map (clip_xfade o n) (seq 1 k))
    ++ [if k =? 0 then v_ 0 else out_v n k; if k =? 0 then a_ 0 else out_a n k]
  ≡ₚ flat_map clip_labels (seq 0 (S k))
     ++ flat_map (xfade_labels n) (seq 1 k).
Proof.
  induction k as [|k IH]; intros Hk; [reflexivity|].
  rewrite (seq_S k 1), !flat_map_app, consumed_app. cbn [flat_map].
  rewrite !app_nil_r. rewrite (seq_S (S k) 0), flat_map_app. cbn [flat_map].
  rewrite app_nil_r. cbn [Nat.add Nat.eqb].
  specialize (IH ltac:(lia)).
  assert (cur_v (S k - 1) = (if k =? 0 then v_ 0 else out_v n k)
          /\ cur_a (S k - 1) = (if k =? 0 then a_ 0 else out_a n k))
    as [Ev Ea].
  { replace (S k - 1) with k by lia. unfold cur_v, cur_a, out_v, out_a.
    destruct (Nat.eqb_spec k 0); [done|].
    destruct (Nat.eqb_spec k (n - 1)); [lia|done]. }
  unfold clip_xfade at 2. unfold consumed at 2. cbn [flat_map inputs app].
  rewrite Ev, Ea. unfold xfade_labels at 2. unfold clip_labels at 2.
  transitivity ((flat_map clip_labels (seq 0 (S k))
                 ++ flat_map (xfade_labels n) (seq 1 k))
                ++ [v_ (S k); a_ (S k); out_v n (S k); out_a n (S k)]);
    [|solve_Permutation].
  rewrite <- IH. solve_Permutation.
Qed.

Lemma join_wiring o :
  consumed (join_filters o) ++ [outv; outa]
  ≡ₚ flat_map clip_labels (seq 0 (length (videos o))) ++ join_labels o.
Proof.
  unfold join_filters, join_labels. set (n := length (videos o)).
  destruct (is_lit (transition o) "fade" && (1 <? n)).
  - rewrite consumed_app, consumed_flat_map. unfold consumed at 2.
    cbn [flat_map concat_node inputs]. rewrite app_nil_r.
    rewrite concatInput_faded.
    rewrite (flat_map_weave (fun i => consumed (clip_fades o n i))).
    rewrite (flat_map_seq_ext _ (fun i => clip_labels i ++ fade_labels n i))
      by (intros; apply fade_clip_wiring).
    rewrite <- flat_map_weave. solve_Permutation.
  - destruct (is_lit (transition o) "crossfade" && (1 <? n)) eqn:Hx.
    + apply andb_true_iff in Hx as [_ Hn]. apply Nat.ltb_lt in Hn.
      pose proof (xfade_wiring o n (n - 1) ltac:(lia)) as H.
      replace (S (n - 1)) with n in H by lia.
      assert ((n - 1 =? 0) = false) as E by (apply Nat.eqb_neq; lia).
      rewrite E in H. unfold out_v, out_a in H.
      rewrite Nat.eqb_refl in H. exact H.
    + unfold consumed. cbn [flat_map concat_node inputs]. rewrite app_nil_r.
      rewrite concatInput_clips. solve_Permutation.
Qed.

Lemma all_wiring o :
  length (videos o) <= length (probes o) ->
  consumed (all_filters o)
    ++ [if has_watermark (watermark o) then watermarked else outv; outa]
  ≡ₚ flat_map (streams_read o) (seq 0 (length (videos o)))
     ++ produced (all_filters o).
Proof.
  intros Hlen. unfold all_filters.
  rewrite !consumed_app, !produced_app, consumed_step1, consumed_overlay,
    produced_step1, produced_join, produced_overlay by done.
  pose proof (join_wiring o) as H.
  destruct (has_watermark (watermark o)).
  - transitivity (flat_map (streams_read o) (seq 0 (length (videos o)))
                  ++ (consumed (join_filters o) ++ [outv; outa])
                  ++ [watermarked]); [solve_Permutation|].
    rewrite H. solve_Permutation.
  - transitivity (flat_map (streams_read o) (seq 0 (length (videos o)))
                  ++ (consumed (join_filters o) ++ [outv; outa]));
      [solve_Permutation|].
    rewrite H. solve_Permutation.
Qed.

End WiringFacts.

(** ** The texts of the labels *)

Module LabelFacts.
Import JS FilterGraph Expect NumeralFacts RoutesFacts.

Lemma show_nat_inj n m : show_nat n = show_nat m -> n = m.
Proof.
  intros H. apply Nat2Z.inj. by rewrite <- !show_nat_value, H.
Qed.

Lemma show_nat_head n :
  exists c r, show_nat n = c :: r /\ is_digit c = true.
Proof. apply head_digit, show_nat_all_digits. Qed.

(** Two runs of digits followed by a colon. *)
Lemma digits_colon (d1 : jsstring) : forall d2 r1 r2 : jsstring,
  Forall (fun c => is_digit c = true) d1 ->
  Forall (fun c => is_digit c = true) d2 ->
  d1 ++ 58%N :: r1 = d2 ++ 58%N :: r2 -> d1 = d2 /\ r1 = r2.
Proof.
  induction d1 as [|c d1 IH]; intros [|c' d2] r1 r2 H1 H2 E; cbn in E.
  - by injection E.
  - injection E as <- _. by inversion H2.
  - injection E as -> _. by inversion H1.
  - injection E as -> E. inversion H1; inversion H2; subst.
    destruct (IH d2 r1 r2) as [-> ->]; done.
Qed.

Ltac label_clash H :=
  repeat match type of H with
  | context [show_nat ?i] =>
      let c := fresh "c" in
      let r := fresh "r" in
      let E := fresh "E" in
      let Hc := fresh "Hc" in
      destruct (show_nat_head i) as (c & r & E & Hc); rewrite E in H; clear E
  end;
  vm_compute in H; simplify_eq;
  repeat match goal with
  | Hc : is_digit _ = true |- _ => first [by vm_compute in Hc | clear Hc]
  end.

Lemma label_name_inj l1 l2 : label_name l1 = label_name l2 -> l1 = l2.
Proof.
  intros H.
  destruct l1 as [i|i|i|i|i|i|i|i|i|i| | | |],
           l2 as [j|j|j|j|j|j|j|j|j|j| | | |];
    cbn [label_name] in H; try reflexivity;
    try (f_equal; apply show_nat_inj;
         first [exact (app_inv_head _ _ _ H) | exact (app_inv_tail _ _ _ H)]);
    try (apply (digits_colon _ _ [_] [_]) in H as [_ H];
         [discriminate H | apply show_nat_digits | apply show_nat_digits]);
    label_clash H.
Qed.

Lemma render_label_inj l1 l2 : render_label l1 = render_label l2 -> l1 = l2.
Proof.
  unfold render_label. intros H. apply app_inv_head in H.
  apply app_inv_tail in H. by apply label_name_inj.
Qed.

End LabelFacts.

(** ** The size of a graph *)

Module SizeFacts.
Import JS FilterGraph Overlay NClip Shape Loops.

Lemma length_flat_map_const {A} (f : nat -> list A) c : forall k a,
  (forall i, a <= i < a + k -> length (f i) = c) ->
  length (flat_map f (seq a k)) = c * k.
Proof.
  induction k as [|k IH]; intros a H; cbn [seq flat_map]; [simpl; lia|].
  rewrite length_app, IH, H by (intros; try apply H; lia). lia.
Qed.

Lemma length_clip_fades o n : forall k,
  k <= n ->
  length (flat_map (clip_fades o n) (seq 0 k))
  = 2 * (k - 1) + 2 * Nat.min k (n - 1).
Proof.
  induction k as [|k IH]; intros Hk; [reflexivity|].
  rewrite seq_S, flat_map_app, length_app, IH by lia.
  cbn [flat_map Nat.add]. rewrite app_nil_r.
  unfold clip_fades, fade_in_nodes, fade_out_nodes.
  destruct (Nat.ltb_spec 0 k); destruct (Nat.ltb_spec k (n - 1));
    cbn [length app]; lia.
Qed.

Lemma length_join_filters o :
  let n := length (videos o) in
  length (join_filters o)
  = if is_lit (transition o) "fade" && (1 <? n) then 4 * (n - 1) + 1
    else if is_lit (transition o) "crossfade" && (1 <? n) then 2 * (n - 1)
    else 1.
Proof.
  intros n. unfold join_filters. fold n.
  destruct (is_lit (transition o) "fade" && (1 <? n)) eqn:Hf.
  - apply andb_true_iff in Hf as [_ Hn]. apply Nat.ltb_lt in Hn.
    rewrite length_app, length_clip_fades by lia. cbn [length]. lia.
  - destruct (is_lit (transition o) "crossfade" && (1 <? n)); [|reflexivity].
    apply (length_flat_map_const (clip_xfade o n) 2). reflexivity.
Qed.

Lemma length_overlay_nodes wm to :
  length (overlay_nodes wm to) = if has_watermark wm then 1 else 0.
Proof.
  unfold overlay_nodes. destruct wm as [w|]; [|reflexivity].
  by destruct (has_watermark (Some w)).
Qed.

End SizeFacts.

(** ** The controller *)

Module ControllerFacts.
Import JS Lib Controller.

Lemma existsSync_true (d : disk) p : existsSync d p = true <-> is_Some (d !! p).
Proof. unfold existsSync. apply bool_decide_eq_true. Qed.

Lemma existsSync_false (d : disk) p : existsSync d p = false <-> d !! p = None.
Proof.
  unfold existsSync. rewrite bool_decide_eq_false.
  symmetry. apply eq_None_not_Some.
Qed.

(** What is left of the disk after the uploads were removed. *)
Lemma remove_uploads_lookup (fs : list file) : forall (d : disk) p,
  remove_uploads fs d !! p
  = if bool_decide (p ∈ map path fs)
    then match d !! p with Some regular => None | o => o end
    else d !! p.
Proof.
  unfold remove_uploads.
  induction fs as [|f fs IH]; intros d p; cbn [foldl map].
  - rewrite bool_decide_eq_false_2; [done|]. apply not_elem_of_nil.
  - rewrite IH. unfold unlink_quietly, unlinkSync.
    destruct (decide (p = path f)) as [->|Hne].
    + rewrite (bool_decide_eq_true_2 (path f ∈ path f :: map path fs))
        by apply list_elem_of_here.
      destruct (d !! path f) as [[|]|] eqn:E.
      * rewrite lookup_delete_eq. by destruct (bool_decide _).
      * rewrite E. by destruct (bool_decide _).
      * rewrite E. by destruct (bool_decide _).
    + assert (bool_decide (p ∈ path f :: map path fs)
              = bool_decide (p ∈ map path fs)) as ->.
      { apply bool_decide_ext. rewrite elem_of_cons. tauto. }
      destruct (d !! path f) as [[|]|] eqn:E; try done.
      by rewrite lookup_delete_ne.
Qed.

Lemma allowed_types_video (t : jsstring) :
  t ∈ ALLOWED_TYPES -> starts_with (lit "video/") t = true.
Proof.
  unfold ALLOWED_TYPES. cbn [map]. intros H.
  repeat (apply elem_of_cons in H as [->|H]; [by vm_compute|]).
  by apply elem_of_nil in H.
Qed.

(** [find] as the loop that returns at the first hit. *)
Lemma find_none_Forall {A} (f : A -> bool) (l : list A) :
  List.find f l = None <-> Forall (fun x => f x = false) l.
Proof.
  induction l as [|x l IH]; cbn; [split; [constructor|done]|].
  destruct (f x) eqn:E.
  - split; [done|]. intros H. inversion H; congruence.
  - rewrite IH. split; [by constructor|]. by inversion 1.
Qed.

Lemma find_some_first {A} (f : A -> bool) (l : list A) x :
  List.find f l = Some x -> x ∈ l /\ f x = true.
Proof.
  intros H. apply List.find_some in H as [H1 H2].
  by rewrite list_elem_of_In.
Qed.

(** A file list that [uploadVideos] lets through is short and of allowed
    types. *)
Lemma uploadVideos_valid (uploaded : option (list file)) (d : disk) :
  match uploadVideos uploaded d with
  | (files_info fs, _) =>
      uploaded = Some fs /\ Forall (fun f => mimetype f ∈ ALLOWED_TYPES) fs
  | _ => True
  end.
Proof.
  unfold uploadVideos. destruct uploaded as [[|f fs]|]; try done.
  destruct (2 <? length (f :: fs)); [done|].
  destruct (List.find _ _) as [g|] eqn:Ef; [done|].
  apply find_none_Forall in Ef. split; [done|].
  eapply Forall_impl; [exact Ef|].
  intros g Hg. by apply negb_false_iff, bool_decide_eq_true in Hg.
Qed.

Section Jobs.

Variable outputDir : jsstring.
Variable path_join : jsstring -> jsstring -> jsstring.

Lemma verify_all_exist (d : disk) (vs : list (option item)) :
  verify d vs = all_exist <->
  Forall (fun o => exists v, o = Some v /\ exists_item d v = true) vs.
Proof.
  induction vs as [|[v|] vs IH]; cbn.
  - split; [constructor|done].
  - destruct (exists_item d v) eqn:E.
    + rewrite IH. split.
      * intros H. constructor; [by exists v|done].
      * by inversion 1.
    + split; [done|]. intros H. inversion H as [|? ? Hx _]; subst.
      destruct Hx as (v' & Hv' & Hv). injection Hv' as <-. congruence.
  - split; [done|]. intros H. inversion H as [|? ? Hx _]; subst.
    by destruct Hx as (v' & Hv' & _).
Qed.

(** The clean-up only deletes. *)
Lemma unlink_existing_lookup (d d' : disk) p :
  unlink_existing d p = Some d' ->
  (forall q, d' !! q = None \/ d' !! q = d !! q)
  /\ (forall q, d !! q = None -> d' !! q = None)
  /\ (forall s, p = Some s -> s <> [] -> d' !! s = None)
  /\ (forall q, p <> Some q -> d' !! q = d !! q).
Proof.
  unfold unlink_existing.
  destruct p as [s|]; [|intros [= <-]; repeat split; by auto].
  destruct (nonempty s) eqn:Hs; cbn [andb].
  - destruct (existsSync d s) eqn:He.
    + unfold unlinkSync. destruct (d !! s) as [[|]|] eqn:E; try done.
      intros [= <-]. repeat split.
      * intros q. destruct (decide (q = s)) as [->|];
          [left; apply lookup_delete_eq|right; by apply lookup_delete_ne].
      * intros q Hq. destruct (decide (q = s)) as [->|];
          [apply lookup_delete_eq|by rewrite lookup_delete_ne].
      * intros ? [= <-] _. apply lookup_delete_eq.
      * intros q Hq. apply lookup_delete_ne. congruence.
    + intros [= <-]. apply existsSync_false in He. repeat split; auto.
      by intros ? [= <-] _.
  - intros [= <-]. repeat split; auto. intros ? [= <-]. by destruct s.
Qed.

Lemma unlink_videos_lookup (vs : list (option item)) : forall d d' : disk,
  unlink_videos d vs = (d', true) ->
  (forall q, d !! q = None -> d' !! q = None)
  /\ (forall v s, Some v ∈ vs -> item_path v = Some s -> s <> [] ->
        d' !! s = None)
  /\ (forall q, (forall v, Some v ∈ vs -> item_path v <> Some q) ->
        d' !! q = d !! q).
Proof.
  induction vs as [|[v|] vs IH]; intros d d'; cbn.
  - intros [= <-]. repeat split; auto. intros v s Hv. by apply elem_of_nil in Hv.
  - destruct (unlink_existing d (item_path v)) as [d1|] eqn:E; [|done].
    intros H. destruct (IH _ _ H) as (Hmono & Hgone & Hframe).
    destruct (unlink_existing_lookup _ _ _ E) as (_ & Hmono1 & Hgone1 & Hframe1).
    repeat split.
    + auto.
    + intros w s Hw Hp Hs. apply elem_of_cons in Hw as [[= <-]|Hw].
      * apply Hmono. by apply Hgone1.
      * by apply (Hgone w).
    + intros q Hq. rewrite Hframe.
      * apply Hframe1. apply Hq, list_elem_of_here.
      * intros w Hw. apply Hq. by apply list_elem_of_further.
  - done.
Qed.

(** What [startMerge] answers, and what it does to the jobs. *)
Lemma startMerge_cases
    (videos : option (list (option item))) (format jobId : jsstring)
    (st : state) :
  match startMerge outputDir path_join videos format jobId st with
  | (merge_started id, st') =>
      id = jobId
      /\ (exists a b,
            videos = Some [Some a; Some b]
            /\ exists_item (files st) a = true
            /\ exists_item (files st) b = true
            /\ jobs st' !! jobId
               = Some (Job zero processing
                           (output_path outputDir path_join jobId format)
                           [Some a; Some b] None))
      /\ (forall id', id' <> jobId -> jobs st' !! id' = jobs st !! id')
  | (error code _, st') => (code = 400 \/ code = 500) /\ st' = st
  | _ => False
  end.
Proof.
  unfold startMerge. destruct videos as [vs|]; [|by auto].
  destruct (Nat.eqb_spec (length vs) 2) as [Hl|Hl]; cbn [negb]; [|by auto].
  destruct (verify (files st) vs) eqn:Ev; [|by auto|by auto].
  apply verify_all_exist in Ev.
  destruct vs as [|x [|y [|? ?]]]; try done.
  inversion Ev as [|? ? (a & -> & Ha) Ev']; subst.
  inversion Ev' as [|? ? (b & -> & Hb) _]; subst.
  split; [done|]. split.
  - exists a, b. cbn [jobs]. by rewrite lookup_insert_eq.
  - intros id' Hid. cbn [jobs]. by rewrite lookup_insert_ne.
Qed.

End Jobs.

End ControllerFacts.

(** ** White space *)

Module TrimFacts.
Import JS Lib Expect.

Lemma skip_ws_head (s : jsstring) :
  match skip_ws s with [] => True | c :: _ => is_ws c = false end.
Proof.
  induction s as [|c s IH]; cbn; [done|].
  destruct (is_ws c) eqn:E; [done|]. exact E.
Qed.

Lemma skip_ws_suffix (s : jsstring) : exists pre, s = pre ++ skip_ws s.
Proof.
  induction s as [|c s [pre IH]]; cbn; [by exists []|].
  destruct (is_ws c); [|by exists []].
  exists (c :: pre). cbn. by rewrite <- IH.
Qed.

Lemma skip_ws_fixed (s : jsstring) :
  match s with [] => True | c :: _ => is_ws c = false end -> skip_ws s = s.
Proof. destruct s as [|c s]; cbn; [done|]. by intros ->. Qed.

(** [trim] is idempotent. *)
Lemma trim_trim (s : jsstring) : JS.trim (JS.trim s) = JS.trim s.
Proof.
  unfold JS.trim. set (a := skip_ws s). set (b := skip_ws (rev a)).
  assert (skip_ws (rev b) = rev b) as ->.
  { apply skip_ws_fixed. destruct (skip_ws_suffix (rev a)) as [pre Hpre].
    fold b in Hpre. assert (a = rev b ++ rev pre) as Ha.
    { rewrite <- (rev_involutive a), Hpre. by rewrite rev_app_distr. }
    pose proof (skip_ws_head s) as Hh. fold a in Hh. rewrite Ha in Hh.
    by destruct (rev b). }
  rewrite rev_involutive. f_equal. apply skip_ws_fixed, skip_ws_head.
Qed.

Lemma trim_nil_nonempty (s : jsstring) :
  nonempty (JS.trim (JS.trim s)) = nonempty (JS.trim s).
Proof. by rewrite trim_trim. Qed.

End TrimFacts.

(** ** Lines *)

Module LineFacts.
Import JS Lib Expect SplitFacts TrimFacts Frontend.

Lemma removelast_cons {A} (x : A) (l : list A) :
  l <> [] -> removelast (x :: l) = x :: removelast l.
Proof. by destruct l. Qed.

Lemma last_cons {A} (x : A) (l : list A) d :
  l <> [] -> List.last (x :: l) d = List.last l d.
Proof. by destruct l. Qed.

Lemma last_app_r {A} (l1 l2 : list A) d :
  l2 <> [] -> List.last (l1 ++ l2) d = List.last l2 d.
Proof.
  intros H. induction l1 as [|x l1 IH]; [done|].
  cbn [app]. rewrite last_cons; [done|]. by destruct l1, l2.
Qed.

(** Splitting a text that arrives in two parts. *)
Lemma split_on_parts c (a b : jsstring) :
  split_on c (a ++ b)
  = removelast (split_on c a)
    ++ split_on c (List.last (split_on c a) [] ++ b).
Proof.
  induction a as [|x a IH]; [reflexivity|].
  cbn [app split_on]. destruct (x =? c)%N eqn:Ex.
  - rewrite IH, removelast_cons, last_cons by apply split_on_nonempty.
    reflexivity.
  - rewrite IH. destruct (split_on c a) as [|p [|q ps]] eqn:E.
    + by apply split_on_nonempty in E.
    + cbn [removelast List.last app split_on]. by rewrite Ex.
    + reflexivity.
Qed.

(** The last piece holds no separator. *)
Lemma last_split_clean c (a : jsstring) :
  Forall (fun x => x <> c) (List.last (split_on c a) []).
Proof.
  induction a as [|x a IH]; cbn [split_on]; [constructor|].
  destruct (N.eqb_spec x c) as [->|Hx].
  - by rewrite last_cons by apply split_on_nonempty.
  - destruct (split_on c a) as [|p [|q ps]] eqn:E.
    + by apply split_on_nonempty in E.
    + cbn in *. by constructor.
    + exact IH.
Qed.

Lemma split_on_tail c (a : jsstring) :
  let t := List.last (split_on c a) [] in
  removelast (split_on c t) = [] /\ List.last (split_on c t) [] = t.
Proof.
  intros t. by rewrite (split_on_none c t) by apply last_split_clean.
Qed.

(** The lines that are complete, and the rest. *)
Lemma read_chunk_parts (a b : jsstring) :
  removelast (split_on 10 (a ++ b))
  = removelast (split_on 10 a)
    ++ removelast (split_on 10 (List.last (split_on 10 a) [] ++ b))
  /\ List.last (split_on 10 (a ++ b)) []
     = List.last (split_on 10 (List.last (split_on 10 a) [] ++ b)) [].
Proof.
  rewrite split_on_parts.
  pose proof (split_on_nonempty 10
                (List.last (split_on 10 a) [] ++ b)) as Hl.
  split.
  - by rewrite removelast_app.
  - by rewrite last_app_r.
Qed.

Section Reader.

Variable stops : jsstring -> bool.

Lemma handle_app (x y : list jsstring) :
  handle stops (x ++ y)
  = let '(h, returned) := handle stops x in
    if returned then (h, true)
    else let '(h', returned') := handle stops y in (h ++ h', returned').
Proof.
  induction x as [|f x IH]; cbn [app handle].
  - by destruct (handle stops y).
  - destruct (stops f); [done|]. rewrite IH.
    destruct (handle stops x) as [h []]; [done|].
    by destruct (handle stops y).
Qed.

(** Reading chunk by chunk is reading the whole text at once. *)
Lemma read_stream_whole (chunks : list jsstring) : forall buffer,
  removelast (split_on 10 buffer) = [] ->
  List.last (split_on 10 buffer) [] = buffer ->
  read_stream stops buffer chunks
  = handle stops
      (omap frame_text (removelast (split_on 10 (buffer ++ concat chunks)))).
Proof.
  induction chunks as [|c chunks IH]; intros buffer Hb1 Hb2.
  - cbn. by rewrite app_nil_r, Hb1.
  - cbn [read_stream concat read_chunk].
    destruct (read_chunk_parts (buffer ++ c) (concat chunks)) as [E _].
    rewrite <- app_assoc in E. rewrite E, omap_app, handle_app.
    destruct (handle stops _) as [h []]; [done|].
    destruct (split_on_tail 10 (buffer ++ c)) as [E1 E2].
    by rewrite (IH _ E1 E2).
Qed.

End Reader.

(** The lines of what the server writes. *)
Lemma split_frames (ps : list jsstring) :
  Forall one_line_json ps ->
  split_on 10 (flat_map Sse.send ps)
  = flat_map (fun p => [lit "data: " ++ p; []]) ps ++ [[]].
Proof.
  induction 1 as [|p ps (Hne & Hnl & Htrim) _ IH]; [reflexivity|].
  cbn [flat_map]. unfold Sse.send at 1. rewrite <- !app_assoc.
  rewrite (app_assoc (lit "data: ") p). cbn [app].
  rewrite split_on_app.
  - cbn [split_on N.eqb Pos.eqb]. by rewrite IH.
  - apply Forall_app. split; [by vm_compute; repeat constructor|].
    apply Forall_forall. intros x Hx ->. by apply Hnl.
Qed.

Lemma frame_text_data (p : jsstring) :
  one_line_json p -> frame_text (lit "data: " ++ p) = Some p.
Proof.
  intros (Hne & _ & Htrim). unfold frame_text.
  change (starts_with (lit "data: ") (lit "data: " ++ p)) with true.
  cbv beta iota. change (drop 6 (lit "data: " ++ p)) with p.
  rewrite Htrim. by destruct p.
Qed.

Lemma frames_of_lines (ps : list jsstring) :
  Forall one_line_json ps ->
  omap frame_text (flat_map (fun p => [lit "data: " ++ p; []]) ps) = ps.
Proof.
  induction 1 as [|p ps Hp _ IH]; [reflexivity|].
  cbn [flat_map]. rewrite omap_app, IH. cbn [omap list_omap].
  rewrite frame_text_data by done.
  by change (frame_text []) with (@None jsstring).
Qed.

End LineFacts.

(** ** Rounding *)

Module RoundFacts.
Import JS Lib.

Lemma Qfloor_eq (x : Q) (z : Z) :
  (inject_Z z <= x)%Q -> (x < inject_Z (z + 1))%Q -> Qfloor x = z.
Proof.
  intros H1 H2. pose proof (Qfloor_le x) as H3.
  pose proof (Qlt_floor x) as H4.
  assert (inject_Z z < inject_Z (Qfloor x + 1))%Q as H5 by lra.
  assert (inject_Z (Qfloor x) < inject_Z (z + 1))%Q as H6 by lra.
  rewrite <- Zlt_Qlt in H5, H6. lia.
Qed.

Lemma Qfloor_half (z : Z) : Qfloor (inject_Z z + (1 # 2)) = z.
Proof.
  apply Qfloor_eq; [lra|]. rewrite inject_Z_plus. change (inject_Z 1) with 1%Q.
  lra.
Qed.

(** [Math.round] of a whole number. *)
Lemma round_whole (z : Z) : round (Fin (inject_Z z)) = Fin (inject_Z z).
Proof. unfold round. by rewrite Qfloor_half. Qed.

Lemma round_mono (x y : Q) :
  (x <= y)%Q -> (Qfloor (x + (1 # 2)) <= Qfloor (y + (1 # 2)))%Z.
Proof. intros H. apply Qfloor_resp_le. lra. Qed.

End RoundFacts.

(** ** Minutes and seconds *)

Module ClockFacts.
Import JS Lib Expect Frontend RoundFacts.

Lemma two_digits_table :
  forallb (fun n => bool_decide (padStart2 (FilterGraph.show_nat n)
                                 = two_digits n))
          (seq 0 100) = true.
Proof. by vm_compute. Qed.

Lemma padStart2_show_nat n :
  n < 100 -> padStart2 (FilterGraph.show_nat n) = two_digits n.
Proof.
  intros Hn. pose proof two_digits_table as H.
  rewrite forallb_forall in H. specialize (H n).
  apply bool_decide_eq_true in H; [done|]. apply in_seq. lia.
Qed.

Lemma String_whole_nat (z : Z) :
  (0 <= z < 100)%Z ->
  String_whole (Fin (inject_Z z)) = Some (FilterGraph.show_nat (Z.to_nat z)).
Proof.
  intros Hz. unfold String_whole. rewrite Qfloor_Z.
  rewrite (proj2 (Qeq_bool_iff _ _)) by reflexivity.
  assert ((Z.abs z <? 10 ^ 21)%Z = true) as -> by (apply Z.ltb_lt; lia).
  assert ((z <? 0)%Z = false) as -> by (apply Z.ltb_ge; lia).
  cbn [andb app]. by rewrite Zabs2Nat.abs_nat_nonneg by lia.
Qed.

(** The truncated quotient of a number that is not negative is its
    floor. *)
Lemma quot_floor (x : Q) :
  (0 <= x)%Q -> Z.quot (Qnum x) (Zpos (Qden x)) = Qfloor x.
Proof.
  intros H. destruct x as [n d]. unfold Qle in H. cbn in *.
  apply Z.quot_div_nonneg; lia.
Qed.

Lemma minutes_seconds (q : Q) :
  (0 <= q)%Q -> (q < 6000)%Q ->
  let a := Qfloor (q / 60) in
  let b := Qfloor (q - 60 * inject_Z a) in
  (0 <= a < 100)%Z /\ (0 <= b < 60)%Z /\ Qfloor q = (60 * a + b)%Z.
Proof.
  intros H0 H1 a b.
  pose proof (Qfloor_le (q / 60)) as Ha1. pose proof (Qlt_floor (q / 60)) as Ha2.
  fold a in Ha1, Ha2. rewrite inject_Z_plus in Ha2.
  change (inject_Z 1) with 1%Q in Ha2.
  assert (q == 60 * (q / 60))%Q as Hq by (field; lra).
  assert (inject_Z a * 60 <= q)%Q as Hq1 by lra.
  assert (q < (inject_Z a + 1) * 60)%Q as Hq2 by lra.
  pose proof (Qfloor_le (q - 60 * inject_Z a)) as Hb1.
  pose proof (Qlt_floor (q - 60 * inject_Z a)) as Hb2.
  fold b in Hb1, Hb2. rewrite inject_Z_plus in Hb2.
  change (inject_Z 1) with 1%Q in Hb2.
  assert (-1 < inject_Z a)%Q as Ha3 by lra.
  assert (inject_Z a < 100)%Q as Ha4 by lra.
  assert (-1 < inject_Z b)%Q as Hb3 by lra.
  assert (inject_Z b < 60)%Q as Hb4 by lra.
  change (-1)%Q with (inject_Z (-1)) in Ha3, Hb3.
  change 100%Q with (inject_Z 100) in Ha4.
  change 60%Q with (inject_Z 60) in Hb4.
  rewrite <- Zlt_Qlt in Ha3, Ha4, Hb3, Hb4.
  split; [lia|]. split; [lia|].
  apply Qfloor_eq; rewrite ?inject_Z_plus, ?inject_Z_mult;
    change (inject_Z 60) with 60%Q; change (inject_Z 1) with 1%Q; lra.
Qed.

End ClockFacts.

(** ** Lemmas on the streaming controller *)

Module StreamingFacts.
Import JS Lib Controller Streaming ControllerFacts.

Lemma message_or_nonempty (message : option jsstring) :
  nonempty (message_or message) = true.
Proof.
  unfold message_or. destruct message as [m|]; [|reflexivity].
  destruct (nonempty m) eqn:E; [exact E|reflexivity].
Qed.

(** No frame of a progress event makes the front end return. *)
Lemma progress_frames_go_on (events : list (option number)) :
  Forall (fun f => returns f = false) (progress_frames events).
Proof.
  unfold progress_frames.
  induction events as [|e events IH]; cbn [omap list_omap]; [constructor|].
  destruct (Sse.forwarded e); cbn; [constructor; [reflexivity|]|]; exact IH.
Qed.

(** What is left of the disk after the temporary files were removed. *)
Lemma remove_temp_lookup (tempFiles : list jsstring) : forall (d : disk) p,
  remove_temp tempFiles d !! p
  = if bool_decide (p ∈ tempFiles)
    then match d !! p with Some regular => None | o => o end
    else d !! p.
Proof.
  unfold remove_temp.
  induction tempFiles as [|f fs IH]; intros d p; cbn [foldl].
  - rewrite bool_decide_eq_false_2; [done|]. apply not_elem_of_nil.
  - rewrite IH. clear IH.
    assert (step : unlink_temp d f
                   = match d !! f with Some regular => delete f d | _ => d end).
    { unfold unlink_temp, unlinkSync.
      destruct (d !! f) as [[|]|] eqn:E.
      - by rewrite (proj2 (existsSync_true d f)) by (rewrite E; by eexists).
      - by rewrite (proj2 (existsSync_true d f)) by (rewrite E; by eexists).
      - by rewrite (proj2 (existsSync_false d f) E). }
    rewrite step. clear step.
    destruct (decide (p = f)) as [->|Hne].
    + rewrite (bool_decide_eq_true_2 (f ∈ f :: fs)) by apply list_elem_of_here.
      destruct (d !! f) as [[|]|] eqn:E.
      * rewrite lookup_delete_eq. by destruct (bool_decide _).
      * rewrite E. by destruct (bool_decide _).
      * rewrite E. by destruct (bool_decide _).
    + assert (bool_decide (p ∈ f :: fs) = bool_decide (p ∈ fs)) as ->.
      { apply bool_decide_ext. rewrite elem_of_cons. tauto. }
      destruct (d !! f) as [[|]|] eqn:E; try done.
      by rewrite lookup_delete_ne.
Qed.

End StreamingFacts.

(** ** Further properties of the code *)

Module Further.
Import JS FilterGraph Lib Expect NumeralFacts.

(** *** routes/merge.js: [parseMaxFileSize] *)

Section MaxFileSize.
Import Routes RoutesFacts.

(** X1.  Whatever [MAX_FILE_SIZE] holds, [parseMaxFileSize] returns no
    NaN, no negative number and no fraction of 1024 bytes: it returns a
    whole number of kilobytes, or +Infinity for a run of digits beyond
    the range of a double. *)
Theorem parseMaxFileSize_whole_kilobytes (sizeStr : option jsstring) :
  parseMaxFileSize sizeStr = PInf
  \/ exists k : Z,
       (0 <= k)%Z /\ parseMaxFileSize sizeStr = Fin (inject_Z (1024 * k)).
Proof.
  assert (default : exists k : Z, (0 <= k)%Z /\
    Fin (500 * 1024 * 1024) = Fin (inject_Z (1024 * k))).
  { exists (500 * 1024)%Z. split; [lia|]. by vm_compute. }
  destruct sizeStr as [str|]; [|by right].
  destruct (digits_spec str 0 0) as (ds & rest & -> & Hd & Hr & Hdig).
  destruct ds as [|d ds'] eqn:Eds.
  { right. unfold parseMaxFileSize, match_size. destruct rest as [|c rest'].
    - exact default.
    - cbn [app nonempty]. cbn [app] in Hdig. by rewrite Hdig. }
  rewrite <- Eds in *. assert (all_digits ds) as Hall by (by subst).
  assert (nonempty (ds ++ rest) = true) as Hne by (by subst).
  pose proof (decimal_value_nonneg ds) as Hv.
  destruct rest as [|a [|b [|? ?]]].
  - rewrite app_nil_r, parseMaxFileSize_plain by done.
    change (1024 * 1024)%Z with (2 ^ 20)%Z. by apply kilobytes.
  - right. unfold parseMaxFileSize. rewrite Hne.
    by rewrite match_size_digits.
  - destruct (is_unit a b) eqn:Hu.
    + rewrite parseMaxFileSize_unit by done.
      destruct (unit_bytes_cases a) as [->|[->| ->]]; by apply kilobytes.
    + right. unfold parseMaxFileSize. rewrite Hne.
      rewrite match_size_digits by done. by rewrite Hu.
  - right. unfold parseMaxFileSize. rewrite Hne.
    by rewrite match_size_digits.
Qed.

(** X2.  A size written as a decimal number [n] below 2^53 followed by
    [kb], [mb] or [gb], in any mix of upper and lower case, is [n] times
    1024, 1024^2 or 1024^3 bytes; without a unit it is [n] megabytes.
    Nothing is rounded there; from 2^53 on [parseInt] rounds. *)
Theorem parseMaxFileSize_value (n : nat) (a b : N) :
  is_unit a b = true -> (Z.of_nat n < 2 ^ 53)%Z ->
  parseMaxFileSize (Some (show_nat n ++ [a; b]))
  = Fin (inject_Z (Z.of_nat n * unit_bytes a))
  /\ parseMaxFileSize (Some (show_nat n))
     = Fin (inject_Z (Z.of_nat n * (1024 * 1024))).
Proof.
  intros Hu Hn. rewrite <- (show_nat_value n) in *.
  pose proof (decimal_value_nonneg (show_nat n)) as H0. split.
  - rewrite parseMaxFileSize_unit by (apply show_nat_all_digits || done).
    destruct (unit_bytes_cases a) as [->|[->| ->]]; by apply exact_bytes.
  - rewrite parseMaxFileSize_plain by apply show_nat_all_digits.
    change (1024 * 1024)%Z with (2 ^ 20)%Z. by apply exact_bytes.
Qed.

Lemma parseMaxFileSize_value_witness :
  is_unit 71 66 = true /\ (Z.of_nat 2 < 2 ^ 53)%Z
  /\ parseMaxFileSize (Some (show_nat 2 ++ [71; 66]%N))
     = Fin (inject_Z (Z.of_nat 2 * unit_bytes 71))
  /\ parseMaxFileSize (Some (show_nat 2))
     = Fin (inject_Z (Z.of_nat 2 * (1024 * 1024))).
Proof.
  assert (H1 : is_unit 71 66 = true) by reflexivity.
  assert (H2 : (Z.of_nat 2 < 2 ^ 53)%Z) by (vm_compute; reflexivity).
  split; [exact H1|]. split; [exact H2|].
  exact (parseMaxFileSize_value 2 71 66 H1 H2).
Defined.

(** X3.  An unset or empty [MAX_FILE_SIZE] is 500 megabytes, and so is
    every value that holds a code unit other than a digit and the letters
    of the units: white space, a sign, a decimal point. *)
Theorem parseMaxFileSize_default (str : jsstring) (c : N) :
  c ∈ str -> stray c = true ->
  parseMaxFileSize (Some str) = Fin 524288000
  /\ parseMaxFileSize None = Fin 524288000
  /\ parseMaxFileSize (Some []) = Fin 524288000.
Proof.
  intros Hc Hs. split; [|split; by vm_compute].
  assert (nonempty str = true) as Hne.
  { destruct str; [by apply elem_of_nil in Hc|done]. }
  assert (match_size str = None) as Hm.
  { destruct (digits_spec str 0 0) as (ds & rest & E & Hd & Hr & Hdig).
    unfold match_size. rewrite Hdig.
    destruct (0 + length ds) eqn:El; [done|].
    assert (c ∈ rest) as Hcr.
    { rewrite E in Hc. apply elem_of_app in Hc as [Hc|Hc]; [|done].
      rewrite Forall_forall in Hd. specialize (Hd c Hc).
      unfold stray in Hs. by rewrite Hd in Hs. }
    destruct rest as [|a [|b [|? ?]]]; try done.
    - by apply elem_of_nil in Hcr.
    - destruct (is_unit a b) eqn:Hu; [|done].
      destruct (is_unit_cases a b Hu) as [Ha Hb].
      apply elem_of_cons in Hcr as [->|Hcr];
        [|apply elem_of_cons in Hcr as [->|Hcr];
          [|by apply elem_of_nil in Hcr]].
      + Closedness.inv_elem; by vm_compute in Hs.
      + Closedness.inv_elem; by vm_compute in Hs. }
  unfold parseMaxFileSize. rewrite Hne, Hm. by vm_compute.
Qed.

Lemma parseMaxFileSize_default_witness :
  46%N ∈ lit "1.5gb" /\ stray 46 = true
  /\ parseMaxFileSize (Some (lit "1.5gb")) = Fin 524288000
  /\ parseMaxFileSize None = Fin 524288000
  /\ parseMaxFileSize (Some []) = Fin 524288000.
Proof.
  assert (H1 : 46%N ∈ lit "1.5gb")
    by (apply elem_of_cons; right; apply elem_of_cons; left; reflexivity).
  assert (H2 : stray 46 = true) by reflexivity.
  split; [exact H1|]. split; [exact H2|].
  exact (parseMaxFileSize_default (lit "1.5gb") 46 H1 H2).
Defined.

End MaxFileSize.

(** *** utils/ffmpegHelper.js (n clips): [parseResolution] *)

Section Resolution.
Import Encoding NumberFacts SplitFacts RoutesFacts.

(** X4.  Whatever the resolution string, the width and the height that
    [parseResolution] returns are truthy: neither 0 nor NaN.  A piece
    that is missing, empty, zero or not a number gives 1920 or 1080. *)
Theorem parseResolution_truthy (resString : jsstring) :
  truthy (fst (parseResolution resString)) = true
  /\ truthy (snd (parseResolution resString)) = true.
Proof.
  unfold parseResolution. cbn [fst snd].
  assert (forall (o : option number) d, truthy d = true ->
    truthy match o with Some x => or_else x d | None => d end = true) as H.
  { intros [x|] d Hd; [|done]. unfold or_else. by destruct (truthy x) eqn:E. }
  split; by apply H.
Qed.

(** X5.  A resolution written as two decimal numbers below 2^53 with an
    [x] between them is read back as these numbers, a 0 being replaced
    by the default. *)
Theorem parseResolution_round_trip (w h : nat) :
  (Z.of_nat w < 2 ^ 53)%Z -> (Z.of_nat h < 2 ^ 53)%Z ->
  parseResolution (show_nat w ++ lit "x" ++ show_nat h)
  = (Fin (if w =? 0 then 1920 else inject_Z (Z.of_nat w)),
     Fin (if h =? 0 then 1080 else inject_Z (Z.of_nat h))).
Proof.
  intros Hw Hh. unfold parseResolution. rewrite split_x_eq.
  change (lit "x" ++ show_nat h) with (120%N :: show_nat h).
  rewrite split_on_app by (by apply digits_not; [|apply show_nat_digits]).
  rewrite split_on_none by (by apply digits_not; [|apply show_nat_digits]).
  cbn [map lookup list_lookup fst snd].
  assert (forall n d, (Z.of_nat n < 2 ^ 53)%Z ->
    or_else (Number (show_nat n)) (Fin d)
    = Fin (if n =? 0 then d else inject_Z (Z.of_nat n))) as H.
  { intros n d Hn.
    rewrite (Number_digits _ (show_nat_all_digits n)), show_nat_value.
    rewrite DoubleFacts.to_double_int by lia.
    unfold or_else, truthy.
    destruct (Nat.eqb_spec n 0) as [->|Hne]; [done|].
    destruct (Qeq_bool (inject_Z (Z.of_nat n)) 0) eqn:Eq; [|done].
    apply Qeq_bool_iff in Eq. unfold Qeq in Eq. cbn in Eq. lia. }
  by rewrite !H.
Qed.

Lemma parseResolution_round_trip_witness :
  (Z.of_nat 1280 < 2 ^ 53)%Z /\ (Z.of_nat 0 < 2 ^ 53)%Z
  /\ parseResolution (show_nat 1280 ++ lit "x" ++ show_nat 0)
     = (Fin (inject_Z (Z.of_nat 1280)), Fin 1080).
Proof.
  assert (H1 : (Z.of_nat 1280 < 2 ^ 53)%Z) by (vm_compute; reflexivity).
  assert (H2 : (Z.of_nat 0 < 2 ^ 53)%Z) by (vm_compute; reflexivity).
  split; [exact H1|]. split; [exact H2|].
  exact (parseResolution_round_trip 1280 0 H1 H2).
Defined.

End Resolution.

(** *** utils/ffmpegHelper.js (n clips): the progress handler *)

Section Progress.
Import Encoding NumberFacts SplitFacts RoutesFacts.

(** X6.  Whatever the time mark and the total duration, a garbled mark
    and a total of 0 included, the progress handler reports a number
    below 100 or NaN; 100 is reported by the end handler alone. *)
Theorem progress_below_100 (timemark : option jsstring)
    (totalDuration p : number) :
  on_progress timemark totalDuration = Some p ->
  isNaN p = true \/ lt p on_end = true.
Proof.
  unfold on_progress. destruct timemark as [t|]; [|done].
  destruct (nonempty t); [|done]. intros [= <-]. unfold percent_at.
  destruct (round _) as [q| | |]; cbn; auto.
  destruct (Qle_bool q 99) eqn:E; cbn; [|by right].
  right. apply Qle_bool_iff in E.
  apply negb_true_iff. apply not_true_iff_false. intros H.
  apply Qle_bool_iff in H. lra.
Qed.

Lemma progress_below_100_witness :
  on_progress (Some (lit "00:00:30.50")) (Fin 20) = Some (Fin 99)
  /\ (isNaN (Fin 99) = true \/ lt (Fin 99) on_end = true).
Proof.
  assert (on_progress (Some (lit "00:00:30.50")) (Fin 20) = Some (Fin 99))
    as H by (by vm_compute).
  split; [exact H|]. exact (progress_below_100 _ _ _ H).
Defined.

(** The percentage for a finite time and a positive total. *)
Lemma percent_at_Fin (c t : Q) :
  (0 < t)%Q ->
  percent_at (Fin c) (Fin t)
  = Fin (inject_Z (Z.min (Qfloor (c / t * 100 + (1 # 2))) 99)).
Proof.
  intros Ht. unfold percent_at, div, Qis_zero.
  destruct (Qeq_bool t 0) eqn:E; [apply Qeq_bool_iff in E; lra|].
  cbn [mul round min].
  set (z := Qfloor _). unfold lt.
  destruct (Qle_bool (inject_Z z) 99) eqn:Ez; cbn [negb].
  - apply Qle_bool_iff in Ez. change 99%Q with (inject_Z 99) in Ez.
    rewrite <- Zle_Qle in Ez. by rewrite Z.min_l.
  - assert (~ (inject_Z z <= 99)%Q) as Hn
      by (intros H; apply Qle_bool_iff in H; congruence).
    change 99%Q with (inject_Z 99) in Hn. rewrite <- Zle_Qle in Hn.
    by rewrite Z.min_r by lia.
Qed.

(** X7.  For a positive total duration and times that do not decrease,
    the reported percentages are whole numbers between 0 and 99 that do
    not decrease, and 99 is reported from the total duration on. *)
Theorem progress_monotone (c1 c2 t : Q) :
  (0 <= c1)%Q -> (c1 <= c2)%Q -> (0 < t)%Q ->
  exists k1 k2 : Z,
    percent_at (Fin c1) (Fin t) = Fin (inject_Z k1)
    /\ percent_at (Fin c2) (Fin t) = Fin (inject_Z k2)
    /\ (0 <= k1 <= k2)%Z /\ (k2 <= 99)%Z
    /\ ((t <= c2)%Q -> k2 = 99%Z).
Proof.
  intros H1 H12 Ht. rewrite !percent_at_Fin by done.
  eexists _, _. split; [reflexivity|]. split; [reflexivity|].
  assert (forall a b, (a <= b)%Q -> (a / t * 100 + (1 # 2) <= b / t * 100 + (1 # 2))%Q)
    as Hmono.
  { intros a b Hab. apply Qplus_le_l. apply Qmult_le_compat_r; [|lra].
    apply Qmult_le_compat_r; [done|]. apply Qinv_le_0_compat. lra. }
  assert (0 <= Qfloor (c1 / t * 100 + (1 # 2)))%Z as H0.
  { change 0%Z with (Qfloor 0). apply Qfloor_resp_le.
    specialize (Hmono 0%Q c1 H1).
    assert (0 / t * 100 == 0)%Q as E by (unfold Qdiv; ring). lra. }
  pose proof (Qfloor_resp_le _ _ (Hmono c1 c2 H12)) as Hle.
  repeat split; try lia.
  intros Htc. apply Z.min_r.
  change 99%Z with (Qfloor (inject_Z 99)). apply Qfloor_resp_le.
  specialize (Hmono t c2 Htc).
  assert (t / t * 100 == 100)%Q as E by (field; lra).
  change (inject_Z 99) with 99%Q. lra.
Qed.

Lemma progress_monotone_witness :
  (0 <= 30)%Q /\ (30 <= 75)%Q /\ (0 < 60)%Q
  /\ exists k1 k2 : Z,
       percent_at (Fin 30) (Fin 60) = Fin (inject_Z k1)
       /\ percent_at (Fin 75) (Fin 60) = Fin (inject_Z k2)
       /\ (0 <= k1 <= k2)%Z /\ (k2 <= 99)%Z
       /\ ((60 <= 75)%Q -> k2 = 99%Z).
Proof.
  assert (H1 : (0 <= 30)%Q) by (unfold Qle; cbn; lia).
  assert (H2 : (30 <= 75)%Q) by (unfold Qle; cbn; lia).
  assert (H3 : (0 < 60)%Q) by (unfold Qlt; cbn; lia).
  split; [exact H1|]. split; [exact H2|]. split; [exact H3|].
  exact (progress_monotone 30 75 60 H1 H2 H3).
Defined.

(** X8.  A time mark [HH:MM:SS.FF] made of decimal digits, for a time
    [T = 3600 HH + 60 MM + SS.FF] below 2^20 seconds, is read as a number
    of seconds within 2^-32 of [T]: the seconds [SS.FF] are rounded to a
    double, and so is the last sum. *)
Theorem currentSeconds_clock (hh mm ss ff : jsstring) :
  let T :=
    (inject_Z (3600 * decimal_value hh + 60 * decimal_value mm
               + decimal_value ss)
     + inject_Z (decimal_value ff) / inject_Z (10 ^ Z.of_nat (length ff)))%Q in
  all_digits hh -> all_digits mm -> all_digits ss ->
  Forall (fun c => is_digit c = true) ff ->
  (T < inject_Z (2 ^ 20))%Q ->
  exists c,
    currentSeconds (hh ++ lit ":" ++ mm ++ lit ":" ++ ss ++ lit "." ++ ff)
    = Fin c
    /\ (Qabs (c - T) <= 1 # 2 ^ 32)%Q.
Proof.
  intros T Hh Hm Hs Hf HT. unfold currentSeconds.
  change (hh ++ lit ":" ++ mm ++ lit ":" ++ ss ++ lit "." ++ ff)
    with (hh ++ 58%N :: (mm ++ 58%N :: (ss ++ 46%N :: ff))).
  rewrite split_on_app by (apply (digits_not 58); [done|apply Hh]).
  rewrite split_on_app by (apply (digits_not 58); [done|apply Hm]).
  rewrite split_on_none.
  2:{ apply Forall_app. split; [apply (digits_not 58); [done|apply Hs]|].
      constructor; [done|]. by apply (digits_not 58). }
  cbn [map lookup list_lookup toNumber].
  rewrite (Number_digits hh Hh), (Number_digits mm Hm),
    (Number_fraction ss ff Hs Hf).
  pose proof (decimal_value_nonneg hh) as H0.
  pose proof (decimal_value_nonneg mm) as M0.
  pose proof (decimal_value_nonneg ss) as S0.
  pose proof (decimal_value_nonneg ff) as F0.
  set (H := decimal_value hh) in *. set (M := decimal_value mm) in *.
  set (S := decimal_value ss) in *.
  set (frac := (inject_Z (decimal_value ff)
                / inject_Z (10 ^ Z.of_nat (length ff)))%Q) in *.
  assert (0 <= frac)%Q as Hfrac.
  { unfold frac. apply Qle_shift_div_l.
    - change 0%Q with (inject_Z 0). rewrite <- Zlt_Qlt.
      apply Z.pow_pos_nonneg; lia.
    - rewrite Qmult_0_l. change 0%Q with (inject_Z 0). by rewrite <- Zle_Qle. }
  assert (3600 * H + 60 * M + S < 2 ^ 20)%Z as Hwhole.
  { rewrite Zlt_Qlt. unfold T in HT. lra. }
  assert (2 ^ 20 < 2 ^ 53)%Z as Hbig by (by vm_compute).
  rewrite !DoubleFacts.to_double_int by lia. cbn [mul double].
  rewrite (DoubleFacts.to_double_proper _ (inject_Z (3600 * H)))
    by (rewrite inject_Z_mult; apply Qmult_comm).
  rewrite (DoubleFacts.to_double_proper (inject_Z M * 60) (inject_Z (60 * M)))
    by (rewrite inject_Z_mult; apply Qmult_comm).
  rewrite !DoubleFacts.to_double_int by lia. cbn [add double].
  rewrite (DoubleFacts.to_double_proper _ (inject_Z (3600 * H + 60 * M)))
    by (by rewrite inject_Z_plus).
  rewrite DoubleFacts.to_double_int by lia.
  set (N := (3600 * H + 60 * M)%Z) in *.
  assert (0 <= inject_Z N)%Q as HN0
    by (change 0%Q with (inject_Z 0); rewrite <- Zle_Qle; lia).
  assert (0 <= inject_Z S)%Q as HS0
    by (change 0%Q with (inject_Z 0); by rewrite <- Zle_Qle).
  assert (T == inject_Z N + (inject_Z S + frac))%Q as ET.
  { unfold T. fold H M S frac N. rewrite inject_Z_plus. ring. }
  assert (inject_Z (2 ^ 21) == 2 * inject_Z (2 ^ 20))%Q as E21 by done.
  assert (1 <= inject_Z (2 ^ 20))%Q as H20 by done.
  destruct (DoubleFacts.to_double_near (inject_Z S + frac) 20)
    as (s & Es & Hs0 & Hs1); [lra|lra|lia|].
  rewrite Es. cbn [add double].
  change (1 # Z.to_pos (2 ^ (54 - 20)))%Q with (1 # 2 ^ 34)%Q in Hs1.
  apply Qabs_Qle_condition in Hs1.
  assert ((1 # 2 ^ 34) <= 1)%Q as Hsmall by done.
  destruct (DoubleFacts.to_double_near (inject_Z N + s) 21)
    as (c & Ec & _ & Hc1); [lra|lra|lia|].
  exists c. split; [exact Ec|].
  change (1 # Z.to_pos (2 ^ (54 - 21)))%Q with (1 # 2 ^ 33)%Q in Hc1.
  apply Qabs_Qle_condition in Hc1. apply Qabs_Qle_condition.
  assert ((1 # 2 ^ 33) + (1 # 2 ^ 34) <= 1 # 2 ^ 32)%Q as Hsum by done.
  rewrite ET. lra.
Qed.

Lemma currentSeconds_clock_witness :
  let T := (inject_Z (3600 * 1 + 60 * 2 + 3) + inject_Z 70 / inject_Z 100)%Q in
  all_digits (lit "01") /\ all_digits (lit "02") /\ all_digits (lit "03")
  /\ Forall (fun c => is_digit c = true) (lit "70")
  /\ (T < inject_Z (2 ^ 20))%Q
  /\ exists c,
       currentSeconds (lit "01:02:03.70") = Fin c
       /\ (Qabs (c - T) <= 1 # 2 ^ 32)%Q.
Proof.
  intros T.
  assert (H1 : all_digits (lit "01"))
    by (split; [discriminate|repeat constructor]).
  assert (H2 : all_digits (lit "02"))
    by (split; [discriminate|repeat constructor]).
  assert (H3 : all_digits (lit "03"))
    by (split; [discriminate|repeat constructor]).
  assert (H4 : Forall (fun c => is_digit c = true) (lit "70"))
    by (repeat constructor).
  assert (H5 : (T < inject_Z (2 ^ 20))%Q) by (vm_compute; reflexivity).
  split; [exact H1|]. split; [exact H2|]. split; [exact H3|].
  split; [exact H4|]. split; [exact H5|].
  exact (currentSeconds_clock (lit "01") (lit "02") (lit "03") (lit "70")
           H1 H2 H3 H4 H5).
Defined.

End Progress.

(** *** The filter graphs: every stream is used once *)

Section Streams.
Import Overlay Shape Loops Closedness Wiring WiringFacts.

(** X9.  In every graph [buildFilterGraph] returns, each label is used as
    often as it is made: the labels the nodes consume, with the two
    labels mapped to the output, are a rearrangement of the labels the
    graph produces with the streams read from the input files: the video
    stream of every clip once, and the audio stream of a clip once when
    the clip has one and the audio policy keeps it.  No produced stream
    is left unconnected and none is consumed twice. *)
Theorem nclip_every_stream_used_once (o : NClip.options) (pl : plan) :
  NClip.buildFilterGraph o = Ok pl ->
  consumed (filterGraph pl) ++ [finalVideoLabel pl; finalAudioLabel pl]
  ≡ₚ flat_map (streams_read o) (seq 0 (length (NClip.videos o)))
     ++ produced (filterGraph pl).
Proof.
  intros H. apply buildFilterGraph_Ok in H as [Hlen ->].
  apply (all_wiring o Hlen).
Qed.

Lemma nclip_every_stream_used_once_witness :
  let o := NClip.Options
             [NClip.Video (lit "a.mp4") JUndefined JUndefined;
              NClip.Video (lit "b.mp4") JUndefined JUndefined]
             [NClip.Probe (Fin 5) true; NClip.Probe (Fin 4) false]
             [Fin 5; Fin 4] (Fin 1280) (Fin 720)
             (lit "keepAll") (lit "crossfade") (Some (lit "demo")) in
  NClip.buildFilterGraph o = Ok (the_plan o)
  /\ consumed (filterGraph (the_plan o))
       ++ [finalVideoLabel (the_plan o); finalAudioLabel (the_plan o)]
     ≡ₚ flat_map (streams_read o) (seq 0 2)
        ++ produced (filterGraph (the_plan o)).
Proof.
  intros o.
  assert (H : NClip.buildFilterGraph o = Ok (the_plan o))
    by (vm_compute; reflexivity).
  split; [exact H|].
  exact (nclip_every_stream_used_once o (the_plan o) H).
Defined.

(** X10.  A graph of the n-clip helper reads the audio stream of input
    file [i] only when the probe of clip [i] found an audio stream, the
    audio option is not [muteAll], and under [keepFirst] only for the
    first clip: it never refers to an audio stream that is not there. *)
Theorem nclip_reads_no_missing_audio (o : NClip.options) (pl : plan)
    (x : node) (i : nat) :
  NClip.buildFilterGraph o = Ok pl ->
  x ∈ filterGraph pl -> in_a i ∈ inputs x ->
  exists p,
    NClip.probes o !! i = Some p /\ NClip.hasAudio p = true
    /\ is_lit (NClip.audioOption o) "muteAll" = false
    /\ (is_lit (NClip.audioOption o) "keepFirst" = true -> i = 0).
Proof.
  intros H Hx Hi. apply buildFilterGraph_Ok in H as [Hlen ->].
  cbn [the_plan filterGraph] in Hx.
  assert (in_a i ∈ consumed (all_filters o)) as Hc.
  { apply elem_of_flat_map. by exists x. }
  assert (in_a i ∈ flat_map (streams_read o) (seq 0 (length (NClip.videos o)))
                    ++ produced (all_filters o)) as Hr.
  { rewrite <- (all_wiring o Hlen). apply elem_of_app. by left. }
  apply elem_of_app in Hr as [Hr|Hr].
  - apply elem_of_flat_map in Hr as (j & _ & Hj).
    unfold streams_read in Hj. apply elem_of_cons in Hj as [Hj|Hj]; [done|].
    unfold keeps_audio in Hj.
    destruct (NClip.probes o !! j) as [p|] eqn:Hp;
      [|by apply elem_of_nil in Hj].
    destruct (NClip.hasAudio p) eqn:Ha; [|by apply elem_of_nil in Hj].
    destruct (is_lit (NClip.audioOption o) "muteAll") eqn:Hm;
      [by apply elem_of_nil in Hj|].
    destruct (is_lit (NClip.audioOption o) "keepFirst") eqn:Hk;
      cbn [andb negb] in Hj.
    + destruct (Nat.ltb_spec 0 j); cbn [negb] in Hj;
        [by apply elem_of_nil in Hj|].
      apply list_elem_of_singleton in Hj. injection Hj as ->.
      exists p. repeat split; try done. lia.
    + apply list_elem_of_singleton in Hj. injection Hj as ->.
      exists p. repeat split; done.
  - destruct (unique_outputs_all o Hlen) as [_ Hraw].
    by specialize (Hraw _ Hr).
Qed.

Lemma nclip_reads_no_missing_audio_witness :
  let o := NClip.Options
             [NClip.Video (lit "a.mp4") JUndefined JUndefined;
              NClip.Video (lit "b.mp4") JUndefined JUndefined]
             [NClip.Probe (Fin 5) true; NClip.Probe (Fin 4) false]
             [Fin 5; Fin 4] (Fin 1280) (Fin 720)
             (lit "keepAll") (lit "none") None in
  let x := Node [in_a 0] [atrim (Fin 0) (Fin 5); asetpts] [a_ 0] in
  NClip.buildFilterGraph o = Ok (the_plan o)
  /\ x ∈ filterGraph (the_plan o) /\ in_a 0 ∈ inputs x
  /\ exists p,
       NClip.probes o !! 0 = Some p /\ NClip.hasAudio p = true
       /\ is_lit (NClip.audioOption o) "muteAll" = false
       /\ (is_lit (NClip.audioOption o) "keepFirst" = true -> 0 = 0).
Proof.
  intros o x.
  assert (H : NClip.buildFilterGraph o = Ok (the_plan o))
    by (vm_compute; reflexivity).
  assert (Hx : x ∈ filterGraph (the_plan o)).
  { vm_compute. apply elem_of_cons; right. apply elem_of_cons; left.
    reflexivity. }
  assert (Hi : in_a 0 ∈ inputs x) by (apply elem_of_cons; left; reflexivity).
  split; [exact H|]. split; [exact Hx|]. split; [exact Hi|].
  exact (nclip_reads_no_missing_audio o (the_plan o) x 0 H Hx Hi).
Defined.

(** X11.  The same for the two-clip helper: in the graph of
    [mergeVideos] every label is used as often as it is made, the video
    stream of each of the two files is read once, and the audio stream of
    a file is read, once, exactly when its probe found one; otherwise
    silence is synthesized and the stream is not referred to. *)
Theorem twoclip_every_stream_used_once (st : TwoClip.settings)
    (probe0 probe1 : TwoClip.probe) :
  let pl := TwoClip.mergeVideos st probe0 probe1 in
  consumed (filterGraph pl) ++ [finalVideoLabel pl; finalAudioLabel pl]
  ≡ₚ streams_read2 probe0 0 ++ streams_read2 probe1 1
     ++ produced (filterGraph pl).
Proof.
  intros pl. unfold pl, TwoClip.mergeVideos, streams_read2.
  unfold TwoClip.normalized, TwoClip.videoFilter, TwoClip.audioFilter,
    TwoClip.concat_node, drawtext_node.
  destruct (TwoClip.w_h st) as [w h].
  destruct (TwoClip.needTrim (TwoClip.resolve _ _ probe0));
    destruct (TwoClip.needTrim (TwoClip.resolve _ _ probe1));
    destruct (TwoClip.hasAudio probe0); destruct (TwoClip.hasAudio probe1);
    (destruct (TwoClip.watermark st) as [wm|];
       [destruct (has_watermark (Some wm))|]);
    cbn [app filterGraph finalVideoLabel finalAudioLabel consumed produced
         flat_map inputs outputs];
    solve_Permutation.
Qed.

(** X12.  The graph of the first two-clip helper is closed over the two
    input files, produces every label once, and uses every label it
    produces once, the labels mapped to the output included: the final
    video label, and [outa] unless the audio is muted, in which case no
    audio node exists and none is mapped. *)
Theorem legacy_graph_is_wired (st : Legacy.settings) :
  let '(g, finalVideoLabel, finalAudioLabel) := Legacy.mergeVideos st in
  closed 2 g /\ unique_outputs g
  /\ consumed g ++ mapped finalVideoLabel finalAudioLabel
     ≡ₚ streams_read_legacy st ++ produced g.
Proof.
  unfold Legacy.mergeVideos, Legacy.videoGraph, Legacy.audioGraph,
    Legacy.watermarkGraph, Legacy.scaled, streams_read_legacy, mapped,
    drawtext_node.
  destruct (Legacy.w_h st) as [w h].
  destruct (is_lit (Legacy.transition st) "fade");
    [|destruct (is_lit (Legacy.transition st) "crossfade")];
    (destruct (is_lit (Legacy.audioOption st) "muteAll");
      [|destruct (is_lit (Legacy.audioOption st) "keepFirst")]);
    (destruct (Legacy.watermark st) as [wm|];
       [destruct (has_watermark (Some wm))|]);
    cbn [app];
    (split; [apply feeds_closed; cbn [feeds inputs outputs app];
               repeat split; intros l Hl; inv_elem;
               first [left; cbn; lia | right; elem_solve]|]);
    (split; [split; [cbn; nodup_explicit
                    | cbn; intros l Hl; inv_elem; reflexivity]|]);
    cbn [app consumed produced flat_map inputs outputs];
    solve_Permutation.
Qed.

End Streams.

(** *** The filter graphs: label texts and size *)

Section Texts.
Import Overlay Shape Loops Closedness Wiring WiringFacts LabelFacts SizeFacts.

(** X13.  The labels of a graph that [buildFilterGraph] returns stay
    apart in the text handed to FFmpeg: the bracketed names of the labels
    the graph produces are pairwise distinct strings, whatever the number
    of clips ([[v1]] and [[v11]], [[vfin2]] and [[vfout2]], [[outv]] and
    [[outv2]] never collide). *)
Theorem nclip_label_texts_distinct (o : NClip.options) (pl : plan) :
  NClip.buildFilterGraph o = Ok pl ->
  NoDup (map render_label (produced (filterGraph pl))).
Proof.
  intros H. apply buildFilterGraph_Ok in H as [Hlen ->].
  cbn [the_plan filterGraph].
  assert (Inj eq eq render_label) as Hinj
    by (intros l1 l2; apply render_label_inj).
  apply (NoDup_fmap_2 render_label), (unique_outputs_all o Hlen).
Qed.

Lemma nclip_label_texts_distinct_witness :
  let o := NClip.Options
             [NClip.Video (lit "a.mp4") JUndefined JUndefined;
              NClip.Video (lit "b.mp4") JUndefined JUndefined]
             [NClip.Probe (Fin 5) true; NClip.Probe (Fin 4) false]
             [Fin 5; Fin 4] (Fin 1280) (Fin 720)
             (lit "keepAll") (lit "fade") (Some (lit "demo")) in
  NClip.buildFilterGraph o = Ok (the_plan o)
  /\ NoDup (map render_label (produced (filterGraph (the_plan o)))).
Proof.
  intros o.
  assert (H : NClip.buildFilterGraph o = Ok (the_plan o))
    by (vm_compute; reflexivity).
  split; [exact H|].
  exact (nclip_label_texts_distinct o (the_plan o) H).
Defined.

(** X14.  The size of the graph is linear in the number [n] of clips:
    two nodes per clip from step 1; then one concat node, or with [fade]
    and more than one clip four fade nodes per cut and the concat node,
    or with [crossfade] and more than one clip two blend nodes per cut;
    and one more node when a watermark is drawn. *)
Theorem nclip_graph_size (o : NClip.options) (pl : plan) :
  NClip.buildFilterGraph o = Ok pl ->
  let n := length (NClip.videos o) in
  length (filterGraph pl)
  = 2 * n
    + (if is_lit (NClip.transition o) "fade" && (1 <? n)
       then 4 * (n - 1) + 1
       else if is_lit (NClip.transition o) "crossfade" && (1 <? n)
            then 2 * (n - 1)
            else 1)
    + (if has_watermark (NClip.watermark o) then 1 else 0).
Proof.
  intros H n. apply buildFilterGraph_Ok in H as [Hlen ->].
  cbn [the_plan filterGraph]. unfold all_filters.
  rewrite !length_app, step1_filters_length, length_join_filters,
    length_overlay_nodes by done.
  fold n. lia.
Qed.

Lemma nclip_graph_size_witness :
  let o := NClip.Options
             [NClip.Video (lit "a.mp4") JUndefined JUndefined;
              NClip.Video (lit "b.mp4") JUndefined JUndefined;
              NClip.Video (lit "c.mp4") JUndefined JUndefined]
             [NClip.Probe (Fin 5) true; NClip.Probe (Fin 4) false;
              NClip.Probe (Fin 3) true]
             [Fin 5; Fin 4; Fin 3] (Fin 1280) (Fin 720)
             (lit "keepAll") (lit "fade") (Some (lit "demo")) in
  NClip.buildFilterGraph o = Ok (the_plan o)
  /\ length (filterGraph (the_plan o)) = 16.
Proof.
  intros o.
  assert (H : NClip.buildFilterGraph o = Ok (the_plan o))
    by (vm_compute; reflexivity).
  split; [exact H|].
  exact (nclip_graph_size o (the_plan o) H).
Defined.

End Texts.

(** *** controllers/mergeController.js: uploads *)

Section Uploads.
Import Controller ControllerFacts.

(** X15.  [uploadVideos] goes on to answer with the files exactly when
    one or two files came and the MIME type of each is one of
    [ALLOWED_TYPES], and then it leaves the disk alone; every other
    upload is answered with status 400. *)
Theorem uploadVideos_accepts (uploaded : option (list file)) (d : disk) :
  let valid fs :=
    1 <= length fs <= 2
    /\ Forall (fun f => mimetype f ∈ ALLOWED_TYPES) fs in
  match uploadVideos uploaded d with
  | (files_info fs, d') => uploaded = Some fs /\ valid fs /\ d' = d
  | (error code _, _) =>
      code = 400 /\ ~ exists fs, uploaded = Some fs /\ valid fs
  | _ => False
  end.
Proof.
  intros valid. unfold uploadVideos.
  destruct uploaded as [[|f fs]|].
  - split; [done|]. intros (fs & [= <-] & Hl & _). cbn in Hl. lia.
  - set (l := f :: fs). destruct (Nat.ltb_spec 2 (length l)) as [Hl|Hl].
    + split; [done|]. intros (fs' & [= <-] & Hl' & _). lia.
    + destruct (List.find _ l) as [g|] eqn:Ef.
      * apply find_some_first in Ef as [Hg Hbad].
        apply negb_true_iff, bool_decide_eq_false in Hbad.
        split; [done|]. intros (fs' & [= <-] & _ & Hall).
        rewrite Forall_forall in Hall. by apply Hbad, Hall.
      * apply find_none_Forall in Ef. split; [done|]. split; [|done].
        split; [subst l; cbn [length] in *; lia|].
        eapply Forall_impl; [exact Ef|].
        intros g Hg. by apply negb_false_iff, bool_decide_eq_true in Hg.
  - split; [done|]. by intros (fs & [=] & _).
Qed.

(** X16.  When [uploadVideos] turns an upload down for its size or for a
    MIME type, none of the uploaded files is left on the disk, and no
    other path is touched. *)
Theorem rejected_uploads_are_removed (fs : list file) (d d' : disk)
    (code : nat) (message : jsstring) :
  fs <> [] ->
  uploadVideos (Some fs) d = (error code message, d') ->
  (forall f, f ∈ fs -> d' !! path f <> Some regular)
  /\ (forall p, p ∉ map path fs -> d' !! p = d !! p).
Proof.
  intros Hne H. assert (d' = remove_uploads fs d) as ->.
  { unfold uploadVideos in H. destruct fs as [|f fs]; [done|].
    destruct (2 <? length (f :: fs)); [by injection H|].
    destruct (List.find _ _); by injection H. }
  split.
  - intros f Hf. rewrite remove_uploads_lookup.
    rewrite bool_decide_eq_true_2 by (by apply list_elem_of_fmap_2).
    by destruct (d !! path f) as [[|]|].
  - intros p Hp. rewrite remove_uploads_lookup.
    by rewrite bool_decide_eq_false_2.
Qed.

Lemma rejected_uploads_are_removed_witness :
  let f := File (lit "notes.txt") (lit "text/plain") (lit "u1.txt")
                (lit "/tmp/uploads/u1.txt") in
  let d : disk := {[ lit "/tmp/uploads/u1.txt" := regular ]} in
  [f] <> []
  /\ uploadVideos (Some [f]) d = (error 400 (invalid_type f), ∅)
  /\ (forall g, g ∈ [f] -> (∅ : disk) !! path g <> Some regular)
  /\ (forall p, p ∉ map path [f] -> (∅ : disk) !! p = d !! p).
Proof.
  intros f d.
  assert (H1 : [f] <> []) by discriminate.
  assert (H2 : uploadVideos (Some [f]) d = (error 400 (invalid_type f), ∅)).
  { unfold uploadVideos, remove_uploads, unlink_quietly, unlinkSync.
    cbn [length Nat.ltb Nat.leb List.find mimetype f].
    rewrite bool_decide_eq_false_2; cbn [negb foldl path f].
    - unfold d. rewrite lookup_singleton_eq. by rewrite delete_singleton_eq.
    - unfold ALLOWED_TYPES. cbn [map]. intros H.
      repeat (apply elem_of_cons in H as [H|H]; [by vm_compute in H|]).
      by apply elem_of_nil in H. }
  split; [exact H1|]. split; [exact H2|].
  exact (rejected_uploads_are_removed [f] d ∅ 400 (invalid_type f) H1 H2).
Defined.

(** X17.  The controller is stricter than the filter of the route: every
    file an accepted upload holds has a MIME type that the route's
    [fileFilter] lets through. *)
Theorem accepted_uploads_pass_the_filter (uploaded : option (list file))
    (fs : list file) (d d' : disk) :
  uploadVideos uploaded d = (files_info fs, d') ->
  Forall (fun f => Routes.fileFilter (originalname f) (mimetype f) = None) fs.
Proof.
  intros H. pose proof (uploadVideos_valid uploaded d) as Hv.
  rewrite H in Hv. destruct Hv as (_ & Hall).
  eapply Forall_impl; [exact Hall|]. intros f Hf. unfold Routes.fileFilter.
  by rewrite (allowed_types_video _ Hf).
Qed.

Lemma accepted_uploads_pass_the_filter_witness :
  let f := File (lit "a.mp4") (lit "video/mp4") (lit "u1.mp4")
                (lit "/tmp/uploads/u1.mp4") in
  uploadVideos (Some [f]) ∅ = (files_info [f], ∅)
  /\ Forall (fun f => Routes.fileFilter (originalname f) (mimetype f) = None)
            [f].
Proof.
  intros f.
  assert (H : uploadVideos (Some [f]) ∅ = (files_info [f], ∅)).
  { unfold uploadVideos. cbn [length Nat.ltb Nat.leb List.find mimetype f].
    rewrite bool_decide_eq_true_2; [done|].
    unfold ALLOWED_TYPES. cbn [map]. apply list_elem_of_here. }
  split; [exact H|].
  exact (accepted_uploads_pass_the_filter (Some [f]) [f] ∅ ∅ H).
Defined.

End Uploads.

(** *** controllers/mergeController.js: jobs *)

Section Jobs.
Import Controller ControllerFacts.

Variable outputDir : jsstring.
Variable path_join : jsstring -> jsstring -> jsstring.

(** X18.  [startMerge] registers a job only for a request with exactly
    two videos whose files both exist; the job then is [processing] at
    progress 0 with the output path made from the job id and the format,
    and no other job is touched.  Every other request is answered with an
    error (400, or 500 when an element of the array is null) and leaves
    the jobs and the disk as they were. *)
Theorem startMerge_registers_two_files
    (videos : option (list (option item))) (format jobId : jsstring)
    (st : state) :
  match startMerge outputDir path_join videos format jobId st with
  | (merge_started id, st') =>
      id = jobId
      /\ (exists a b,
            videos = Some [Some a; Some b]
            /\ exists_item (files st) a = true
            /\ exists_item (files st) b = true
            /\ jobs st' !! jobId
               = Some (Job zero processing
                           (output_path outputDir path_join jobId format)
                           [Some a; Some b] None))
      /\ (forall id', id' <> jobId -> jobs st' !! id' = jobs st !! id')
  | (error code _, st') => (code = 400 \/ code = 500) /\ st' = st
  | _ => False
  end.
Proof. apply startMerge_cases. Qed.

(** X19.  Whatever requests and callbacks arrive, in whatever order, and
    whatever happens to the disk in between, every job in the map refers
    to exactly two videos, none of them null. *)
Theorem every_job_has_two_videos (events : list event) (d : disk)
    (id : jsstring) (j : job) :
  jobs (run outputDir path_join (State ∅ d) events) !! id = Some j ->
  exists a b, videos j = [Some a; Some b].
Proof.
  assert (forall st,
    (forall id j, jobs st !! id = Some j ->
       exists a b, videos j = [Some a; Some b]) ->
    forall e id j, jobs (step outputDir path_join st e) !! id = Some j ->
       exists a b, videos j = [Some a; Some b]) as Hstep.
  { intros st Hst e id' j'. destruct e as [vs fmt jid|jid p|jid|jid m|cid|d'];
      cbn [step].
    - pose proof (startMerge_cases outputDir path_join vs fmt jid st) as H.
      destruct (startMerge _ _ vs fmt jid st) as [[] st'];
        cbn [snd]; try done.
      + destruct H as [_ ->]. apply Hst.
      + destruct H as (_ & (a & b & _ & _ & _ & Hj) & Hother).
        destruct (decide (id' = jid)) as [->|Hne].
        * rewrite Hj. intros [= <-]. by exists a, b.
        * rewrite Hother by done. apply Hst.
    - unfold onProgress. destruct (jobs st !! jid) as [j0|] eqn:E; [|apply Hst].
      cbn [jobs]. destruct (decide (id' = jid)) as [->|Hne].
      + rewrite lookup_insert_eq. intros [= <-]. cbn [videos]. by apply (Hst jid).
      + rewrite lookup_insert_ne by done. apply Hst.
    - unfold onResolved. destruct (jobs st !! jid) as [j0|] eqn:E; [|apply Hst].
      cbn [jobs]. destruct (decide (id' = jid)) as [->|Hne].
      + rewrite lookup_insert_eq. intros [= <-]. cbn [videos]. by apply (Hst jid).
      + rewrite lookup_insert_ne by done. apply Hst.
    - unfold onRejected. destruct (jobs st !! jid) as [j0|] eqn:E; [|apply Hst].
      cbn [jobs]. destruct (decide (id' = jid)) as [->|Hne].
      + rewrite lookup_insert_eq. intros [= <-]. cbn [videos]. by apply (Hst jid).
      + rewrite lookup_insert_ne by done. apply Hst.
    - unfold cleanup. destruct (jobs st !! cid) as [j0|] eqn:E; [|apply Hst].
      destruct (unlink_existing _ _) as [d1|]; [|apply Hst].
      destruct (unlink_videos d1 (videos j0)) as [d2 []]; cbn [snd jobs];
        [|apply Hst].
      destruct (decide (id' = cid)) as [->|Hne].
      + by rewrite lookup_delete_eq.
      + rewrite lookup_delete_ne by done. apply Hst.
    - cbn [jobs]. apply Hst. }
  unfold run. revert id j.
  induction events as [|e events IH] using rev_ind; intros id j.
  - cbn. by rewrite lookup_empty.
  - rewrite foldl_app. cbn [foldl]. by apply Hstep.
Qed.

(** X20.  After a clean-up that ran to its end the job is forgotten and
    no other job is touched: a download or a second clean-up for its id
    is answered with 404, a late progress, success or failure callback
    of its merge changes nothing, and neither the output file nor any of
    the two uploaded files exists any more (a path that is the empty
    string is never looked at). *)
Theorem cleanup_forgets_the_job (id : jsstring) (st st' : state) :
  cleanup id st = (cleanup_complete, st') ->
  jobs st' !! id = None
  /\ (forall id', id' <> id -> jobs st' !! id' = jobs st !! id')
  /\ downloadVideo id st' = error 404 (lit "Job not found.")
  /\ cleanup id st' = (error 404 (lit "Job not found."), st')
  /\ (forall percent message,
        onProgress id percent st' = st'
        /\ onResolved id st' = st' /\ onRejected id message st' = st')
  /\ exists j,
       jobs st !! id = Some j
       /\ (outputPath j <> [] -> existsSync (files st') (outputPath j) = false)
       /\ forall v p, Some v ∈ videos j -> item_path v = Some p -> p <> [] ->
            existsSync (files st') p = false.
Proof.
  unfold cleanup. destruct (jobs st !! id) as [j|] eqn:Ej; [|done].
  destruct (unlink_existing (files st) (Some (outputPath j))) as [d1|] eqn:E1;
    [|done].
  destruct (unlink_videos d1 (videos j)) as [d2 []] eqn:E2; [|done].
  intros [= <-]. cbn [jobs files].
  assert (delete id (jobs st) !! id = None) as Hgone by apply lookup_delete_eq.
  split; [done|]. split; [by intros; apply lookup_delete_ne|].
  unfold downloadVideo, onProgress, onResolved, onRejected. cbn [jobs].
  rewrite Hgone. repeat split.
  exists j. split; [done|].
  destruct (unlink_existing_lookup _ _ _ E1) as (_ & _ & Hout & _).
  destruct (unlink_videos_lookup _ _ _ E2) as (Hmono & Hvid & _).
  split.
  - intros Hne. apply existsSync_false, Hmono. by apply Hout.
  - intros v p Hv Hp Hne. apply existsSync_false. by apply (Hvid v).
Qed.

End Jobs.

(** A merge request for two uploaded files, then its clean-up. *)
Lemma every_job_has_two_videos_witness :
  let join a b := a ++ lit "/" ++ b in
  let a := Controller.Item (Some (lit "/u/a.mp4")) (lit "a.mp4") in
  let b := Controller.Item (Some (lit "/u/b.mp4")) (lit "b.mp4") in
  let d : gmap jsstring Controller.entry :=
    {[ lit "/u/a.mp4" := Controller.regular;
       lit "/u/b.mp4" := Controller.regular ]} in
  let events :=
    [Controller.merge_request (Some [Some a; Some b]) (lit "mp4") (lit "j1");
     Controller.progress_event (lit "j1") (Fin 40)] in
  let j := Controller.Job (Fin 40) Controller.processing
             (join (lit "/out") (lit "merged_j1.mp4")) [Some a; Some b] None in
  Controller.jobs
    (Controller.run (lit "/out") join (Controller.State ∅ d) events)
    !! lit "j1" = Some j
  /\ exists a' b', Controller.videos j = [Some a'; Some b'].
Proof.
  intros join a b d events j.
  assert (H : Controller.jobs
                (Controller.run (lit "/out") join (Controller.State ∅ d) events)
                !! lit "j1" = Some j) by (vm_compute; reflexivity).
  split; [exact H|].
  exact (every_job_has_two_videos (lit "/out") join events d (lit "j1") j H).
Defined.

Lemma cleanup_forgets_the_job_witness :
  let a := Controller.Item (Some (lit "/u/a.mp4")) (lit "a.mp4") in
  let b := Controller.Item (Some (lit "/u/b.mp4")) (lit "b.mp4") in
  let j := Controller.Job (Fin 100) Controller.completed (lit "/out/m.mp4")
             [Some a; Some b] None in
  let st := Controller.State {[ lit "j1" := j ]}
              {[ lit "/u/a.mp4" := Controller.regular;
                 lit "/out/m.mp4" := Controller.regular ]} in
  let st' := Controller.State ∅ ∅ in
  Controller.cleanup (lit "j1") st = (Controller.cleanup_complete, st')
  /\ Controller.jobs st' !! lit "j1" = None
  /\ Controller.downloadVideo (lit "j1") st'
     = Controller.error 404 (lit "Job not found.").
Proof.
  intros a b j st st'.
  assert (H : Controller.cleanup (lit "j1") st
              = (Controller.cleanup_complete, st'))
    by (vm_compute; reflexivity).
  split; [exact H|].
  destruct (cleanup_forgets_the_job (lit "j1") st st' H) as (H1 & _ & H3 & _).
  split; [exact H1 | exact H3].
Defined.

(** *** frontend/app.js: the drop zone *)

Section DropZone.
Import Frontend.

(** X21.  Files dropped on the shared zone: the video files among them,
    one or two, are uploaded in order.  The first goes to slot 1 when
    slot 0 is filled and slot 1 is empty, and to slot 0 otherwise; a
    second file goes to slot 1 only when both slots are empty, and to
    slot 0 otherwise.  So two dropped files reach two different slots
    exactly when slot 1 is empty at the drop; when it holds a clip, both
    are uploaded to slot 0. *)
Theorem dropped_files_placement {A : Type} (type : A -> jsstring)
    (s : slots) (fileList : list A) (to : list (A * nat)) :
  handleDroppedFiles type s fileList = uploads to ->
  let slot_a := if fst s && negb (snd s) then 1 else 0 in
  let slot_b := if fst s || snd s then 0 else 1 in
  map fst to
  = List.filter (fun f => starts_with (lit "video/") (type f)) fileList
  /\ (map snd to = [slot_a]
      \/ (map snd to = [slot_a; slot_b]
          /\ (slot_a <> slot_b <-> snd s = false))).
Proof.
  intros H slot_a slot_b. unfold handleDroppedFiles in H.
  destruct (List.filter _ fileList) as [|f [|g [|h rest]]]; try done;
    injection H as <-; (split; [reflexivity|]).
  - left. unfold slot_a. by destruct s as [[] []].
  - right. unfold slot_a, slot_b.
    destruct s as [[] []]; cbn; split; try done;
      split; intros; try done; lia.
Qed.

Lemma dropped_files_placement_witness :
  let type (f : jsstring * jsstring) := snd f in
  let a := (lit "a.mp4", lit "video/mp4") in
  let b := (lit "b.webm", lit "video/webm") in
  let n := (lit "notes.txt", lit "text/plain") in
  handleDroppedFiles type (false, true) [a; n; b] = uploads [(a, 0); (b, 0)]
  /\ map fst [(a, 0); (b, 0)]
     = List.filter (fun f => starts_with (lit "video/") (type f)) [a; n; b]
  /\ (map snd [(a, 0); (b, 0)] = [0]
      \/ (map snd [(a, 0); (b, 0)] = [0; 0]
          /\ (0 <> 0 <-> true = false))).
Proof.
  intros type a b n.
  assert (H : handleDroppedFiles type (false, true) [a; n; b]
              = uploads [(a, 0); (b, 0)]) by reflexivity.
  split; [exact H|].
  exact (dropped_files_placement type (false, true) [a; n; b]
           [(a, 0); (b, 0)] H).
Defined.

End DropZone.

(** *** frontend/app.js and the streaming controller: the frames *)

Section Frames.
Import Frontend LineFacts.

(** X22.  The frames survive the network: when the server has written
    the JSON texts [ps] with [send], each on one line, the reader of the
    front end hands exactly these texts to [JSON.parse], in order and up
    to the first one at which its handler returns, however the stream is
    cut into chunks. *)
Theorem frames_survive_chunking (stops : jsstring -> bool)
    (ps chunks : list jsstring) :
  Forall one_line_json ps ->
  List.concat chunks = flat_map Sse.send ps ->
  read_stream stops [] chunks = handle stops ps.
Proof.
  intros Hps Hc. rewrite read_stream_whole by done.
  cbn [app]. rewrite Hc, split_frames by done.
  rewrite removelast_last. by rewrite frames_of_lines.
Qed.

Lemma frames_survive_chunking_witness :
  let stops (p : jsstring) := bool_decide (p = lit "{done}") in
  let ps := [lit "{a}"; lit "{done}"; lit "{b}"] in
  let chunks := [lit "data: {a"; [125; 10]%N; [10]%N ++ lit "data: {done}";
                 [10; 10]%N ++ lit "data: {b}" ++ [10; 10]%N] in
  Forall one_line_json ps
  /\ List.concat chunks = flat_map Sse.send ps
  /\ read_stream stops [] chunks = ([lit "{a}"; lit "{done}"], true).
Proof.
  intros stops ps chunks.
  assert (H1 : Forall one_line_json ps).
  { repeat constructor; try discriminate;
      try (intros H; repeat (apply elem_of_cons in H as [H|H];
             [discriminate H|]); by apply elem_of_nil in H). }
  assert (H2 : List.concat chunks = flat_map Sse.send ps) by reflexivity.
  split; [exact H1|]. split; [exact H2|].
  rewrite (frames_survive_chunking stops ps chunks H1 H2).
  vm_compute. reflexivity.
Defined.

End Frames.

(** *** The form, the controller and the helpers *)

Section Form.
Import Overlay Frontend TrimFacts.

(** X23.  The watermark of the form reaches the picture trimmed: with
    the two-clip helper behind the streaming controller, the text drawn
    is the escaped text of the field without the white space at its
    ends, and a field that is empty or blank draws nothing and leaves
    [outv] as the final label. *)
Theorem form_watermark_is_trimmed (f : form) (resolution : option jsstring)
    (t0 e0 t1 e1 : jsval) (probe0 probe1 : TwoClip.probe) :
  let w := JS.trim (watermarkInput f) in
  let pl :=
    TwoClip.mergeVideos
      (Sse.settings resolution (watermark (payload_of f)) t0 e0 t1 e1)
      probe0 probe1 in
  Spec.overlay_texts (filterGraph pl)
  = (if nonempty w then [safeText w] else [])
  /\ finalVideoLabel pl = (if nonempty w then outv2 else outv).
Proof.
  intros w pl. unfold pl, TwoClip.mergeVideos, Sse.settings, payload_of.
  cbn [TwoClip.watermark watermark]. fold w.
  assert (Spec.overlay_texts
            (TwoClip.normalized
               (TwoClip.Settings
                  (Some match resolution with
                        | Some r => r
                        | None => lit "1920x1080"
                        end)
                  (if nonempty w then Some w else None) t0 e0 t1 e1)
               probe0 probe1 ++ [TwoClip.concat_node]) = []) as Hn.
  { unfold TwoClip.normalized, TwoClip.videoFilter, TwoClip.audioFilter.
    destruct (TwoClip.w_h _) as [ww hh].
    destruct (TwoClip.needTrim (TwoClip.resolve _ _ probe0));
      destruct (TwoClip.needTrim (TwoClip.resolve _ _ probe1));
      destruct (TwoClip.hasAudio probe0);
      destruct (TwoClip.hasAudio probe1); reflexivity. }
  destruct (nonempty w) eqn:Hw.
  - assert (has_watermark (Some w) = true) as ->.
    { unfold has_watermark. rewrite Hw. unfold w. rewrite trim_trim.
      fold w. by rewrite Hw. }
    cbn [filterGraph finalVideoLabel].
    unfold Spec.overlay_texts in *. rewrite flat_map_app, Hn.
    by split.
  - cbn [filterGraph finalVideoLabel]. by split.
Qed.

(** X24.  Trim fields left empty or blank trim nothing: the form sends
    ['0'] and [''] for them, the two-clip helper behind the streaming
    controller then builds a graph without any trim or atrim filter, and
    the first two-clip helper gives neither [-ss] nor [-to] to its
    inputs. *)
Theorem blank_trim_fields_trim_nothing (f : form)
    (resolution wm : option jsstring) (probe0 probe1 : TwoClip.probe) :
  JS.trim (trimStart0 f) = [] -> JS.trim (trimEnd0 f) = [] ->
  JS.trim (trimStart1 f) = [] -> JS.trim (trimEnd1 f) = [] ->
  let p := payload_of f in
  let pl :=
    TwoClip.mergeVideos
      (Sse.settings resolution wm
         (JStr (trimStart p 0)) (JStr (trimEnd p 0))
         (JStr (trimStart p 1)) (JStr (trimEnd p 1)))
      probe0 probe1 in
  Forall (Shape.free_of is_cut) (filterGraph pl)
  /\ (forall i,
        LegacyCommand.input_options (JStr (trimStart p i))
                                    (JStr (trimEnd p i)) = []).
Proof.
  intros H0 H1 H2 H3 p pl. split.
  - unfold pl, p, TwoClip.mergeVideos, Sse.settings, payload_of.
    cbn [TwoClip.watermark trimStart trimEnd Nat.eqb].
    rewrite H0, H1, H2, H3. cbn [or_text nonempty].
    unfold TwoClip.normalized, TwoClip.videoFilter, TwoClip.audioFilter,
      TwoClip.concat_node, drawtext_node.
    destruct (TwoClip.w_h _) as [ww hh].
    change (TwoClip.resolve (JStr (lit "0")) (JStr []) ?pr)
      with (TwoClip.EffectiveTrim zero (TwoClip.duration pr) false).
    cbn [TwoClip.needTrim].
    destruct (TwoClip.hasAudio probe0); destruct (TwoClip.hasAudio probe1);
      (destruct wm as [w|]; [destruct (has_watermark (Some w))|]);
      cbn [filterGraph app]; repeat constructor.
  - intros i. unfold p, payload_of. cbn [trimStart trimEnd].
    destruct (i =? 0); rewrite ?H0, ?H1, ?H2, ?H3; reflexivity.
Qed.

Lemma blank_trim_fields_trim_nothing_witness :
  let f := Form [] (lit " ") [] [] (lit "medium") [] [] in
  let probe := TwoClip.Probe (Fin 5) true in
  JS.trim (trimStart0 f) = [] /\ JS.trim (trimEnd0 f) = []
  /\ JS.trim (trimStart1 f) = [] /\ JS.trim (trimEnd1 f) = []
  /\ Forall (Shape.free_of is_cut)
       (filterGraph
          (TwoClip.mergeVideos
             (Sse.settings None None
                (JStr (trimStart (payload_of f) 0))
                (JStr (trimEnd (payload_of f) 0))
                (JStr (trimStart (payload_of f) 1))
                (JStr (trimEnd (payload_of f) 1)))
             probe probe)).
Proof.
  intros f probe.
  assert (H0 : JS.trim (trimStart0 f) = []) by reflexivity.
  assert (H1 : JS.trim (trimEnd0 f) = []) by reflexivity.
  assert (H2 : JS.trim (trimStart1 f) = []) by reflexivity.
  assert (H3 : JS.trim (trimEnd1 f) = []) by reflexivity.
  split; [exact H0|]. split; [exact H1|]. split; [exact H2|].
  split; [exact H3|].
  exact (proj1 (blank_trim_fields_trim_nothing f None None probe probe
                  H0 H1 H2 H3)).
Defined.

(** X25.  Quality [custom] with the bitrate field left empty or blank is
    encoded as [medium]: the n-clip helper takes the bitrates 3000k and
    128k, the first two-clip helper the rate factor 23.  A bitrate that
    is filled in is used as it is, without the white space at its
    ends. *)
Theorem custom_quality_without_bitrate (f : form) :
  is_lit (quality f) "custom" = true ->
  let c := JS.trim (customBitrateInput f) in
  let sent := customBitrate (payload_of f) in
  Encoding.getVideoBitrate (quality f) sent
  = Encoding.Text (if nonempty c then c else lit "3000k")
  /\ Encoding.getAudioBitrate (quality f) = Encoding.Text (lit "128k")
  /\ LegacyCommand.quality_options (quality f)
       (match sent with Some b => JStr b | None => JUndefined end)
     = if nonempty c then [LegacyCommand.b_v (JStr c)]
       else [LegacyCommand.crf "23"].
Proof.
  intros Hq c sent. unfold sent, payload_of. cbn [customBitrate].
  rewrite Hq. fold c.
  apply bool_decide_eq_true in Hq. rewrite Hq.
  unfold Encoding.getVideoBitrate, Encoding.getAudioBitrate,
    LegacyCommand.quality_options.
  cbn [LegacyCommand.truthy_val].
  assert (Encoding.preset Encoding.video_bitrates "3000k" (lit "custom")
          = Encoding.Text (lit "3000k")) as -> by (by vm_compute).
  assert (Encoding.preset Encoding.audio_bitrates "128k" (lit "custom")
          = Encoding.Text (lit "128k")) as -> by (by vm_compute).
  assert (is_lit (lit "custom") "custom" = true) as -> by (by vm_compute).
  assert (is_lit (lit "custom") "high" = false) as -> by (by vm_compute).
  assert (is_lit (lit "custom") "low" = false) as -> by (by vm_compute).
  by destruct (nonempty c).
Qed.

Lemma custom_quality_without_bitrate_witness :
  let f := Form [] [] [] [] (lit "custom") (lit "  ") [] in
  is_lit (quality f) "custom" = true
  /\ Encoding.getVideoBitrate (quality f) (customBitrate (payload_of f))
     = Encoding.Text (lit "3000k")
  /\ Encoding.getAudioBitrate (quality f) = Encoding.Text (lit "128k")
  /\ LegacyCommand.quality_options (quality f)
       (match customBitrate (payload_of f) with
        | Some b => JStr b
        | None => JUndefined
        end)
     = [LegacyCommand.crf "23"].
Proof.
  intros f.
  assert (H : is_lit (quality f) "custom" = true) by (by vm_compute).
  split; [exact H|].
  exact (custom_quality_without_bitrate f H).
Defined.

End Form.

(** *** The progress bar of the streaming controller *)

Section ProgressBar.
Import Frontend Sse RoundFacts.

(** X26.  From FFmpeg to the progress bar: a percentage of FFmpeg
    between 0 and 100 is rounded by the helper, mapped by the controller
    to [5 + round(0.9 p)] and rounded again by the front end; what is
    shown is a whole number between 5 and 95, and it does not decrease
    when FFmpeg's percentage does not.  An event with percentage 0, NaN
    or none is not forwarded at all. *)
Theorem progress_bar_is_monotone (p1 p2 : Q) :
  (0 < p1)%Q -> (p1 <= p2)%Q -> (p2 <= 100)%Q ->
  exists (r1 r2 : number) (k1 k2 : Z),
    forwarded (Some (Fin p1)) = Some r1
    /\ forwarded (Some (Fin p2)) = Some r2
    /\ shown (through_json (mapped r1)) = Fin (inject_Z k1)
    /\ shown (through_json (mapped r2)) = Fin (inject_Z k2)
    /\ (5 <= k1 <= k2)%Z /\ (k2 <= 95)%Z
    /\ forwarded (Some zero) = None /\ forwarded (Some NaN) = None
    /\ forwarded None = None.
Proof.
  intros H1 H12 H2.
  assert (forall p, (0 < p)%Q -> (p <= 100)%Q ->
    let z := Qfloor (p + (1 # 2)) in
    let k := (5 + Qfloor (inject_Z z * (9 # 10) + (1 # 2)))%Z in
    forwarded (Some (Fin p)) = Some (Fin (inject_Z z))
    /\ shown (through_json (mapped (Fin (inject_Z z)))) = Fin (inject_Z k)
    /\ (0 <= z <= 100)%Z) as Hone.
  { intros p Hp Hp' z k. unfold forwarded, truthy.
    destruct (Qeq_bool p 0) eqn:E; [apply Qeq_bool_iff in E; lra|].
    cbn [negb round]. split; [done|]. split.
    - unfold mapped. cbn [mul round add through_json shown isNaN].
      f_equal. f_equal. unfold k.
      apply Qfloor_eq; rewrite ?inject_Z_plus; change (inject_Z 5) with 5%Q;
        change (inject_Z 1) with 1%Q; lra.
    - unfold z. split.
      + change 0%Z with (Qfloor 0). apply Qfloor_resp_le. lra.
      + change 100%Z with (Qfloor (100 + (1 # 2))). apply Qfloor_resp_le. lra. }
  destruct (Hone p1 H1 ltac:(lra)) as (F1 & S1 & Z1).
  destruct (Hone p2 ltac:(lra) H2) as (F2 & S2 & Z2).
  eexists _, _, _, _. split; [exact F1|]. split; [exact F2|].
  split; [exact S1|]. split; [exact S2|].
  pose proof (round_mono p1 p2 H12) as Hz.
  set (z1 := Qfloor (p1 + (1 # 2))) in *.
  set (z2 := Qfloor (p2 + (1 # 2))) in *.
  assert (forall a b : Z, (a <= b)%Z ->
    (Qfloor (inject_Z a * (9 # 10) + (1 # 2))
     <= Qfloor (inject_Z b * (9 # 10) + (1 # 2)))%Z) as Hm.
  { intros a b Hab. apply Qfloor_resp_le. rewrite Zle_Qle in Hab. lra. }
  pose proof (Hm 0%Z z1 ltac:(lia)) as B0.
  pose proof (Hm z1 z2 Hz) as B1.
  pose proof (Hm z2 100%Z ltac:(lia)) as B2.
  change (Qfloor (inject_Z 0 * (9 # 10) + (1 # 2))) with 0%Z in B0.
  change (Qfloor (inject_Z 100 * (9 # 10) + (1 # 2))) with 90%Z in B2.
  repeat split; try lia; reflexivity.
Qed.

Lemma progress_bar_is_monotone_witness :
  (0 < 12)%Q /\ (12 <= 55)%Q /\ (55 <= 100)%Q
  /\ exists (r1 r2 : number) (k1 k2 : Z),
       forwarded (Some (Fin 12)) = Some r1
       /\ forwarded (Some (Fin 55)) = Some r2
       /\ shown (through_json (mapped r1)) = Fin (inject_Z k1)
       /\ shown (through_json (mapped r2)) = Fin (inject_Z k2)
       /\ (5 <= k1 <= k2)%Z /\ (k2 <= 95)%Z
       /\ forwarded (Some zero) = None /\ forwarded (Some NaN) = None
       /\ forwarded None = None.
Proof.
  assert (H1 : (0 < 12)%Q) by (unfold Qlt; cbn; lia).
  assert (H2 : (12 <= 55)%Q) by (unfold Qle; cbn; lia).
  assert (H3 : (55 <= 100)%Q) by (unfold Qle; cbn; lia).
  split; [exact H1|]. split; [exact H2|]. split; [exact H3|].
  exact (progress_bar_is_monotone 12 55 H1 H2 H3).
Defined.

End ProgressBar.

(** *** The front end: [formatTime] *)

Section Clock.
Import Frontend RoundFacts ClockFacts.

(** X27.  For a time of less than 100 minutes that is not negative,
    [formatTime] writes two digits of minutes, a colon and two digits of
    seconds, with less than 60 seconds, and the two together are the
    whole seconds of the time. *)
Theorem formatTime_minutes_and_seconds (q : Q) :
  (0 <= q)%Q -> (q < 6000)%Q ->
  exists m s : nat,
    m < 100 /\ s < 60 /\ Z.of_nat (60 * m + s) = Qfloor q
    /\ formatTime (Fin q) = Some (two_digits m ++ lit ":" ++ two_digits s).
Proof.
  intros H0 H1. destruct (minutes_seconds q H0 H1) as (Ha & Hb & Hq).
  set (a := Qfloor (q / 60)) in *.
  set (b := Qfloor (q - 60 * inject_Z a)) in *.
  exists (Z.to_nat a), (Z.to_nat b).
  split; [lia|]. split; [lia|]. split; [lia|].
  unfold formatTime, div, Qis_zero.
  change (Qeq_bool 60 0) with false. cbv beta iota.
  unfold rem. rewrite quot_floor.
  2:{ apply Qle_shift_div_l; lra. }
  fold a. unfold floor. fold a b.
  rewrite !String_whole_nat by lia.
  by rewrite !padStart2_show_nat by lia.
Qed.

Lemma formatTime_minutes_and_seconds_witness :
  (0 <= 167 # 2)%Q /\ ((167 # 2) < 6000)%Q
  /\ exists m s : nat,
       m < 100 /\ s < 60 /\ Z.of_nat (60 * m + s) = Qfloor (167 # 2)
       /\ formatTime (Fin (167 # 2))
          = Some (two_digits m ++ lit ":" ++ two_digits s).
Proof.
  assert (H1 : (0 <= 167 # 2)%Q) by (unfold Qle; cbn; lia).
  assert (H2 : ((167 # 2) < 6000)%Q) by (unfold Qlt; cbn; lia).
  split; [exact H1|]. split; [exact H2|].
  exact (formatTime_minutes_and_seconds (167 # 2) H1 H2).
Defined.

End Clock.

(** *** The streaming controller: [startMerge] and the reader *)

Section MergeStream.
Import Controller Streaming StreamingFacts.

Variable outputsDir : jsstring.
Variable path_join : jsstring -> jsstring -> jsstring.
Variable type_error : jsstring.

(** X28.  Whatever the request, the progress events of FFmpeg and the
    way the merge settles, the frames that [startMerge] writes end with
    one frame at which the handler of the front end returns, an error or
    the download, and it returns at no frame before it.  The last frame
    is the download exactly when the request holds two videos whose files
    exist and the merge succeeds; the job is stored under its id then,
    and the jobs are left as they were otherwise. *)
Theorem merge_stream_ends_with_one_verdict
    (videos : option (list (option item))) (format jobId : jsstring)
    (events : list (option number)) (result : outcome)
    (jobs : gmap jsstring job) (d : disk) :
  let run :=
    startMerge outputsDir path_join type_error videos format jobId events
               result jobs d in
  exists body last,
    run.1 = body ++ [last]
    /\ Forall (fun f => returns f = false) body
    /\ returns last = true
    /\ match last with
       | done_frame url id =>
           id = jobId
           /\ (exists vs, videos = Some vs /\ length vs = 2
                          /\ verify d vs = all_exist
                          /\ run.2 = <[jobId := Job url
                                         (path_join outputsDir
                                            (outputFilename jobId format))
                                         vs]> jobs)
           /\ result = resolves
       | _ =>
           run.2 = jobs
           /\ ~ (exists vs, videos = Some vs /\ length vs = 2
                            /\ verify d vs = all_exist /\ result = resolves)
       end.
Proof.
  intros run. subst run. unfold startMerge.
  destruct videos as [vs|].
  2:{ exists [], (error_frame (lit "Please upload exactly 2 videos to merge.")).
      repeat split; [constructor|]. by intros (? & ? & _). }
  destruct (length vs =? 2) eqn:Elen; cbn [negb].
  2:{ exists [], (error_frame (lit "Please upload exactly 2 videos to merge.")).
      repeat split; [constructor|].
      intros (? & [= <-] & Hl & _). apply Nat.eqb_neq in Elen. lia. }
  apply Nat.eqb_eq in Elen.
  destruct (verify d vs) as [|name|] eqn:Ever.
  - destruct result as [|message].
    + eexists (_ :: _), _. cbn [fst snd]. split; [reflexivity|].
      split; [constructor; [reflexivity|apply progress_frames_go_on]|].
      split; [reflexivity|]. split; [reflexivity|]. split; [|reflexivity].
      by exists vs.
    + eexists (_ :: _), _. cbn [fst snd]. split; [reflexivity|].
      split; [constructor; [reflexivity|apply progress_frames_go_on]|].
      split; [apply message_or_nonempty|]. split; [reflexivity|].
      by intros (? & _ & _ & _ & ?).
  - exists [], (error_frame (lit "Video file not found: " ++ name)).
    repeat split; [constructor|].
    intros (? & [= <-] & _ & Hv & _). congruence.
  - exists [], (error_frame (message_or (Some type_error))).
    split; [reflexivity|]. split; [constructor|].
    split; [apply message_or_nonempty|]. split; [reflexivity|].
    intros (? & [= <-] & _ & Hv & _). congruence.
Qed.

End MergeStream.

(** *** The streaming controller: [mergeVideosRest] *)

Section RestEndpoint.
Import Controller Streaming StreamingFacts.

Variable outputsDir : jsstring.
Variable path_join : jsstring -> jsstring -> jsstring.
Variable type_error : jsstring.

(** X29.  [mergeVideosRest] removes its temporary files, the two uploads
    and the output, where they are files, when the merge fails and when
    the merged file was sent to its end, and it touches no other path;
    when sending the file fails it removes nothing.  A request that does
    not reach the merge, for a missing or empty field or for a MIME type,
    is answered with 400 or 500 and leaves the disk as it was, the
    uploaded files included. *)
Theorem rest_temp_files (video1 video2 : option (list file))
    (jobId : jsstring) (what : course) (d merged : disk) :
  let run :=
    mergeVideosRest outputsDir path_join type_error video1 video2 jobId what
                    d merged in
  if reaches_merge video1 video2 then
    exists f1 r1 f2 r2,
      video1 = Some (f1 :: r1) /\ video2 = Some (f2 :: r2)
      /\ match what with
         | stream_failed _ => run.2 = merged
         | _ =>
             forall p,
               run.2 !! p
               = if bool_decide
                      (p ∈ [path f1; path f2;
                            path_join outputsDir
                              (outputFilename jobId (lit "mp4"))])
                 then match merged !! p with
                      | Some regular => None
                      | o => o
                      end
                 else merged !! p
         end
  else
    run.2 = d
    /\ exists code message,
         run.1 = status code message /\ (code = 400 \/ code = 500).
Proof.
  intros run. subst run. unfold reaches_merge, mergeVideosRest.
  destruct video1 as [[|f1 r1]|]; destruct video2 as [[|f2 r2]|];
    try (split; [reflexivity|]; eexists _, _; split; [reflexivity|]; auto).
  cbn [List.find negb].
  destruct (bool_decide (mimetype f1 ∈ ALLOWED_TYPES)); cbn [negb andb].
  2:{ split; [reflexivity|]. eexists _, _. split; [reflexivity|]. auto. }
  destruct (bool_decide (mimetype f2 ∈ ALLOWED_TYPES)); cbn [negb].
  2:{ split; [reflexivity|]. eexists _, _. split; [reflexivity|]. auto. }
  exists f1, r1, f2, r2. split; [reflexivity|]. split; [reflexivity|].
  destruct what as [message| |[|]]; cbn [snd]; try reflexivity;
    intros p; apply remove_temp_lookup.
Qed.

End RestEndpoint.

End Further.
